(** * FileMovement: a file organizer that sorts files into extension folders

    A shallow embedding of [FileMovement.py] and the properties of its
    pipeline: the recursive scan ([get_all_files]), the grouping by
    extension and the conflict-safe moves ([organize_files]), and the removal
    of the directories left empty ([cleanup_empty_dirs]).

    The file system below the organized directory is a finite tree.  Paths
    are lists of names relative to the organized directory, so the
    destination folder [source_path / file_type] is the one-element path
    [[file_type]].  The entries of a directory are kept in the order in which
    [os.scandir] lists them; a new entry is listed last.

    Host refusals (permissions and the like), which the program catches with
    [except Exception], are an oracle [denied] on paths: the entries the host
    does not let one create, rename or remove.  A refused [os.rename] sends
    [shutil.move] to its fallback, a copy and then an unlink.  The inspection
    of the organized path at line 41 may raise, and nothing catches that
    ([Inaccessible]).  The existence checks of the conflict loop at line 95
    are taken to answer, and the run is modelled on a host that lists every
    directory; [os_walk] is the scan on a host that does not.  Names are byte
    strings, and [str.upper], [str.lower] and [str.strip] are those of ASCII
    text. *)

From Stdlib Require Import String Ascii List Bool Arith PeanoNat Lia.
From Stdlib Require Import Permutation DecimalString DecimalNat.
Import ListNotations.

Local Open Scope string_scope.
Local Open Scope list_scope.

(** ** Names: the pieces of [pathlib] and [str] the program uses *)

Module Name.

(** [str.rfind(c)]: the index of the last [c]; [None] stands for [-1]. *)
Fixpoint rfind (c : ascii) (s : string) : option nat :=
  match s with
  | EmptyString => None
  | String a r =>
      match rfind c r with
      | Some i => Some (S i)
      | None => if Ascii.eqb a c then Some 0 else None
      end
  end.

(** [0 < i < len(name) - 1], the test [PurePath.suffix] and [PurePath.stem]
    share: the last dot is neither the first nor the last character. *)
Definition splits (name : string) (i : nat) : bool :=
  (0 <? i)%nat && (i <? String.length name - 1)%nat.

(** [PurePath.suffix], as CPython has it up to 3.13: [name[i:]] for the last
    dot [i], or the empty string. *)
Definition suffix (name : string) : string :=
  match rfind "." name with
  | Some i =>
      if splits name i then substring i (String.length name - i) name else EmptyString
  | None => EmptyString
  end.

(** [PurePath.stem]: [name[:i]] for the last dot [i], or the whole name. *)
Definition stem (name : string) : string :=
  match rfind "." name with
  | Some i => if splits name i then substring 0 i name else name
  | None => name
  end.

(** [str.lstrip(c)] for a single character [c]. *)
Fixpoint lstrip (c : ascii) (s : string) : string :=
  match s with
  | EmptyString => EmptyString
  | String a r => if Ascii.eqb a c then lstrip c r else s
  end.

(** Text all of whose characters are ASCII. *)
Definition is_ascii (s : string) : bool :=
  forallb (fun a => (nat_of_ascii a <? 128)%nat) (list_ascii_of_string s).

(** [str.upper] on ASCII text: the letters [a] to [z] become [A] to [Z].
    Names are byte strings and the other bytes are kept; on text with other
    characters [str.upper] follows Unicode and is not this function, so what
    is said of the letters of a key is said for ASCII extensions
    ([is_ascii]). *)
Definition upper_char (a : ascii) : ascii :=
  let n := nat_of_ascii a in
  if (97 <=? n)%nat && (n <=? 122)%nat then ascii_of_nat (n - 32) else a.

Fixpoint upper (s : string) : string :=
  match s with
  | EmptyString => EmptyString
  | String a r => String (upper_char a) (upper r)
  end.

(** [str(counter)]: the decimal digits of a natural number. *)
Definition decimal (n : nat) : string :=
  NilEmpty.string_of_uint (Nat.to_uint n).

(** [f"{original_stem}_{counter}{suffix}"]. *)
Definition renamed (original_stem : string) (counter : nat) (sfx : string)
    : string :=
  original_stem ++ "_" ++ decimal counter ++ sfx.

End Name.

(** ** The Classifier: lines 55 to 64 of [organize_files] *)

Definition NO_EXTENSION : string := "NO_EXTENSION".

(** [file_path.suffix.lstrip('.').upper()], replaced by the sentinel when it is
    empty. *)
Definition extension_key (name : string) : string :=
  let extension := Name.upper (Name.lstrip "." (Name.suffix name)) in
  if String.eqb extension EmptyString then NO_EXTENSION else extension.

(** ** The file system under the organized directory *)

Definition path := list string.

#[local] Set Warnings "-register-all".

Inductive node : Type :=
| File (data : string)
| Dir (entries : list (string * node)).

Definition entries := list (string * node).

Module FS.

Fixpoint find_entry (n : string) (es : entries) : option node :=
  match es with
  | [] => None
  | (m, x) :: r => if String.eqb m n then Some x else find_entry n r
  end.

Fixpoint remove_entry (n : string) (es : entries) : entries :=
  match es with
  | [] => []
  | (m, x) :: r => if String.eqb m n then r else (m, x) :: remove_entry n r
  end.

Fixpoint update_entry (n : string) (f : node -> node) (es : entries) : entries :=
  match es with
  | [] => []
  | (m, x) :: r =>
      if String.eqb m n then (m, f x) :: r else (m, x) :: update_entry n f r
  end.

(** What a path names, if anything. *)
Fixpoint lookup (p : path) (t : node) : option node :=
  match p with
  | [] => Some t
  | n :: q =>
      match t with
      | Dir es =>
          match find_entry n es with
          | Some x => lookup q x
          | None => None
          end
      | File _ => None
      end
  end.

(** [Path.exists] and [Path.is_dir]. *)
Definition exists_ (p : path) (t : node) : bool :=
  match lookup p t with Some _ => true | None => false end.

Definition is_dir (p : path) (t : node) : bool :=
  match lookup p t with Some (Dir _) => true | _ => false end.

(** The tree without the entry that [p] names. *)
Fixpoint unlink (p : path) (t : node) : node :=
  match p with
  | [] => t
  | n :: q =>
      match t with
      | Dir es =>
          match q with
          | [] => Dir (remove_entry n es)
          | _ :: _ => Dir (update_entry n (unlink q) es)
          end
      | File _ => t
      end
  end.

(** The tree with [x] as a new, last entry of the directory above [p]. *)
Fixpoint create (p : path) (x : node) (t : node) : node :=
  match p with
  | [] => t
  | n :: q =>
      match t with
      | Dir es =>
          match q with
          | [] => Dir (es ++ [(n, x)])
          | _ :: _ => Dir (update_entry n (create q x) es)
          end
      | File _ => t
      end
  end.

(** The tree with the data [d] in the file that [p] names. *)
Fixpoint write (p : path) (d : string) (t : node) : node :=
  match p with
  | [] => match t with File _ => File d | Dir _ => t end
  | n :: q =>
      match t with
      | Dir es => Dir (update_entry n (write q d) es)
      | File _ => t
      end
  end.

(** [Path.parent] and [Path.name]. *)
Definition parent (p : path) : path := removelast p.
Definition name (p : path) : string := last p EmptyString.

(** The number of entries of the directory at [p]. *)
Definition count_entries (p : path) (t : node) : nat :=
  match lookup p t with
  | Some (Dir es) => List.length es
  | _ => 0
  end.

Fixpoint path_eqb (p q : path) : bool :=
  match p, q with
  | [], [] => true
  | a :: p', b :: q' => String.eqb a b && path_eqb p' q'
  | _, _ => false
  end.

(** The names of the files and of the directories of a listing. *)
Fixpoint file_names (es : entries) : list string :=
  match es with
  | [] => []
  | (n, File _) :: r => n :: file_names r
  | (_, Dir _) :: r => file_names r
  end.

Fixpoint dir_names (es : entries) : list string :=
  match es with
  | [] => []
  | (n, Dir _) :: r => n :: dir_names r
  | (_, File _) :: r => dir_names r
  end.

(** Names are unique in every directory of the tree. *)
Fixpoint fresh (n : string) (es : entries) : bool :=
  match es with
  | [] => true
  | (m, _) :: r => negb (String.eqb m n) && fresh n r
  end.

Fixpoint wf (t : node) : bool :=
  match t with
  | File _ => true
  | Dir es =>
      (fix all (l : entries) : bool :=
         match l with
         | [] => true
         | (n, x) :: r => fresh n r && wf x && all r
         end) es
  end.

(** The data of every file of the tree, in scan order. *)
Fixpoint contents (t : node) : list string :=
  match t with
  | File d => [d]
  | Dir es =>
      (fix all (l : entries) : list string :=
         match l with
         | [] => []
         | (_, x) :: r => contents x ++ all r
         end) es
  end.

Definition count_files (t : node) : nat := List.length (contents t).

(** What [os.stat] tells of a path: nothing there, a file and its data, or a
    directory. *)
Definition kind (x : node) : option string :=
  match x with
  | File d => Some d
  | Dir _ => None
  end.

Definition stat (p : path) (t : node) : option (option string) :=
  option_map kind (lookup p t).

(** Induction on trees, with the property known for every entry of a
    directory. *)
Section NodeInduction.

Variable P : node -> Prop.
Hypothesis file_case : forall d, P (File d).
Hypothesis dir_case :
  forall es, Forall (fun e : string * node => P (snd e)) es -> P (Dir es).

Fixpoint node_induction (t : node) : P t :=
  match t with
  | File d => file_case d
  | Dir es =>
      dir_case es
        ((fix all (l : entries) : Forall (fun e : string * node => P (snd e)) l :=
            match l with
            | [] => Forall_nil _
            | (n, x) :: r => Forall_cons (n, x) (node_induction x) (all r)
            end) es)
  end.

End NodeInduction.

End FS.

(** ** What the program prints *)

Inductive line : Type :=
| InvalidDirectory
| Scanning
| NoFilesFound
| Processing (file_type : string) (found : nat)
| FolderError (file_type : string)
| Skipping (file_path : path)
| Moved (file_path dest_file : path)
| MoveError (file_path : path)
| RemovedDirectory (dir_path : path)
| RemovedTotal (removed_count : nat)
| Complete (total_moved total_errors : nat).

(** The state of the Mover: the tree and the two counters. *)
Record progress : Type := {
  tree : node;
  total_moved : nat;
  total_errors : nat;
  printed : list line
}.

(** How a call of the standard library ends: it returns, or it raises; either
    way it leaves a tree. *)
Inductive outcome : Type :=
| Done (t : node)
| Raised (t : node).

(** What a run leaves: the organized path (nothing, a file or a directory),
    the statistics and the transcript. *)
Record result : Type := {
  after : option node;
  moved : nat;
  errors : nat;
  removed : list path;
  output : list line
}.

(** What the host answers when the run inspects the path it is given, at
    [source_path.exists()] and [source_path.is_dir()]: the inspection raises
    (a name too long for the host, a directory on the way that may not be
    searched: [Path.exists] lets these errors through), or nothing is at the
    path, or the node [n] is. *)
Inductive probe : Type :=
| Inaccessible
| Absent
| Present (n : node).

(** ** The Scanner: [get_all_files] *)

(** [os.walk] top-down: the files of a directory, then its subdirectories
    in turn.  [root] is the path of [t]. *)
Fixpoint get_all_files (root : path) (t : node) : list path :=
  match t with
  | File _ => []
  | Dir es =>
      map (fun filename => root ++ [filename]) (FS.file_names es)
      ++ (fix walk (l : entries) : list path :=
            match l with
            | [] => []
            | (n, x) :: r => get_all_files (root ++ [n]) x ++ walk r
            end) es
  end.

(** The same walk on a host that cannot list the directories of
    [unlistable]: [os.walk] is called without [onerror], so a directory whose
    listing fails is left out without a word, with all that is below it.
    [get_all_files] is this walk on a host that lists every directory, which
    is what the run is modelled on. *)
Fixpoint os_walk (unlistable : path -> bool) (root : path) (t : node)
    : list path :=
  match t with
  | File _ => []
  | Dir es =>
      if unlistable root then []
      else
        map (fun filename => root ++ [filename]) (FS.file_names es)
        ++ (fix walk (l : entries) : list path :=
              match l with
              | [] => []
              | (n, x) :: r => os_walk unlistable (root ++ [n]) x ++ walk r
              end) es
  end.

(** What that walk can see of a tree: the tree with nothing below the
    directories that cannot be listed. *)
Fixpoint visible (unlistable : path -> bool) (root : path) (t : node) : node :=
  match t with
  | File d => File d
  | Dir es =>
      if unlistable root then Dir []
      else Dir (map (fun '(n, x) => (n, visible unlistable (root ++ [n]) x)) es)
  end.

(** Every directory on the way from [root] down to [root ++ rel], [root]
    itself included and the last name excluded, can be listed. *)
Definition listed (unlistable : path -> bool) (root rel : path) : Prop :=
  forall q r, rel = q ++ r -> r <> [] -> unlistable (root ++ q) = false.

(** [files_by_type[extension].append(file_path)] on a dictionary that keeps
    its keys in insertion order. *)
Fixpoint group_add (extension : string) (file_path : path)
    (files_by_type : list (string * list path)) : list (string * list path) :=
  match files_by_type with
  | [] => [(extension, [file_path])]
  | (k, files) :: r =>
      if String.eqb k extension then (k, files ++ [file_path]) :: r
      else (k, files) :: group_add extension file_path r
  end.

Definition group_files (all_files : list path) : list (string * list path) :=
  fold_left
    (fun files_by_type file_path =>
       group_add (extension_key (FS.name file_path)) file_path files_by_type)
    all_files [].

(** A loop whose body may run out of fuel. *)
Fixpoint for_each {A S : Type} (body : S -> A -> option S) (l : list A) (s : S)
    : option S :=
  match l with
  | [] => Some s
  | a :: r =>
      match body s a with
      | Some s' => for_each body r s'
      | None => None
      end
  end.

Section Organizer.

(** The entries the host refuses to create, rename or remove, as when their
    directory may not be written.  Reading a file is never refused. *)
Variable denied : path -> bool.

(** [Path.mkdir(exist_ok=True)]: nothing to do when the directory exists,
    [FileExistsError] when a file has the name, and otherwise a new empty
    directory unless the host refuses or the parent is missing. *)
Definition mkdir (p : path) (t : node) : option node :=
  match FS.lookup p t with
  | Some (Dir _) => Some t
  | Some (File _) => None
  | None =>
      if denied p then None
      else if FS.is_dir (FS.parent p) t then Some (FS.create p (Dir []) t)
      else None
  end.

(** [os.rename] of a regular file, the only kind of source the Mover
    submits; an existing file at [dst] is replaced, as on POSIX hosts. *)
Definition rename (src dst : path) (t : node) : option node :=
  match FS.lookup src t with
  | Some (File d) =>
      if denied src || denied dst then None
      else
        match FS.lookup dst t with
        | Some (Dir _) => None
        | Some (File _) =>
            Some (FS.create dst (File d) (FS.unlink dst (FS.unlink src t)))
        | None =>
            if FS.is_dir (FS.parent dst) t
            then Some (FS.create dst (File d) (FS.unlink src t))
            else None
        end
  | _ => None
  end.

(** [shutil.copy2] of a regular file: the data of [src] is written over the
    file at [dst], or to a new file there unless the host refuses the entry or
    the parent is missing; a file is not copied onto itself
    ([SameFileError]).  Reading is never refused. *)
Definition copy2 (src dst : path) (t : node) : option node :=
  match FS.lookup src t with
  | Some (File d) =>
      if FS.path_eqb src dst then None
      else
        match FS.lookup dst t with
        | Some (Dir _) => None
        | Some (File _) => Some (FS.write dst d t)
        | None =>
            if denied dst then None
            else if FS.is_dir (FS.parent dst) t
                 then Some (FS.create dst (File d) t)
                 else None
        end
  | _ => None
  end.

(** [os.unlink] of a regular file. *)
Definition os_unlink (p : path) (t : node) : option node :=
  match FS.lookup p t with
  | Some (File _) => if denied p then None else Some (FS.unlink p t)
  | _ => None
  end.

(** [shutil.move] of a regular file: into [dst] when [dst] is a directory,
    where an entry of the same name raises [shutil.Error], and onto [dst]
    otherwise.  It tries [os.rename]; when that raises it copies the file and
    then unlinks the source, so that a source the host does not let go stays,
    with the copy made. *)
Definition shutil_move (src dst : path) (t : node) : outcome :=
  let move_to := fun real_dst =>
    match rename src real_dst t with
    | Some t' => Done t'
    | None =>
        match copy2 src real_dst t with
        | None => Raised t
        | Some copied =>
            match os_unlink src copied with
            | Some t' => Done t'
            | None => Raised copied
            end
        end
    end in
  match FS.lookup dst t with
  | Some (Dir _) =>
      let real_dst := dst ++ [FS.name src] in
      if FS.exists_ real_dst t then Raised t else move_to real_dst
  | _ => move_to dst
  end.

(** Lines 95 to 97: [while dest_file.exists()], with [fuel] bounding the
    number of renamings; [None] when the fuel runs out. *)
Fixpoint free_name (fuel : nat) (t : node) (dest_folder : path)
    (original_stem sfx : string) (dest_file : path) (counter : nat)
    : option path :=
  if FS.exists_ dest_file t then
    match fuel with
    | O => None
    | S fuel' =>
        free_name fuel' t dest_folder original_stem sfx
          (dest_folder ++ [Name.renamed original_stem counter sfx])
          (S counter)
    end
  else Some dest_file.

(** Lines 91 to 97: the destination of [file_path] in [dest_folder].  The
    fuel is one more than the number of entries of the folder, which
    [ConflictFacts.resolve_conflict_spec] shows to be enough. *)
Definition resolve_conflict (t : node) (dest_folder file_path : path)
    : option path :=
  let dest_file := dest_folder ++ [FS.name file_path] in
  free_name (S (FS.count_entries dest_folder t)) t dest_folder
    (Name.stem (FS.name dest_file)) (Name.suffix (FS.name file_path))
    dest_file 1.

(** Lines 84 to 106: the body of the loop over the files of a group. *)
Definition move_file (dest_folder : path) (st : progress) (file_path : path)
    : option progress :=
  if FS.path_eqb (FS.parent file_path) dest_folder then
    Some {| tree := tree st;
            total_moved := total_moved st;
            total_errors := total_errors st;
            printed := printed st ++ [Skipping file_path] |}
  else
    match resolve_conflict (tree st) dest_folder file_path with
    | None => None
    | Some dest_file =>
        match shutil_move file_path dest_file (tree st) with
        | Done t' =>
            Some {| tree := t';
                    total_moved := total_moved st + 1;
                    total_errors := total_errors st;
                    printed := printed st ++ [Moved file_path dest_file] |}
        | Raised t' =>
            Some {| tree := t';
                    total_moved := total_moved st;
                    total_errors := total_errors st + 1;
                    printed := printed st ++ [MoveError file_path] |}
        end
    end.

(** Lines 71 to 106: the body of the loop over the groups. *)
Definition process_type (st : progress) (group : string * list path)
    : option progress :=
  let (file_type, files) := group in
  let dest_folder := [file_type] in
  match mkdir dest_folder (tree st) with
  | Some t' =>
      for_each (move_file dest_folder) files
        {| tree := t';
           total_moved := total_moved st;
           total_errors := total_errors st;
           printed := printed st ++ [Processing file_type (List.length files)] |}
  | None =>
      Some {| tree := tree st;
              total_moved := total_moved st;
              total_errors := total_errors st + List.length files;
              printed := printed st ++ [FolderError file_type] |}
  end.

(** ** The Cleaner: [cleanup_empty_dirs] *)

(** Lines 131 to 145, for the entry [dir_name] of the directory [root] whose
    current listing is [es]. *)
Definition remove_if_empty (exclude_folders : list string) (root : path)
    (acc : entries * list path) (dir_name : string) : entries * list path :=
  let (es, removed_dirs) := acc in
  if existsb (String.eqb dir_name) exclude_folders then acc
  else
    match FS.find_entry dir_name es with
    | Some (Dir []) =>
        if denied (root ++ [dir_name]) then acc
        else (FS.remove_entry dir_name es, removed_dirs ++ [root ++ [dir_name]])
    | _ => acc
    end.

(** [os.walk(directory, topdown=False)] lists [dirs] first, walks every
    subdirectory, and only then hands [root] and [dirs] to the loop body. *)
Fixpoint cleanup_walk (exclude_folders : list string) (root : path) (t : node)
    : node * list path :=
  match t with
  | File d => (File d, [])
  | Dir es =>
      let dirs := FS.dir_names es in
      let below :=
        (fix walk (l : entries) : entries * list path :=
           match l with
           | [] => ([], [])
           | (n, x) :: r =>
               let (x', removed_x) := cleanup_walk exclude_folders (root ++ [n]) x in
               let (r', removed_r) := walk r in
               ((n, x') :: r', removed_x ++ removed_r)
           end) es in
      let (es', removed_dirs) :=
        fold_left (remove_if_empty exclude_folders root) dirs below in
      (Dir es', removed_dirs)
  end.

Definition cleanup_empty_dirs (exclude_folders : list string) (t : node)
    : node * list path :=
  cleanup_walk exclude_folders [] t.

(** *** What the Cleaner amounts to

    [removable] tells whether the directory [x] at [p] goes: its name is not
    excluded, the host does not refuse, and all of its entries go.  [cleaned]
    is the tree without those directories, [removals] the removed paths in
    the order of removal.  The Cleaner is proved to compute both. *)
Fixpoint removable (exclude_folders : list string) (p : path) (x : node)
    : bool :=
  match x with
  | File _ => false
  | Dir es =>
      negb (existsb (String.eqb (FS.name p)) exclude_folders)
      && negb (denied p)
      && forallb (fun '(n, y) => removable exclude_folders (p ++ [n]) y) es
  end.

Fixpoint cleaned (exclude_folders : list string) (root : path) (t : node)
    : node :=
  match t with
  | File d => File d
  | Dir es =>
      Dir (flat_map
             (fun '(n, x) =>
                if removable exclude_folders (root ++ [n]) x then []
                else [(n, cleaned exclude_folders (root ++ [n]) x)])
             es)
  end.

Fixpoint removals (exclude_folders : list string) (root : path) (t : node)
    : list path :=
  match t with
  | File _ => []
  | Dir es =>
      flat_map (fun '(n, x) => removals exclude_folders (root ++ [n]) x) es
      ++ flat_map
           (fun '(n, x) =>
              if removable exclude_folders (root ++ [n]) x
              then [root ++ [n]] else [])
           es
  end.

(** ** The Orchestrator: [organize_files] *)

(** The run on what the host finds at the given path.  [None] is a run that
    ends with an exception nothing catches: line 41 is outside every [try],
    so an inspection that raises ends the run there, before anything is
    printed.  The existence checks of line 95 are taken to answer. *)
Definition organize_files (source : probe) : option result :=
  match source with
  | Inaccessible => None
  | Present (Dir es) =>
      let all_files := get_all_files [] (Dir es) in
      match all_files with
      | [] =>
          Some {| after := Some (Dir es); moved := 0; errors := 0;
                  removed := [];
                  output := [Scanning; NoFilesFound] |}
      | _ :: _ =>
          let files_by_type := group_files all_files in
          match
            for_each process_type files_by_type
              {| tree := Dir es; total_moved := 0; total_errors := 0;
                 printed := [Scanning] |}
          with
          | None => None
          | Some st =>
              let (t', removed_dirs) :=
                cleanup_empty_dirs (map fst files_by_type) (tree st) in
              let removed_count := List.length removed_dirs in
              Some {| after := Some t';
                      moved := total_moved st;
                      errors := total_errors st;
                      removed := removed_dirs;
                      output :=
                        printed st
                        ++ map RemovedDirectory removed_dirs
                        ++ (if (0 <? removed_count)%nat
                            then [RemovedTotal removed_count] else [])
                        ++ [Complete (total_moved st) (total_errors st)] |}
          end
      end
  | Present (File d) =>
      Some {| after := Some (File d); moved := 0; errors := 0; removed := [];
              output := [InvalidDirectory] |}
  | Absent =>
      Some {| after := None; moved := 0; errors := 0; removed := [];
              output := [InvalidDirectory] |}
  end.

End Organizer.

(** A host that refuses nothing. *)
Definition permissive : path -> bool := fun _ => false.

(** ** Notions used in the statements about a run *)

(** The moves a transcript records, in order: source and destination. *)
Fixpoint moves (out : list line) : list (path * path) :=
  match out with
  | [] => []
  | Moved file_path dest_file :: r => (file_path, dest_file) :: moves r
  | _ :: r => moves r
  end.

(** A file sits directly in the folder of its key. *)
Definition in_place (p : path) : Prop :=
  FS.parent p = [extension_key (FS.name p)].

(** [d] is a destination the Mover may give to the file [s]: in the folder
    of the key of [s], under the name of [s] or a numbered renaming of it. *)
Definition destination_of (s d : path) : Prop :=
  FS.parent d = [extension_key (FS.name s)]
  /\ (FS.name d = FS.name s
      \/ exists N,
           1 <= N
           /\ FS.name d
              = Name.renamed (Name.stem (FS.name s)) N
                  (Name.suffix (FS.name s))).

(** A path is taken, for a run that started from [t0] and whose moves and
    copies went to the paths [arrived], when something was at it in [t0] or
    a file of the run arrived at it. *)
Definition taken (t0 : node) (arrived : list path) (q : path) : Prop :=
  FS.lookup q t0 <> None \/ In q arrived.

(** The destination [d] of the file [s] has the name of [s]; or that name is
    taken in the folder of [d], and [d] has a numbered name, with every
    lower number taken as well. *)
Definition named (t0 : node) (arrived : list path) (s d : path) : Prop :=
  FS.name d = FS.name s
  \/ taken t0 arrived (FS.parent d ++ [FS.name s])
     /\ exists N,
          1 <= N
          /\ FS.name d
             = Name.renamed (Name.stem (FS.name s)) N
                 (Name.suffix (FS.name s))
          /\ forall k,
               1 <= k < N ->
               taken t0 arrived
                 (FS.parent d
                  ++ [Name.renamed (Name.stem (FS.name s)) k
                        (Name.suffix (FS.name s))]).

(** What holds between two turns of the Mover's loops, for the tree [t0]
    the run started from, the scanned files [all], the files [todo] still to
    be handled, and the copies [cs] that failed moves have left: a pair
    [(s, d)] for a file [s] that was copied to [d] and could not be unlinked. *)
Record mover_inv (t0 : node) (all : list path) (cs : list (path * path))
    (st : progress) (todo : list path) : Prop := {
  mi_wf : FS.wf (tree st) = true;
  mi_todo_nodup : NoDup todo;
  mi_todo_all : forall p, In p todo -> In p all;
  mi_todo_fresh :
    forall p, In p todo -> ~ In p (map fst (moves (printed st)));
  mi_files :
    forall q c,
      FS.stat q (tree st) = Some (Some c)
      <-> (FS.stat q t0 = Some (Some c)
           /\ ~ In q (map fst (moves (printed st))))
          \/ (exists s,
                In (s, q) (cs ++ moves (printed st))
                /\ FS.stat s t0 = Some (Some c));
  mi_srcs : forall s d, In (s, d) (cs ++ moves (printed st)) -> In s all;
  mi_dsts : NoDup (map snd (cs ++ moves (printed st)));
  mi_apart :
    forall s d q c,
      In (s, d) (cs ++ moves (printed st)) ->
      FS.stat q t0 = Some (Some c) ->
      ~ In q (map fst (moves (printed st))) -> d <> q;
  mi_dirs : forall q, FS.is_dir q t0 = true -> FS.is_dir q (tree st) = true;
  mi_contents :
    exists copied,
      Forall2 (fun sd c => FS.stat (fst sd) t0 = Some (Some c)) cs copied
      /\ Permutation (FS.contents (tree st)) (copied ++ FS.contents t0);
  mi_shape :
    forall s d, In (s, d) (cs ++ moves (printed st)) -> destination_of s d;
  mi_count : total_moved st = List.length (moves (printed st));
  mi_copies :
    forall s d, In (s, d) cs ->
                In (MoveError s) (printed st)
                /\ ~ In s (map fst (moves (printed st)))
                /\ ~ In s todo;
  mi_failed : List.length cs <= total_errors st;
  mi_done :
    total_errors st = 0 ->
    forall q, In q all -> ~ In q todo ->
              In q (map fst (moves (printed st))) \/ in_place q;
  mi_dirs_back :
    forall q, FS.is_dir q (tree st) = true ->
              FS.is_dir q t0 = true \/ List.length q = 1;
  mi_named :
    forall s d, In (s, d) (moves (printed st)) ->
                named t0 (map snd (cs ++ moves (printed st))) s d
}.

(** The directory of the scenario: [a.txt], [b.txt] and [sub/b.txt], with
    file data [da], [db] and [dsub]. *)
Definition scenario (da db dsub : string) : entries :=
  [("a.txt", File da); ("b.txt", File db); ("sub", Dir [("b.txt", File dsub)])].

(** The files a transcript reports as already in place. *)
Fixpoint skipped (out : list line) : nat :=
  match out with
  | [] => 0
  | Skipping _ :: r => S (skipped r)
  | _ :: r => skipped r
  end.

(** What a line of the Mover's loop says about the file it names, on a host
    that refuses the paths of [denied]: a skipped file is in place, a moved
    file was not, and a move fails only where the host refuses the file or a
    destination in the folder of its key. *)
Definition justified (denied : path -> bool) (l : line) : Prop :=
  match l with
  | Skipping p => in_place p
  | Moved p _ => ~ in_place p
  | MoveError p =>
      ~ in_place p
      /\ exists d,
           FS.parent d = [extension_key (FS.name p)]
           /\ (denied p = true \/ denied d = true)
  | _ => True
  end.

(** The transcript [out] reports what became of the file [p]. *)
Definition reported (p : path) (out : list line) : Prop :=
  In (Skipping p) out \/ (exists d, In (Moved p d) out) \/ In (MoveError p) out.

(** ** The interactive entry point: [main] *)

Module Text.

(** [str.isspace] on ASCII: tab to carriage return, the four separators and
    the space. *)
Definition is_space (a : ascii) : bool :=
  let n := nat_of_ascii a in
  ((9 <=? n)%nat && (n <=? 13)%nat) || ((28 <=? n)%nat && (n <=? 32)%nat).

Fixpoint lstrip (s : string) : string :=
  match s with
  | EmptyString => EmptyString
  | String a r => if is_space a then lstrip r else s
  end.

Fixpoint rstrip (s : string) : string :=
  match s with
  | EmptyString => EmptyString
  | String a r =>
      match rstrip r with
      | EmptyString => if is_space a then EmptyString else String a EmptyString
      | r' => String a r'
      end
  end.

(** [str.strip()]. *)
Definition strip (s : string) : string := rstrip (lstrip s).

(** [str.lower] on the letters [A] to [Z]; the other bytes are kept. *)
Definition lower_char (a : ascii) : ascii :=
  let n := nat_of_ascii a in
  if (65 <=? n)%nat && (n <=? 90)%nat then ascii_of_nat (n + 32) else a.

Fixpoint lower (s : string) : string :=
  match s with
  | EmptyString => EmptyString
  | String a r => String (lower_char a) (lower r)
  end.

End Text.

(** What [main] itself prints around the run. *)
Inductive console : Type :=
| Rule
| Title
| AskDirectory
| WillOrganize (directory : string)
| Explain
| AskConfirm
| OperationCancelled
| FromRun (l : line).

(** How [main] ends: it returns, [input] raises [EOFError], or an exception
    of [organize_files] passes through it. *)
Inductive ending : Type :=
| Returned
| EndOfInput
| Uncaught.

(** A session: the directory [organize_files] was called on, if it was
    called, with what it returned; what the console shows; how it ends. *)
Record session : Type := {
  organized : option (string * option result);
  shown : list console;
  exit : ending
}.

(** [main], for the working directory [cwd], what the host finds at each
    path ([world]), and the lines [stdin] still to be read. *)
Definition main (denied : path -> bool) (cwd : string)
    (world : string -> probe) (stdin : list string) : session :=
  let banner := [Rule; Title; Rule; AskDirectory] in
  match stdin with
  | [] => {| organized := None; shown := banner; exit := EndOfInput |}
  | line1 :: stdin' =>
      let directory := Text.strip line1 in
      let directory :=
        if String.eqb directory EmptyString then cwd else directory in
      let asked := banner ++ [WillOrganize directory; Explain; AskConfirm] in
      match stdin' with
      | [] => {| organized := None; shown := asked; exit := EndOfInput |}
      | line2 :: _ =>
          let confirm := Text.lower (Text.strip line2) in
          if String.eqb confirm "yes" || String.eqb confirm "y" then
            let r := organize_files denied (world directory) in
            {| organized := Some (directory, r);
               shown :=
                 asked
                 ++ match r with
                    | Some r' => map FromRun (output r')
                    | None => []
                    end;
               exit := match r with
                       | Some _ => Returned
                       | None => Uncaught
                       end |}
          else
            {| organized := None;
               shown := asked ++ [OperationCancelled];
               exit := Returned |}
      end
  end.

(** * Properties *)

(** ** The program on small inputs *)

Example key_report : extension_key "report.PDF" = "PDF".
Proof. reflexivity. Qed.

Example key_bashrc : extension_key ".bashrc" = "NO_EXTENSION".
Proof. reflexivity. Qed.

Example key_tar_gz : extension_key "a.tar.gz" = "GZ".
Proof. reflexivity. Qed.

Example key_trailing : extension_key "a." = "NO_EXTENSION".
Proof. reflexivity. Qed.

Example stem_suffix : (Name.stem "b.txt", Name.suffix "b.txt") = ("b", ".txt").
Proof. reflexivity. Qed.

(** ** Invalid input and the empty scan *)

Section Orchestrator.

Variable denied : path -> bool.

(** C6: when the host finds nothing or a file at the organized path, the run
    prints the invalid-directory error, touches nothing, and returns with
    empty statistics; when the inspection of the path itself raises, nothing
    catches the exception: the run ends there, with no result and no line
    printed. *)
Theorem invalid_directory_aborts :
  organize_files denied Absent
  = Some {| after := None; moved := 0; errors := 0; removed := [];
            output := [InvalidDirectory] |}
  /\ (forall data,
        organize_files denied (Present (File data))
        = Some {| after := Some (File data); moved := 0; errors := 0;
                  removed := []; output := [InvalidDirectory] |})
  /\ organize_files denied Inaccessible = None.
Proof. split; [ | split; [ intro data | ] ]; reflexivity. Qed.

Lemma organize_files_empty_scan (es : entries) :
  get_all_files [] (Dir es) = [] ->
  organize_files denied (Present (Dir es))
  = Some {| after := Some (Dir es); moved := 0; errors := 0; removed := [];
            output := [Scanning; NoFilesFound] |}.
Proof.
  intro Hscan. unfold organize_files. rewrite Hscan. reflexivity.
Qed.

(** C10: when the scan of a valid directory finds no file, the run returns
    after the scan with the tree as it was: no folder is created and no
    directory is removed, whatever empty directories the tree holds. *)
Theorem empty_scan_changes_nothing (es : entries) :
  get_all_files [] (Dir es) = [] ->
  organize_files denied (Present (Dir es))
  = Some {| after := Some (Dir es); moved := 0; errors := 0; removed := [];
            output := [Scanning; NoFilesFound] |}.
Proof. apply organize_files_empty_scan. Qed.

End Orchestrator.

Lemma empty_scan_changes_nothing_witness :
  let es := [("old", Dir [("deep", Dir [])]); ("PDF", Dir [])] in
  organize_files permissive (Present (Dir es))
  = Some {| after := Some (Dir es); moved := 0; errors := 0; removed := [];
            output := [Scanning; NoFilesFound] |}.
Proof.
  intro es. apply (empty_scan_changes_nothing permissive es). reflexivity.
Defined.

(** ** The scenario of three files *)

Lemma permutation_of_three {A : Type} (x y z : A) (l : list A) :
  Permutation l [x; y; z] ->
  l = [x; y; z] \/ l = [x; z; y] \/ l = [y; x; z]
  \/ l = [z; x; y] \/ l = [y; z; x] \/ l = [z; y; x].
Proof.
  intro HP.
  assert (Hlen := Permutation_length HP).
  destruct l as [ | p [ | q [ | r [ | ? ? ] ] ] ]; try discriminate Hlen.
  clear Hlen.
  assert (Hx : In x [p; q; r])
    by (apply (Permutation_in x (Permutation_sym HP)); left; reflexivity).
  destruct Hx as [ <- | [ <- | [ <- | [] ] ] ].
  - apply Permutation_cons_inv in HP.
    apply Permutation_length_2_inv in HP.
    destruct HP as [ E | E ]; injection E as <- <-; auto.
  - assert (HP' : Permutation (q :: [p; r]) (q :: [y; z]))
      by (etransitivity; [ apply perm_swap | exact HP ]).
    apply Permutation_cons_inv in HP'.
    apply Permutation_length_2_inv in HP'.
    destruct HP' as [ E | E ]; injection E as <- <-; auto 7.
  - assert (HP' : Permutation (r :: [p; q]) (r :: [y; z]))
      by (etransitivity;
          [ apply (Permutation_cons_append [p; q] r) | exact HP ]).
    apply Permutation_cons_inv in HP'.
    apply Permutation_length_2_inv in HP'.
    destruct HP' as [ E | E ]; injection E as <- <-; auto 7.
Qed.

(** C4: on a directory holding exactly [a.txt], [b.txt] and [sub/b.txt], in
    whatever order the host lists them, one run leaves [TXT/a.txt],
    [TXT/b.txt] and [TXT/b_1.txt] with the data of the three files, removes
    [sub], and ends with the summary of 3 files moved and 0 errors. *)
Theorem scenario_outcome (da db dsub : string) (es : entries) :
  Permutation es (scenario da db dsub) ->
  exists r t',
    organize_files permissive (Present (Dir es)) = Some r
    /\ after r = Some t'
    /\ FS.lookup ["TXT"; "a.txt"] t' = Some (File da)
    /\ FS.lookup ["TXT"; "b.txt"] t' = Some (File db)
    /\ FS.lookup ["TXT"; "b_1.txt"] t' = Some (File dsub)
    /\ FS.lookup ["sub"] t' = None
    /\ removed r = [["sub"]]
    /\ moved r = 3
    /\ errors r = 0
    /\ last (output r) Scanning = Complete 3 0.
Proof.
  intro HP. apply permutation_of_three in HP.
  destruct HP as [ -> | [ -> | [ -> | [ -> | [ -> | -> ] ] ] ] ];
    (eexists; eexists; split; [ vm_compute; reflexivity | ];
     split; [ reflexivity | ]; repeat split).
Qed.

Lemma scenario_outcome_witness :
  exists r t',
    organize_files permissive
      (Present (Dir [("sub", Dir [("b.txt", File "2")]);
                  ("b.txt", File "1"); ("a.txt", File "0")])) = Some r
    /\ after r = Some t'
    /\ FS.lookup ["TXT"; "a.txt"] t' = Some (File "0")
    /\ FS.lookup ["TXT"; "b.txt"] t' = Some (File "1")
    /\ FS.lookup ["TXT"; "b_1.txt"] t' = Some (File "2")
    /\ FS.lookup ["sub"] t' = None
    /\ removed r = [["sub"]]
    /\ moved r = 3
    /\ errors r = 0
    /\ last (output r) Scanning = Complete 3 0.
Proof.
  apply (scenario_outcome "0" "1" "2").
  unfold scenario.
  apply Permutation_sym.
  apply (perm_trans (l' := [("a.txt", File "0");
                            ("sub", Dir [("b.txt", File "2")]);
                            ("b.txt", File "1")])).
  - apply perm_skip. apply perm_swap.
  - apply (perm_trans (l' := [("sub", Dir [("b.txt", File "2")]);
                              ("a.txt", File "0"); ("b.txt", File "1")])).
    + apply perm_swap.
    + apply perm_skip. apply perm_swap.
Defined.

(** ** Names and keys *)

Module NameFacts.

Import Name.

Lemma length_append (a b : string) :
  String.length (a ++ b) = String.length a + String.length b.
Proof. induction a as [ | c a IH ]; simpl; [ reflexivity | now rewrite IH ]. Qed.

Lemma append_assoc (a b c : string) : ((a ++ b) ++ c = a ++ (b ++ c))%string.
Proof. induction a as [ | x a IH ]; simpl; [ reflexivity | now rewrite IH ]. Qed.

Lemma append_empty_r (a : string) : (a ++ EmptyString)%string = a.
Proof. induction a as [ | x a IH ]; simpl; [ reflexivity | now rewrite IH ]. Qed.

Lemma append_inv_head (a b c : string) :
  (a ++ b)%string = (a ++ c)%string -> b = c.
Proof.
  induction a as [ | x a IH ]; simpl; intro H; [ exact H | ].
  injection H as H. now apply IH.
Qed.

Lemma append_same_length (a a' b b' : string) :
  String.length a = String.length a' ->
  (a ++ b)%string = (a' ++ b')%string -> a = a' /\ b = b'.
Proof.
  revert a'. induction a as [ | x a IH ]; intros [ | x' a' ] Hlen H;
    simpl in *; try discriminate.
  - split; [ reflexivity | exact H ].
  - injection H as -> H. injection Hlen as Hlen.
    destruct (IH a' Hlen H) as [ -> -> ]. split; reflexivity.
Qed.

Lemma append_inv_tail (a b c : string) :
  (a ++ c)%string = (b ++ c)%string -> a = b.
Proof.
  intro H.
  assert (Hlen : String.length a = String.length b).
  { apply (f_equal String.length) in H. rewrite !length_append in H. lia. }
  now destruct (append_same_length a b c c Hlen H).
Qed.

Lemma substring_whole (x : string) : substring 0 (String.length x) x = x.
Proof. induction x as [ | c x IH ]; simpl; [ reflexivity | now rewrite IH ]. Qed.

Lemma substring_drop (pre x : string) (n : nat) :
  substring (String.length pre) n (pre ++ x) = substring 0 n x.
Proof. induction pre as [ | c pre IH ]; simpl; [ reflexivity | exact IH ]. Qed.

Lemma substring_take (pre x : string) :
  substring 0 (String.length pre) (pre ++ x) = pre.
Proof.
  induction pre as [ | c pre IH ]; simpl.
  - destruct x; reflexivity.
  - now rewrite IH.
Qed.

(** The last occurrence splits the string, and nothing after it is [c]. *)
Lemma rfind_split (c : ascii) (s : string) (i : nat) :
  rfind c s = Some i ->
  exists pre e,
    s = (pre ++ String c e)%string /\ String.length pre = i /\ rfind c e = None.
Proof.
  revert i. induction s as [ | a s IH ]; simpl; intros i H; [ discriminate | ].
  destruct (rfind c s) as [ j | ] eqn:E.
  - injection H as <-.
    destruct (IH j eq_refl) as (pre & e & -> & <- & He).
    exists (String a pre), e. simpl. auto.
  - destruct (Ascii.eqb_spec a c) as [ -> | ]; [ | discriminate ].
    injection H as <-. exists EmptyString, s. auto.
Qed.

Lemma rfind_append (c : ascii) (pre e : string) :
  rfind c e = None -> rfind c (pre ++ String c e) = Some (String.length pre).
Proof.
  intro He. induction pre as [ | a pre IH ]; simpl.
  - now rewrite He, Ascii.eqb_refl.
  - now rewrite IH.
Qed.

Lemma rfind_none_head (c a : ascii) (s : string) :
  rfind c (String a s) = None -> a <> c /\ rfind c s = None.
Proof.
  simpl. destruct (rfind c s); [ discriminate | ].
  destruct (Ascii.eqb_spec a c); [ discriminate | auto ].
Qed.

Lemma lstrip_no_head (c : ascii) (e : string) :
  rfind c e = None -> lstrip c e = e.
Proof.
  destruct e as [ | a e ]; [ reflexivity | ].
  intro H. apply rfind_none_head in H. destruct H as [ Hne _ ].
  simpl. apply Ascii.eqb_neq in Hne. now rewrite Hne.
Qed.

Lemma upper_length (s : string) : String.length (upper s) = String.length s.
Proof. induction s as [ | a s IH ]; simpl; [ reflexivity | now rewrite IH ]. Qed.

Lemma splits_true (pre e : string) :
  pre <> EmptyString -> e <> EmptyString ->
  splits (pre ++ String "." e) (String.length pre) = true.
Proof.
  intros Hpre He. unfold splits.
  rewrite length_append. simpl.
  destruct pre; [ contradiction | ]. destruct e; [ contradiction | ].
  apply andb_true_intro. split; apply Nat.ltb_lt; simpl; lia.
Qed.

Lemma splits_false (pre e : string) :
  pre = EmptyString \/ e = EmptyString ->
  splits (pre ++ String "." e) (String.length pre) = false.
Proof.
  unfold splits. rewrite length_append. simpl.
  intros [ -> | -> ].
  - reflexivity.
  - apply andb_false_intro2. apply Nat.ltb_ge. simpl. lia.
Qed.

(** [suffix] and [stem] of a name with an extension ... *)
Lemma suffix_stem_split (pre e : string) :
  pre <> EmptyString -> e <> EmptyString -> rfind "." e = None ->
  suffix (pre ++ String "." e) = String "." e
  /\ stem (pre ++ String "." e) = pre.
Proof.
  intros Hpre He Hdot. unfold suffix, stem.
  rewrite (rfind_append _ pre e Hdot), (splits_true pre e Hpre He).
  split.
  - rewrite length_append.
    replace (String.length pre + String.length (String "." e)
             - String.length pre) with (String.length (String "." e)) by lia.
    rewrite substring_drop. apply substring_whole.
  - apply substring_take.
Qed.

(** ... and of a name without one. *)
Lemma suffix_stem_whole (name : string) :
  (forall pre e, name = (pre ++ String "." e)%string -> rfind "." e = None ->
                 pre = EmptyString \/ e = EmptyString) ->
  suffix name = EmptyString /\ stem name = name.
Proof.
  intro Hno. unfold suffix, stem.
  destruct (rfind "." name) as [ i | ] eqn:E; [ | split; reflexivity ].
  destruct (rfind_split _ _ _ E) as (pre & e & -> & <- & He).
  rewrite (splits_false pre e (Hno pre e eq_refl He)). split; reflexivity.
Qed.

End NameFacts.



(** ** The file system: listings, paths and well-formed trees *)

Module FSFacts.

Import FS.

Lemma wf_dir_cons (n : string) (x : node) (r : entries) :
  wf (Dir ((n, x) :: r)) = fresh n r && wf x && wf (Dir r).
Proof. reflexivity. Qed.

Lemma wf_dir_inv (n : string) (x : node) (r : entries) :
  wf (Dir ((n, x) :: r)) = true ->
  fresh n r = true /\ wf x = true /\ wf (Dir r) = true.
Proof.
  rewrite wf_dir_cons. intro H.
  apply andb_prop in H. destruct H as [ H Hr ].
  apply andb_prop in H. destruct H as [ Hn Hx ]. auto.
Qed.

Lemma find_fresh (n : string) (es : entries) :
  fresh n es = true <-> find_entry n es = None.
Proof.
  induction es as [ | [ m x ] r IH ]; simpl; [ tauto | ].
  destruct (String.eqb m n); simpl; [ split; discriminate | exact IH ].
Qed.

Lemma find_wf (n : string) (es : entries) (x : node) :
  wf (Dir es) = true -> find_entry n es = Some x -> wf x = true.
Proof.
  induction es as [ | [ m y ] r IH ]; simpl find_entry; [ discriminate | ].
  intros Hwf H. apply wf_dir_inv in Hwf. destruct Hwf as (_ & Hy & Hr).
  destruct (String.eqb m n); [ injection H as <-; exact Hy | now apply IH ].
Qed.

Lemma find_remove_same (n : string) (es : entries) :
  wf (Dir es) = true -> find_entry n (remove_entry n es) = None.
Proof.
  induction es as [ | [ m x ] r IH ]; simpl; [ reflexivity | ].
  intro Hwf. apply wf_dir_inv in Hwf. destruct Hwf as (Hm & _ & Hr).
  destruct (String.eqb_spec m n) as [ -> | Hne ].
  - now apply find_fresh.
  - simpl. apply String.eqb_neq in Hne. rewrite Hne. now apply IH.
Qed.

Lemma find_remove_other (m n : string) (es : entries) :
  m <> n -> find_entry m (remove_entry n es) = find_entry m es.
Proof.
  intro Hne. induction es as [ | [ k x ] r IH ]; simpl; [ reflexivity | ].
  destruct (String.eqb_spec k n) as [ -> | Hkn ].
  - apply not_eq_sym in Hne. apply String.eqb_neq in Hne. now rewrite Hne.
  - simpl. now rewrite IH.
Qed.

Lemma find_update_same (n : string) (f : node -> node) (es : entries) :
  find_entry n (update_entry n f es) = option_map f (find_entry n es).
Proof.
  induction es as [ | [ k x ] r IH ]; simpl; [ reflexivity | ].
  destruct (String.eqb k n) eqn:E; simpl; rewrite E; [ reflexivity | exact IH ].
Qed.

Lemma find_update_other (m n : string) (f : node -> node) (es : entries) :
  m <> n -> find_entry m (update_entry n f es) = find_entry m es.
Proof.
  intro Hne. induction es as [ | [ k x ] r IH ]; simpl; [ reflexivity | ].
  destruct (String.eqb_spec k n) as [ -> | Hkn ]; simpl.
  - apply not_eq_sym in Hne. apply String.eqb_neq in Hne. now rewrite Hne.
  - now rewrite IH.
Qed.

Lemma find_app_last (m n : string) (y : node) (es : entries) :
  find_entry m (es ++ [(n, y)])
  = match find_entry m es with
    | Some x => Some x
    | None => if String.eqb n m then Some y else None
    end.
Proof.
  induction es as [ | [ k x ] r IH ]; simpl; [ reflexivity | ].
  destruct (String.eqb k m); [ reflexivity | exact IH ].
Qed.

Lemma fresh_remove (m n : string) (es : entries) :
  fresh m es = true -> fresh m (remove_entry n es) = true.
Proof.
  induction es as [ | [ k x ] r IH ]; simpl; [ reflexivity | ].
  intro H. apply andb_prop in H. destruct H as [ Hk Hr ].
  destruct (String.eqb k n); [ exact Hr | ].
  simpl. rewrite Hk. now apply IH.
Qed.

Lemma fresh_update (m n : string) (f : node -> node) (es : entries) :
  fresh m (update_entry n f es) = fresh m es.
Proof.
  induction es as [ | [ k x ] r IH ]; simpl; [ reflexivity | ].
  destruct (String.eqb k n); simpl; [ reflexivity | now rewrite IH ].
Qed.

Lemma fresh_app (m n : string) (y : node) (es : entries) :
  fresh m (es ++ [(n, y)]) = fresh m es && negb (String.eqb n m).
Proof.
  induction es as [ | [ k x ] r IH ]; simpl.
  - now rewrite andb_true_r.
  - rewrite IH. now rewrite andb_assoc.
Qed.

Lemma wf_remove (n : string) (es : entries) :
  wf (Dir es) = true -> wf (Dir (remove_entry n es)) = true.
Proof.
  induction es as [ | [ k x ] r IH ]; simpl remove_entry; [ reflexivity | ].
  intro Hwf. apply wf_dir_inv in Hwf. destruct Hwf as (Hk & Hx & Hr).
  destruct (String.eqb k n); [ exact Hr | ].
  rewrite wf_dir_cons, (fresh_remove _ _ _ Hk), Hx. now apply IH.
Qed.

Lemma wf_update (n : string) (f : node -> node) (es : entries) :
  wf (Dir es) = true ->
  (forall x, find_entry n es = Some x -> wf (f x) = true) ->
  wf (Dir (update_entry n f es)) = true.
Proof.
  induction es as [ | [ k x ] r IH ]; simpl update_entry; [ reflexivity | ].
  intros Hwf Hf. apply wf_dir_inv in Hwf. destruct Hwf as (Hk & Hx & Hr).
  simpl in Hf. destruct (String.eqb k n).
  - rewrite wf_dir_cons, Hk, Hr, (Hf x eq_refl). reflexivity.
  - rewrite wf_dir_cons, fresh_update, Hk, Hx. now apply IH.
Qed.

Lemma wf_app (n : string) (y : node) (es : entries) :
  wf (Dir es) = true -> find_entry n es = None -> wf y = true ->
  wf (Dir (es ++ [(n, y)])) = true.
Proof.
  induction es as [ | [ k x ] r IH ]; simpl app.
  - intros _ _ Hy. rewrite wf_dir_cons, Hy. reflexivity.
  - intros Hwf Hn Hy. apply wf_dir_inv in Hwf. destruct Hwf as (Hk & Hx & Hr).
    simpl in Hn. destruct (String.eqb k n) eqn:E; [ discriminate | ].
    rewrite wf_dir_cons, fresh_app, Hk, Hx, (String.eqb_sym n k), E. simpl.
    now apply IH.
Qed.

Lemma path_eqb_spec (p q : path) : reflect (p = q) (path_eqb p q).
Proof.
  revert q. induction p as [ | a p IH ]; intros [ | b q ]; simpl;
    try (constructor; congruence).
  destruct (String.eqb_spec a b) as [ -> | Hne ]; simpl.
  - destruct (IH q) as [ -> | Hne ]; constructor; congruence.
  - constructor; congruence.
Qed.

Lemma lookup_app (p q : path) (t : node) :
  lookup (p ++ q) t
  = match lookup p t with
    | Some x => lookup q x
    | None => None
    end.
Proof.
  revert t. induction p as [ | n p IH ]; intro t; simpl; [ reflexivity | ].
  destruct t as [ d | es ]; [ reflexivity | ].
  destruct (find_entry n es); [ apply IH | reflexivity ].
Qed.

Lemma lookup_file_below (q : path) (d : string) :
  q <> [] -> lookup q (File d) = None.
Proof. destruct q; [ congruence | reflexivity ]. Qed.

Lemma stat_file (p : path) (t : node) (c : string) :
  stat p t = Some (Some c) <-> lookup p t = Some (File c).
Proof.
  unfold stat. destruct (lookup p t) as [ [ d | es ] | ]; simpl;
    split; intro H; try discriminate; congruence.
Qed.

Lemma stat_dir (p : path) (t : node) :
  stat p t = Some None <-> is_dir p t = true.
Proof.
  unfold stat, is_dir. destruct (lookup p t) as [ [ d | es ] | ]; simpl;
    split; intro H; try discriminate; reflexivity.
Qed.

Lemma stat_none (p : path) (t : node) :
  stat p t = None <-> lookup p t = None.
Proof.
  unfold stat. destruct (lookup p t); simpl; split; intro H;
    try discriminate; reflexivity.
Qed.

Lemma exists_stat (p : path) (t : node) :
  exists_ p t = false <-> stat p t = None.
Proof.
  unfold exists_, stat. destruct (lookup p t); simpl; split; intro H;
    try discriminate; reflexivity.
Qed.

Lemma stat_cons (n : string) (q : path) (es : entries) :
  stat (n :: q) (Dir es)
  = match find_entry n es with
    | Some x => stat q x
    | None => None
    end.
Proof. unfold stat. simpl. destruct (find_entry n es); reflexivity. Qed.

(** Removing a file changes what [stat] sees at that path only. *)
Lemma stat_unlink (s : path) :
  forall (t : node) (q : path) (c : string),
    s <> [] -> wf t = true -> lookup s t = Some (File c) ->
    stat q (unlink s t) = if path_eqb q s then None else stat q t.
Proof.
  induction s as [ | n s IH ]; intros t q c Hs Hwf Hl; [ congruence | ].
  destruct t as [ d | es ]; [ discriminate Hl | ].
  simpl in Hl. destruct (find_entry n es) as [ x | ] eqn:Ef; [ | discriminate ].
  destruct s as [ | n' s' ].
  - simpl in Hl. injection Hl as ->. simpl unlink.
    destruct q as [ | m q ]; [ reflexivity | ].
    rewrite !stat_cons. simpl path_eqb.
    destruct (String.eqb_spec m n) as [ -> | Hne ].
    + rewrite (find_remove_same _ _ Hwf), Ef. simpl.
      destruct q; reflexivity.
    + now rewrite (find_remove_other _ _ _ Hne).
  - assert (Hx : wf x = true) by (eapply find_wf; eassumption).
    change (unlink (n :: n' :: s') (Dir es))
      with (Dir (update_entry n (unlink (n' :: s')) es)).
    destruct q as [ | m q ]; [ reflexivity | ].
    rewrite !stat_cons.
    change (path_eqb (m :: q) (n :: n' :: s'))
      with (String.eqb m n && path_eqb q (n' :: s')).
    destruct (String.eqb_spec m n) as [ -> | Hne ].
    + rewrite find_update_same, Ef. simpl option_map. cbv iota.
      apply (IH x q c); [ discriminate | exact Hx | exact Hl ].
    + now rewrite (find_update_other _ _ _ _ Hne).
Qed.

(** A new leaf changes what [stat] sees at its own path only. *)
Lemma stat_create (d : path) :
  forall (t y : node) (q : path),
    lookup d t = None -> is_dir (parent d) t = true ->
    (forall r, r <> [] -> lookup r y = None) ->
    stat q (create d y t) = if path_eqb q d then Some (kind y) else stat q t.
Proof.
  induction d as [ | n d IH ]; intros t y q Hd Hp Hy; [ discriminate Hd | ].
  destruct d as [ | n' d' ].
  - unfold is_dir in Hp. simpl in Hp.
    destruct t as [ c | es ]; [ discriminate Hp | ].
    simpl in Hd.
    destruct (find_entry n es) as [ x | ] eqn:Ef; [ discriminate | ].
    simpl create.
    destruct q as [ | m q ]; [ reflexivity | ].
    rewrite !stat_cons, find_app_last. simpl path_eqb.
    destruct (find_entry m es) as [ x | ] eqn:Em.
    + destruct (String.eqb_spec m n) as [ -> | Hne ]; [ congruence | ].
      reflexivity.
    + rewrite (String.eqb_sym n m).
      destruct (String.eqb_spec m n) as [ -> | Hne ]; [ | reflexivity ].
      destruct q as [ | k q ]; [ reflexivity | ].
      unfold stat. rewrite (Hy (k :: q)) by discriminate. reflexivity.
  - change (parent (n :: n' :: d')) with (n :: parent (n' :: d')) in Hp.
    unfold is_dir in Hp. simpl lookup in Hp.
    destruct t as [ c | es ]; [ discriminate Hp | ].
    simpl in Hd.
    destruct (find_entry n es) as [ x | ] eqn:Ef; [ | discriminate Hp ].
    change (create (n :: n' :: d') y (Dir es))
      with (Dir (update_entry n (create (n' :: d') y) es)).
    destruct q as [ | m q ]; [ reflexivity | ].
    rewrite !stat_cons.
    change (path_eqb (m :: q) (n :: n' :: d'))
      with (String.eqb m n && path_eqb q (n' :: d')).
    destruct (String.eqb_spec m n) as [ -> | Hne ].
    + rewrite find_update_same, Ef. simpl option_map. cbv iota.
      apply IH; assumption.
    + now rewrite (find_update_other _ _ _ _ Hne).
Qed.

Lemma wf_unlink (s : path) :
  forall t, wf t = true -> wf (unlink s t) = true.
Proof.
  induction s as [ | n s IH ]; intros t Hwf; [ exact Hwf | ].
  destruct t as [ d | es ]; [ exact Hwf | ].
  destruct s as [ | n' s' ].
  - simpl. now apply wf_remove.
  - change (unlink (n :: n' :: s') (Dir es))
      with (Dir (update_entry n (unlink (n' :: s')) es)).
    apply wf_update; [ exact Hwf | ].
    intros x Hx. apply IH. eapply find_wf; eassumption.
Qed.

Lemma wf_create (d : path) :
  forall t y,
    wf t = true -> lookup d t = None -> wf y = true ->
    wf (create d y t) = true.
Proof.
  induction d as [ | n d IH ]; intros t y Hwf Hd Hy; [ exact Hwf | ].
  destruct t as [ c | es ]; [ exact Hwf | ].
  simpl in Hd.
  destruct d as [ | n' d' ].
  - simpl. apply wf_app; [ exact Hwf | | exact Hy ].
    destruct (find_entry n es); [ discriminate | reflexivity ].
  - change (create (n :: n' :: d') y (Dir es))
      with (Dir (update_entry n (create (n' :: d') y) es)).
    apply wf_update; [ exact Hwf | ].
    intros x Hx. rewrite Hx in Hd.
    apply IH; [ eapply find_wf; eassumption | exact Hd | exact Hy ].
Qed.

Lemma contents_cons (n : string) (x : node) (r : entries) :
  contents (Dir ((n, x) :: r)) = contents x ++ contents (Dir r).
Proof. reflexivity. Qed.

(** The data below one entry sits between the data of the entries around
    it. *)
Lemma contents_split (n : string) (es : entries) (x : node) :
  find_entry n es = Some x ->
  exists A B,
    contents (Dir es) = A ++ contents x ++ B
    /\ (forall f, contents (Dir (update_entry n f es)) = A ++ contents (f x) ++ B)
    /\ contents (Dir (remove_entry n es)) = A ++ B.
Proof.
  induction es as [ | [ k y ] r IH ]; simpl find_entry; [ discriminate | ].
  intro H. simpl update_entry. simpl remove_entry.
  destruct (String.eqb k n).
  - injection H as ->. exists [], (contents (Dir r)).
    repeat split; reflexivity.
  - destruct (IH H) as (A & B & H1 & H2 & H3).
    exists (contents y ++ A), B. repeat split; [ | intro f | ];
      rewrite contents_cons, <- app_assoc; f_equal; auto.
Qed.

Lemma contents_app (n : string) (y : node) (es : entries) :
  contents (Dir (es ++ [(n, y)])) = contents (Dir es) ++ contents y.
Proof.
  induction es as [ | [ k x ] r IH ].
  - simpl. now rewrite app_nil_r.
  - simpl app. rewrite !contents_cons, IH. now rewrite app_assoc.
Qed.

Lemma contents_unlink (s : path) :
  forall (t : node) (c : string),
    s <> [] -> lookup s t = Some (File c) ->
    Permutation (c :: contents (unlink s t)) (contents t).
Proof.
  induction s as [ | n s IH ]; intros t c Hs Hl; [ congruence | ].
  destruct t as [ d | es ]; [ discriminate Hl | ].
  simpl in Hl. destruct (find_entry n es) as [ x | ] eqn:Ef; [ | discriminate ].
  destruct (contents_split _ _ _ Ef) as (A & B & H1 & H2 & H3).
  destruct s as [ | n' s' ].
  - simpl in Hl. injection Hl as ->. simpl unlink.
    rewrite H1, H3. simpl. apply Permutation_middle.
  - change (unlink (n :: n' :: s') (Dir es))
      with (Dir (update_entry n (unlink (n' :: s')) es)).
    rewrite H1, H2.
    assert (Hx := IH x c ltac:(discriminate) Hl).
    etransitivity; [ apply Permutation_middle | ].
    apply Permutation_app_head.
    change (c :: contents (unlink (n' :: s') x) ++ B)
      with ((c :: contents (unlink (n' :: s') x)) ++ B).
    now apply Permutation_app_tail.
Qed.

Lemma contents_create (d : path) :
  forall (t y : node),
    d <> [] -> is_dir (parent d) t = true ->
    Permutation (contents (create d y t)) (contents y ++ contents t).
Proof.
  induction d as [ | n d IH ]; intros t y Hd Hp; [ congruence | ].
  destruct d as [ | n' d' ].
  - unfold is_dir in Hp. simpl in Hp.
    destruct t as [ c | es ]; [ discriminate Hp | ].
    simpl create. rewrite contents_app. apply Permutation_app_comm.
  - change (parent (n :: n' :: d')) with (n :: parent (n' :: d')) in Hp.
    unfold is_dir in Hp. simpl lookup in Hp.
    destruct t as [ c | es ]; [ discriminate Hp | ].
    destruct (find_entry n es) as [ x | ] eqn:Ef; [ | discriminate Hp ].
    destruct (contents_split _ _ _ Ef) as (A & B & H1 & H2 & _).
    change (create (n :: n' :: d') y (Dir es))
      with (Dir (update_entry n (create (n' :: d') y) es)).
    rewrite H1, H2.
    assert (Hx := IH x y ltac:(discriminate) Hp).
    etransitivity;
      [ apply Permutation_app_head, Permutation_app_tail, Hx | ].
    rewrite <- app_assoc.
    etransitivity; [ apply Permutation_app_swap_app | ].
    reflexivity.
Qed.

End FSFacts.

(** ** The conflict loop *)

Module ConflictFacts.

Import FS FSFacts.

Lemma decimal_inj (a b : nat) : Name.decimal a = Name.decimal b -> a = b.
Proof.
  unfold Name.decimal. intro H.
  apply DecimalNat.Unsigned.to_uint_inj.
  apply (f_equal NilEmpty.uint_of_string) in H.
  rewrite !NilEmpty.usu in H. congruence.
Qed.

Lemma renamed_inj (original_stem sfx : string) (a b : nat) :
  Name.renamed original_stem a sfx = Name.renamed original_stem b sfx -> a = b.
Proof.
  unfold Name.renamed. intro H.
  apply NameFacts.append_inv_head in H. simpl in H. injection H as H.
  apply NameFacts.append_inv_tail in H. now apply decimal_inj.
Qed.

Lemma name_last (p : path) (n : string) : name (p ++ [n]) = n.
Proof. unfold name. apply last_last. Qed.

Lemma parent_last (p : path) (n : string) : parent (p ++ [n]) = p.
Proof. unfold parent. apply removelast_last. Qed.

Lemma find_in (n : string) (es : entries) (x : node) :
  find_entry n es = Some x -> In n (map fst es).
Proof.
  induction es as [ | [ k y ] r IH ]; simpl; [ discriminate | ].
  destruct (String.eqb_spec k n) as [ -> | _ ]; [ auto | ].
  intro H. right. now apply IH.
Qed.

Lemma exists_child (dest : path) (n : string) (t : node) :
  exists_ (dest ++ [n]) t = true ->
  exists es, lookup dest t = Some (Dir es) /\ In n (map fst es).
Proof.
  unfold exists_. rewrite lookup_app.
  destruct (lookup dest t) as [ [ d | es ] | ]; simpl; try discriminate.
  destruct (find_entry n es) as [ x | ] eqn:Ef; [ | discriminate ].
  intros _. exists es. split; [ reflexivity | ]. eapply find_in; eassumption.
Qed.

Lemma forallb_false {A : Type} (f : A -> bool) (l : list A) :
  forallb f l = false -> exists x, In x l /\ f x = false.
Proof.
  induction l as [ | a l IH ]; simpl; [ discriminate | ].
  destruct (f a) eqn:Ea; simpl.
  - intro H. destruct (IH H) as (x & Hx & Hf). exists x. auto.
  - intros _. exists a. auto.
Qed.

(** A listing of [n] entries cannot hold [n + 1] renamings of one name. *)
Lemma some_candidate_free (t : node) (dest : path) (original_stem sfx : string)
    (c : nat) :
  exists k,
    c <= k < c + S (count_entries dest t)
    /\ exists_ (dest ++ [Name.renamed original_stem k sfx]) t = false.
Proof.
  set (n := count_entries dest t).
  set (cand := fun k => dest ++ [Name.renamed original_stem k sfx]).
  destruct (forallb (fun k => exists_ (cand k) t) (seq c (S n))) eqn:E.
  - exfalso.
    rewrite forallb_forall in E.
    assert (Hfirst : exists_ (cand c) t = true)
      by (apply E, in_seq; lia).
    destruct (exists_child _ _ _ Hfirst) as (es & Hes & _).
    assert (Hn : n = List.length es)
      by (unfold n, count_entries; now rewrite Hes).
    assert (Hincl : incl (map (fun k => Name.renamed original_stem k sfx)
                            (seq c (S n))) (map fst es)).
    { intros x Hx. apply in_map_iff in Hx. destruct Hx as (k & <- & Hk).
      destruct (exists_child _ _ _ (E k Hk)) as (es' & Hes' & Hin).
      congruence. }
    assert (Hnd : NoDup (map (fun k => Name.renamed original_stem k sfx)
                           (seq c (S n)))).
    { apply Finite.Injective_map_NoDup; [ | apply seq_NoDup ].
      intros a b. apply renamed_inj. }
    apply (NoDup_incl_length Hnd) in Hincl.
    rewrite !length_map, length_seq in Hincl. lia.
  - apply forallb_false in E. destruct E as (k & Hk & Hf).
    exists k. apply in_seq in Hk. split; [ lia | exact Hf ].
Qed.

Section Loop.

Variables (t : node) (dest : path) (original_stem sfx : string).

Let cand (k : nat) : path := dest ++ [Name.renamed original_stem k sfx].

Lemma free_name_found (fuel : nat) :
  forall (dest_file : path) (counter : nat),
    exists_ dest_file t = false
    \/ (exists k, counter <= k < counter + fuel /\ exists_ (cand k) t = false) ->
    exists d, free_name fuel t dest original_stem sfx dest_file counter = Some d.
Proof.
  induction fuel as [ | fuel IH ]; intros dest_file counter H.
  - simpl. destruct (exists_ dest_file t) eqn:E; [ | eauto ].
    destruct H as [ H | (k & Hk & _) ]; [ discriminate | lia ].
  - simpl. destruct (exists_ dest_file t) eqn:E; [ | eauto ].
    apply IH.
    destruct H as [ H | (k & Hk & Hf) ]; [ discriminate | ].
    destruct (Nat.eq_dec k counter) as [ -> | Hne ].
    + left. exact Hf.
    + right. exists k. split; [ lia | exact Hf ].
Qed.

Lemma free_name_sound (fuel : nat) :
  forall (dest_file : path) (counter : nat) (d : path),
    free_name fuel t dest original_stem sfx dest_file counter = Some d ->
    exists_ d t = false
    /\ (d = dest_file
        \/ (exists_ dest_file t = true
            /\ exists N,
                 counter <= N /\ d = cand N
                 /\ forall k, counter <= k < N -> exists_ (cand k) t = true)).
Proof.
  induction fuel as [ | fuel IH ]; intros dest_file counter d H.
  - simpl in H. destruct (exists_ dest_file t) eqn:E; [ discriminate | ].
    injection H as <-. auto.
  - simpl in H. destruct (exists_ dest_file t) eqn:E.
    + destruct (IH _ _ _ H) as [ Hfree Hd ]. split; [ exact Hfree | ].
      right. split; [ reflexivity | ].
      destruct Hd as [ -> | (Hc & N & HN & -> & Hall) ].
      * exists counter. split; [ lia | ]. split; [ reflexivity | ].
        intros k Hk. lia.
      * exists N. split; [ lia | ]. split; [ reflexivity | ].
        intros k Hk. destruct (Nat.eq_dec k counter) as [ -> | Hne ].
        -- exact Hc.
        -- apply Hall. lia.
    + injection H as <-. auto.
Qed.

End Loop.

(** The loop of lines 95 to 97 ends, on a path that nothing occupies: the
    original name when it is free, and otherwise the first free renaming. *)
Lemma resolve_conflict_spec (t : node) (dest_folder file_path : path) :
  let cand := fun k =>
    dest_folder
      ++ [Name.renamed (Name.stem (name file_path)) k
            (Name.suffix (name file_path))] in
  exists d,
    resolve_conflict t dest_folder file_path = Some d
    /\ lookup d t = None
    /\ ((d = dest_folder ++ [name file_path])
        \/ (lookup (dest_folder ++ [name file_path]) t <> None
            /\ exists N,
                 1 <= N /\ d = cand N
                 /\ forall k, 1 <= k < N -> lookup (cand k) t <> None)).
Proof.
  intro cand. unfold resolve_conflict. rewrite name_last.
  destruct (free_name_found t dest_folder (Name.stem (name file_path))
              (Name.suffix (name file_path))
              (S (count_entries dest_folder t))
              (dest_folder ++ [name file_path]) 1) as (d & Hd).
  { right. apply some_candidate_free. }
  exists d. split; [ exact Hd | ].
  apply free_name_sound in Hd. destruct Hd as [ Hfree Hd ].
  split; [ now apply stat_none, exists_stat | ].
  destruct Hd as [ -> | (Hc & N & HN & -> & Hall) ]; [ now left | right ].
  split.
  - unfold exists_ in Hc.
    destruct (lookup (dest_folder ++ [name file_path]) t);
      [ discriminate | discriminate Hc ].
  - exists N. split; [ exact HN | ]. split; [ reflexivity | ].
    intros k Hk. specialize (Hall k Hk). unfold exists_ in Hall.
    unfold cand. intro Hnone. rewrite Hnone in Hall. discriminate Hall.
Qed.

End ConflictFacts.

(** ** The host operations on a well-formed tree *)

Section OpsFacts.

Import FS FSFacts.

Variable denied : path -> bool.

(** A successful [mkdir] leaves a directory at [p] and nothing else
    changed. *)
Lemma mkdir_spec (p : path) (t t' : node) :
  wf t = true -> mkdir denied p t = Some t' ->
  wf t' = true
  /\ (forall q, stat q t' = if path_eqb q p then Some None else stat q t)
  /\ Permutation (contents t') (contents t).
Proof.
  intros Hwf H. unfold mkdir in H.
  destruct (lookup p t) as [ [ d | es ] | ] eqn:Ep; [ discriminate | | ].
  - injection H as <-. split; [ exact Hwf | ]. split; [ | reflexivity ].
    intro q. destruct (path_eqb_spec q p) as [ -> | _ ]; [ | reflexivity ].
    unfold stat. now rewrite Ep.
  - destruct (denied p); [ discriminate | ].
    destruct (is_dir (parent p) t) eqn:Epar; [ | discriminate ].
    injection H as <-.
    assert (Hp : p <> []) by (intros ->; discriminate Ep).
    split; [ apply wf_create; auto | ]. split.
    + intro q. rewrite (stat_create p t (Dir []) q Ep Epar); [ reflexivity | ].
      intros [ | k r ] Hr; [ congruence | reflexivity ].
    + apply (contents_create p t (Dir []) Hp Epar).
Qed.

(** A new file at a free path changes nothing else. *)
Lemma create_file_spec (dst : path) (t : node) (c : string) :
  wf t = true -> lookup dst t = None -> is_dir (parent dst) t = true ->
  wf (create dst (File c) t) = true
  /\ (forall q,
        stat q (create dst (File c) t)
        = if path_eqb q dst then Some (Some c) else stat q t)
  /\ Permutation (contents (create dst (File c) t)) (c :: contents t).
Proof.
  intros Hwf Hdst Hpar.
  assert (Hd : dst <> []) by (intros ->; discriminate Hdst).
  split; [ apply wf_create; auto | ]. split.
  - intro q. rewrite (stat_create dst t (File c) q Hdst Hpar); [ reflexivity | ].
    intros r Hr. now apply lookup_file_below.
  - apply (contents_create dst t (File c) Hd Hpar).
Qed.

(** What [shutil.move] of a file to a free path in a directory does: the
    host refuses the new entry and nothing changes; or it refuses to let the
    source go, and the copy stays beside it; or the file moves. *)
Lemma move_cases (src dst : path) (t : node) (c : string) :
  wf t = true -> lookup src t = Some (File c) -> lookup dst t = None ->
  is_dir (parent dst) t = true ->
  shutil_move denied src dst t
  = if denied dst then Raised t
    else if denied src then Raised (create dst (File c) t)
    else Done (create dst (File c) (unlink src t)).
Proof.
  intros Hwf Hsrc Hdst Hpar.
  assert (Hne : path_eqb src dst = false).
  { destruct (path_eqb_spec src dst) as [ E | _ ]; [ congruence | reflexivity ]. }
  destruct (create_file_spec dst t c Hwf Hdst Hpar) as (_ & HS & _).
  assert (Hsrc' : lookup src (create dst (File c) t) = Some (File c)).
  { apply stat_file. rewrite HS, Hne. now apply stat_file. }
  unfold shutil_move. rewrite Hdst. unfold rename, copy2, os_unlink.
  rewrite Hsrc, Hdst, Hpar, Hne.
  destruct (denied dst); [ now rewrite orb_true_r | ].
  rewrite orb_false_r, Hsrc'. destruct (denied src); reflexivity.
Qed.

(** A move that cannot go ahead changes nothing. *)
Lemma move_stuck (src dst : path) (t : node) :
  lookup dst t = None ->
  (forall c, lookup src t <> Some (File c))
  \/ is_dir (parent dst) t = false ->
  shutil_move denied src dst t = Raised t.
Proof.
  intros Hdst H. unfold shutil_move. rewrite Hdst.
  unfold rename, copy2.
  destruct (lookup src t) as [ [ c | es ] | ] eqn:Es; try reflexivity.
  destruct H as [ H | H ]; [ now destruct (H c) | ].
  rewrite Hdst, H.
  destruct (denied src || denied dst), (path_eqb src dst), (denied dst);
    reflexivity.
Qed.

(** A successful move to a free path takes the file from [src] to [dst]
    and changes nothing else. *)
Lemma move_spec (src dst : path) (t t' : node) :
  wf t = true -> lookup dst t = None ->
  shutil_move denied src dst t = Done t' ->
  exists c,
    lookup src t = Some (File c)
    /\ wf t' = true
    /\ (forall q,
          stat q t'
          = if path_eqb q dst then Some (Some c)
            else if path_eqb q src then None else stat q t)
    /\ Permutation (contents t') (contents t).
Proof.
  intros Hwf Hdst H.
  destruct (lookup src t) as [ [ c | es ] | ] eqn:Es;
    try (rewrite move_stuck in H;
         [ discriminate | exact Hdst | left; intros c'; congruence ]).
  destruct (is_dir (parent dst) t) eqn:Epar;
    [ | rewrite move_stuck in H; [ discriminate | exact Hdst | now right ] ].
  rewrite (move_cases src dst t c Hwf Es Hdst Epar) in H.
  destruct (denied dst); [ discriminate | ].
  destruct (denied src); [ discriminate | ]. injection H as <-.
  exists c. split; [ reflexivity | ].
  assert (Hsrc : src <> []).
  { intros ->. simpl in Es. injection Es as ->.
    unfold is_dir in Epar. destruct (parent dst); discriminate Epar. }
  assert (Hd : dst <> []) by (intros ->; discriminate Hdst).
  assert (S1 := fun q => stat_unlink src t q c Hsrc Hwf Es).
  assert (Hwf1 : wf (unlink src t) = true) by now apply wf_unlink.
  assert (Hdst1 : lookup dst (unlink src t) = None).
  { apply stat_none. rewrite S1.
    destruct (path_eqb dst src); [ reflexivity | now apply stat_none ]. }
  assert (Hpar1 : is_dir (parent dst) (unlink src t) = true).
  { apply stat_dir. rewrite S1. apply stat_dir in Epar.
    destruct (path_eqb_spec (parent dst) src) as [ E | _ ]; [ | exact Epar ].
    rewrite E in Epar. apply stat_file in Es. congruence. }
  split; [ apply wf_create; auto | ]. split.
  - intro q.
    rewrite (stat_create dst (unlink src t) (File c) q Hdst1 Hpar1).
    + destruct (path_eqb q dst); [ reflexivity | apply S1 ].
    + intros r Hr. now apply lookup_file_below.
  - etransitivity;
      [ apply (contents_create dst (unlink src t) (File c) Hd Hpar1) | ].
    apply (contents_unlink src t c Hsrc Es).
Qed.

(** A move that raises leaves the tree as it was, or with a copy of the file
    at [dst], the source still there, when the host does not let it go. *)
Lemma raise_spec (src dst : path) (t t' : node) :
  wf t = true -> lookup dst t = None ->
  shutil_move denied src dst t = Raised t' ->
  t' = t
  \/ exists c,
       lookup src t = Some (File c)
       /\ denied src = true /\ denied dst = false
       /\ wf t' = true
       /\ (forall q,
             stat q t' = if path_eqb q dst then Some (Some c) else stat q t)
       /\ Permutation (contents t') (c :: contents t).
Proof.
  intros Hwf Hdst H.
  destruct (lookup src t) as [ [ c | es ] | ] eqn:Es;
    try (rewrite move_stuck in H;
         [ injection H as <-; now left | exact Hdst
         | left; intros c'; congruence ]).
  destruct (is_dir (parent dst) t) eqn:Epar;
    [ | rewrite move_stuck in H;
        [ injection H as <-; now left | exact Hdst | now right ] ].
  rewrite (move_cases src dst t c Hwf Es Hdst Epar) in H.
  destruct (denied dst) eqn:Ed; [ injection H as <-; now left | ].
  destruct (denied src) eqn:Esrc; [ | discriminate ]. injection H as <-.
  right. exists c.
  destruct (create_file_spec dst t c Hwf Hdst Epar) as (W & HS & HP).
  repeat split; auto.
Qed.

(** A move of a file to a free path in a directory raises only where the
    host refuses the source or the destination. *)
Lemma raise_refused (src dst : path) (t t' : node) (c : string) :
  wf t = true -> lookup src t = Some (File c) -> lookup dst t = None ->
  is_dir (parent dst) t = true ->
  shutil_move denied src dst t = Raised t' ->
  denied src = true \/ denied dst = true.
Proof.
  intros Hwf Hsrc Hdst Hpar H.
  rewrite (move_cases src dst t c Hwf Hsrc Hdst Hpar) in H.
  destruct (denied dst); [ now right | ].
  destruct (denied src); [ now left | discriminate ].
Qed.

End OpsFacts.

(** ** The Scanner *)

Module ScanFacts.

Import FS FSFacts.

Lemma scan_dir (root : path) (es : entries) :
  get_all_files root (Dir es)
  = map (fun filename => root ++ [filename]) (file_names es)
    ++ flat_map (fun e => get_all_files (root ++ [fst e]) (snd e)) es.
Proof.
  simpl. f_equal.
  induction es as [ | [ n x ] r IH ]; simpl; [ reflexivity | now rewrite IH ].
Qed.

Lemma scan_cons_file (root : path) (n d : string) (r : entries) :
  get_all_files root (Dir ((n, File d) :: r))
  = (root ++ [n]) :: get_all_files root (Dir r).
Proof. reflexivity. Qed.

Lemma scan_cons_dir (root : path) (n : string) (es' r : entries) :
  Permutation (get_all_files root (Dir ((n, Dir es') :: r)))
    (get_all_files (root ++ [n]) (Dir es') ++ get_all_files root (Dir r)).
Proof.
  rewrite (scan_dir root ((n, Dir es') :: r)), (scan_dir root r).
  simpl file_names. simpl flat_map.
  apply Permutation_app_swap_app.
Qed.

(** Below a listing with unique names, a file is below its first entry or
    below the rest. *)
Lemma lookup_file_cons (n : string) (x : node) (r : entries) (rel : path)
    (c : string) :
  fresh n r = true -> rel <> [] ->
  (lookup rel (Dir ((n, x) :: r)) = Some (File c)
   <-> (exists q, rel = n :: q /\ lookup q x = Some (File c))
       \/ lookup rel (Dir r) = Some (File c)).
Proof.
  intros Hn Hrel. destruct rel as [ | m q ]; [ congruence | ].
  simpl. destruct (String.eqb_spec n m) as [ -> | Hne ].
  - apply find_fresh in Hn. rewrite Hn. split.
    + intro H. left. eauto.
    + intros [ (q' & E & H) | H ]; [ | discriminate ].
      injection E as <-. exact H.
  - split; [ auto | ].
    intros [ (q' & E & _) | H ]; [ congruence | exact H ].
Qed.

(** The scan finds exactly the files of the tree. *)
Lemma scan_iff (t : node) :
  forall (root p : path),
    wf t = true ->
    (In p (get_all_files root t)
     <-> exists rel c,
           rel <> [] /\ p = root ++ rel /\ lookup rel t = Some (File c)).
Proof.
  induction t as [ d | es IH ] using node_induction; intros root p.
  - intros _. split; [ intros [] | ].
    intros (rel & c & Hrel & _ & Hl).
    rewrite (lookup_file_below _ _ Hrel) in Hl. discriminate.
  - induction es as [ | [ n x ] r IHr ]; intro Hwf.
    + split; [ intros [] | ].
      intros (rel & c & Hrel & _ & Hl).
      destruct rel; [ congruence | discriminate ].
    + apply Forall_cons_iff in IH. destruct IH as [ IHx IHrest ].
      simpl in IHx.
      apply wf_dir_inv in Hwf. destruct Hwf as (Hn & Hwx & Hwr).
      specialize (IHr IHrest Hwr).
      assert (K := fun rel c => lookup_file_cons n x r rel c Hn).
      destruct x as [ d | es' ].
      * rewrite scan_cons_file. simpl In. split.
        -- intros [ <- | Hin ].
           ++ exists [n], d. split; [ discriminate | ]. split; [ reflexivity | ].
              simpl. now rewrite String.eqb_refl.
           ++ apply IHr in Hin. destruct Hin as (rel & c & Hrel & -> & Hl).
              exists rel, c. split; [ exact Hrel | ]. split; [ reflexivity | ].
              apply K; auto.
        -- intros (rel & c & Hrel & -> & Hl).
           apply K in Hl; [ | exact Hrel ].
           destruct Hl as [ (q & -> & Hq) | Hl ].
           ++ left. destruct q; [ reflexivity | discriminate Hq ].
           ++ right. apply IHr. eauto.
      * split.
        -- intro Hin.
           apply (Permutation_in _ (scan_cons_dir root n es' r)) in Hin.
           apply in_app_or in Hin. destruct Hin as [ Hin | Hin ].
           ++ apply (IHx (root ++ [n]) p Hwx) in Hin.
              destruct Hin as (rel & c & Hrel & -> & Hl).
              exists (n :: rel), c. split; [ discriminate | ].
              split; [ now rewrite <- app_assoc | ].
              apply K; [ discriminate | ]. left. eauto.
           ++ apply IHr in Hin. destruct Hin as (rel & c & Hrel & -> & Hl).
              exists rel, c. split; [ exact Hrel | ]. split; [ reflexivity | ].
              apply K; auto.
        -- intros (rel & c & Hrel & -> & Hl).
           apply K in Hl; [ | exact Hrel ].
           apply (Permutation_in _ (Permutation_sym (scan_cons_dir root n es' r))).
           apply in_or_app.
           destruct Hl as [ (q & -> & Hq) | Hl ].
           ++ left. apply (IHx (root ++ [n]) _ Hwx).
              exists q, c. split; [ | split ].
              ** intros ->. discriminate Hq.
              ** now rewrite <- app_assoc.
              ** exact Hq.
           ++ right. apply IHr. eauto.
Qed.

(** The scan lists no file twice. *)
Lemma scan_NoDup (t : node) :
  forall (root : path), wf t = true -> NoDup (get_all_files root t).
Proof.
  induction t as [ d | es IH ] using node_induction; intro root.
  - intros _. constructor.
  - induction es as [ | [ n x ] r IHr ]; intro Hwf.
    + constructor.
    + apply Forall_cons_iff in IH. destruct IH as [ IHx IHrest ].
      simpl in IHx.
      apply wf_dir_inv in Hwf. destruct Hwf as (Hn & Hwx & Hwr).
      specialize (IHr IHrest Hwr).
      assert (Hout : forall rel, ~ In (root ++ n :: rel) (get_all_files root (Dir r))).
      { intros rel Hin. apply (scan_iff (Dir r) root _ Hwr) in Hin.
        destruct Hin as (rel' & c & _ & E & Hl).
        apply app_inv_head in E. subst rel'.
        simpl in Hl. apply find_fresh in Hn. rewrite Hn in Hl. discriminate. }
      destruct x as [ d | es' ].
      * rewrite scan_cons_file. constructor; [ apply Hout | exact IHr ].
      * apply (Permutation_NoDup (Permutation_sym (scan_cons_dir root n es' r))).
        apply NoDup_app; [ apply IHx; exact Hwx | exact IHr | ].
        intros p Hp. apply (scan_iff (Dir es') (root ++ [n]) _ Hwx) in Hp.
        destruct Hp as (rel & c & _ & -> & _).
        rewrite <- app_assoc. apply Hout.
Qed.

(** At the top of the tree: the scanned paths are the paths of the files. *)
Lemma scan_top (t : node) (p : path) :
  wf t = true ->
  (In p (get_all_files [] t)
   <-> p <> [] /\ exists c, lookup p t = Some (File c)).
Proof.
  intro Hwf. rewrite (scan_iff t [] p Hwf). simpl. split.
  - intros (rel & c & Hrel & -> & Hl). eauto.
  - intros (Hp & c & Hl). eauto.
Qed.

End ScanFacts.

(** ** The Classifier's groups *)

Module GroupFacts.

Lemma group_add_files (k : string) (p : path) (g : list (string * list path)) :
  Permutation (concat (map snd (group_add k p g))) (concat (map snd g) ++ [p]).
Proof.
  induction g as [ | [ k' files ] r IH ]; simpl; [ reflexivity | ].
  destruct (String.eqb k' k); simpl.
  - rewrite <- !app_assoc. apply Permutation_app_head, Permutation_app_comm.
  - rewrite <- app_assoc. now apply Permutation_app_head.
Qed.

Lemma group_add_in (k : string) (p : path) (g : list (string * list path))
    (k' : string) (files' : list path) :
  In (k', files') (group_add k p g) ->
  In (k', files') g
  \/ (k' = k /\ exists files0,
        files' = files0 ++ [p] /\ (files0 = [] \/ In (k, files0) g)).
Proof.
  induction g as [ | [ k0 files0 ] r IH ]; simpl.
  - intros [ E | [] ]. injection E as <- <-. right. split; [ reflexivity | ].
    exists []. auto.
  - destruct (String.eqb_spec k0 k) as [ -> | Hne ]; simpl.
    + intros [ E | H ]; [ | auto ].
      injection E as <- <-. right. split; [ reflexivity | ].
      exists files0. auto.
    + intros [ E | H ]; [ auto | ].
      destruct (IH H) as [ H' | (-> & f0 & -> & [ -> | H' ]) ]; [ auto | | ].
      * right. split; [ reflexivity | ]. exists []. auto.
      * right. split; [ reflexivity | ]. exists f0. auto.
Qed.

Lemma group_add_keys (k : string) (p : path) (g : list (string * list path)) :
  In k (map fst (group_add k p g))
  /\ forall k', In k' (map fst g) -> In k' (map fst (group_add k p g)).
Proof.
  induction g as [ | [ k0 files0 ] r [ IH1 IH2 ] ]; simpl.
  - split; [ auto | intros k' [] ].
  - destruct (String.eqb_spec k0 k) as [ -> | Hne ]; simpl.
    + split; [ auto | auto ].
    + split; [ auto | ]. intros k' [ <- | H ]; auto.
Qed.

Section Fold.

Let step (files_by_type : list (string * list path)) (file_path : path) :=
  group_add (extension_key (FS.name file_path)) file_path files_by_type.

Lemma fold_files (l : list path) :
  forall g,
    Permutation (concat (map snd (fold_left step l g)))
      (concat (map snd g) ++ l).
Proof.
  induction l as [ | p l IH ]; intro g; simpl.
  - now rewrite app_nil_r.
  - etransitivity; [ apply IH | ].
    etransitivity; [ apply Permutation_app_tail, group_add_files | ].
    now rewrite <- app_assoc.
Qed.

Lemma fold_keyed (l : list path) :
  forall g,
    (forall k files p, In (k, files) g -> In p files ->
                       extension_key (FS.name p) = k) ->
    forall k files p,
      In (k, files) (fold_left step l g) -> In p files ->
      extension_key (FS.name p) = k.
Proof.
  induction l as [ | a l IH ]; intros g Hg; simpl; [ exact Hg | ].
  apply IH. intros k files p Hin Hp.
  apply group_add_in in Hin.
  destruct Hin as [ Hin | (-> & f0 & -> & Hf0) ]; [ eapply Hg; eassumption | ].
  apply in_app_or in Hp. destruct Hp as [ Hp | [ <- | [] ] ]; [ | reflexivity ].
  destruct Hf0 as [ -> | Hf0 ]; [ destruct Hp | eapply Hg; eassumption ].
Qed.

Lemma fold_keys (l : list path) :
  forall g k,
    In k (map fst g) \/ (exists p, In p l /\ extension_key (FS.name p) = k) ->
    In k (map fst (fold_left step l g)).
Proof.
  induction l as [ | a l IH ]; intros g k H; simpl.
  - destruct H as [ H | (p & [] & _) ]. exact H.
  - apply IH.
    destruct (group_add_keys (extension_key (FS.name a)) a g) as [ H1 H2 ].
    destruct H as [ H | (p & [ <- | Hp ] & <-) ].
    + left. now apply H2.
    + left. exact H1.
    + right. eauto.
Qed.

Lemma fold_nonempty (l : list path) :
  forall g,
    (forall k files, In (k, files) g -> files <> []) ->
    forall k files, In (k, files) (fold_left step l g) -> files <> [].
Proof.
  induction l as [ | a l IH ]; intros g Hg; simpl; [ exact Hg | ].
  apply IH. intros k files Hin.
  apply group_add_in in Hin.
  destruct Hin as [ Hin | (_ & f0 & -> & _) ]; [ eapply Hg; eassumption | ].
  intro E. apply app_eq_nil in E. destruct E as [ _ E ]. discriminate.
Qed.

End Fold.

(** The groups hold every scanned file once ... *)
Lemma group_files_perm (l : list path) :
  Permutation (concat (map snd (group_files l))) l.
Proof. apply (fold_files l []). Qed.

(** ... each under the key of its name ... *)
Lemma group_files_keyed (l : list path) (k : string) (files : list path)
    (p : path) :
  In (k, files) (group_files l) -> In p files ->
  extension_key (FS.name p) = k.
Proof. apply (fold_keyed l []). intros ? ? ? []. Qed.

(** ... and every key of a scanned file names a group. *)
Lemma group_files_keys (l : list path) (p : path) :
  In p l -> In (extension_key (FS.name p)) (map fst (group_files l)).
Proof. intro H. apply (fold_keys l []). right. eauto. Qed.

(** No group is empty. *)
Lemma group_files_nonempty (l : list path) (k : string) (files : list path) :
  In (k, files) (group_files l) -> files <> [].
Proof. apply (fold_nonempty l []). intros ? ? []. Qed.

End GroupFacts.

(** ** The Cleaner *)

Section CleanerFacts.

Import FS FSFacts.

Variable denied : path -> bool.
Variable exclude : list string.

#[local] Abbreviation goes root :=
  (fun '(n, x) => removable denied exclude (root ++ [n]) x).
#[local] Abbreviation clean root :=
  (fun '(n, x) => (n, cleaned denied exclude (root ++ [n]) x)).
#[local] Abbreviation kept root :=
  (fun '(n, x) =>
     if removable denied exclude (root ++ [n]) x then []
     else [(n, cleaned denied exclude (root ++ [n]) x)]).
#[local] Abbreviation gone root :=
  (fun '(n, x) =>
     if removable denied exclude (root ++ [n]) x then [root ++ [n]] else []).
#[local] Abbreviation deeper root :=
  (fun '(n, x) => removals denied exclude (root ++ [n]) x).

Lemma removable_dir (p : path) (es : entries) :
  removable denied exclude p (Dir es)
  = negb (existsb (String.eqb (name p)) exclude) && negb (denied p)
    && forallb (goes p) es.
Proof. reflexivity. Qed.

Lemma cleaned_dir (root : path) (es : entries) :
  cleaned denied exclude root (Dir es) = Dir (flat_map (kept root) es).
Proof. reflexivity. Qed.

Lemma removals_dir (root : path) (es : entries) :
  removals denied exclude root (Dir es)
  = flat_map (deeper root) es ++ flat_map (gone root) es.
Proof. reflexivity. Qed.

(** A cleaned directory is empty exactly when all its entries went. *)
Lemma kept_nil (root : path) (es : entries) :
  flat_map (kept root) es = [] <-> forallb (goes root) es = true.
Proof.
  induction es as [ | [ n x ] r IH ]; simpl; [ tauto | ].
  destruct (removable denied exclude (root ++ [n]) x); simpl;
    [ exact IH | split; discriminate ].
Qed.

Lemma find_app_fresh (n : string) (x : node) (pre rest : entries) :
  find_entry n pre = None ->
  find_entry n (pre ++ (n, x) :: rest) = Some x.
Proof.
  induction pre as [ | [ k y ] pre IH ]; simpl.
  - intros _. now rewrite String.eqb_refl.
  - destruct (String.eqb k n); [ discriminate | exact IH ].
Qed.

Lemma remove_app_fresh (n : string) (x : node) (pre rest : entries) :
  find_entry n pre = None ->
  remove_entry n (pre ++ (n, x) :: rest) = pre ++ rest.
Proof.
  induction pre as [ | [ k y ] pre IH ]; simpl.
  - intros _. now rewrite String.eqb_refl.
  - destruct (String.eqb k n); [ discriminate | ].
    intro H. now rewrite IH.
Qed.

Lemma fresh_in (n m : string) (r : entries) :
  fresh n r = true -> In m (map fst r) -> n <> m.
Proof.
  induction r as [ | [ k y ] r IH ]; simpl; [ tauto | ].
  intro H. apply andb_prop in H. destruct H as [ Hk Hr ].
  intros [ <- | Hin ]; [ | now apply IH ].
  intros ->. rewrite String.eqb_refl in Hk. discriminate.
Qed.

(** One turn of the loop over [dirs], at a directory entry the walk below
    has already cleaned. *)
Lemma remove_if_empty_dir (root : path) (n : string) (es' : entries)
    (pre rest : entries) (R : list path) :
  find_entry n pre = None ->
  remove_if_empty denied exclude root
    (pre ++ (n, cleaned denied exclude (root ++ [n]) (Dir es')) :: rest, R) n
  = if removable denied exclude (root ++ [n]) (Dir es')
    then (pre ++ rest, R ++ [root ++ [n]])
    else (pre ++ (n, cleaned denied exclude (root ++ [n]) (Dir es')) :: rest, R).
Proof.
  intro Hpre. unfold remove_if_empty.
  rewrite removable_dir, ConflictFacts.name_last.
  destruct (existsb (String.eqb n) exclude); [ reflexivity | ].
  rewrite (find_app_fresh _ _ _ _ Hpre), (remove_app_fresh _ _ _ _ Hpre).
  rewrite cleaned_dir.
  destruct (flat_map (kept (root ++ [n])) es') as [ | e l ] eqn:Ek.
  - apply kept_nil in Ek. rewrite Ek.
    destruct (denied (root ++ [n])); reflexivity.
  - assert (Hk : forallb (goes (root ++ [n])) es' = false).
    { destruct (forallb (goes (root ++ [n])) es') eqn:E; [ | reflexivity ].
      apply kept_nil in E. congruence. }
    rewrite Hk, andb_false_r. reflexivity.
Qed.

(** The loop over [dirs], entry by entry: what came before is settled, what
    comes after is as the walk below left it. *)
Lemma sweep_spec (root : path) (es : entries) :
  forall (pre : entries) (R : list path),
    wf (Dir es) = true ->
    (forall m, In m (map fst es) -> find_entry m pre = None) ->
    fold_left (remove_if_empty denied exclude root) (dir_names es)
      (pre ++ map (clean root) es, R)
    = (pre ++ flat_map (kept root) es, R ++ flat_map (gone root) es).
Proof.
  induction es as [ | [ n x ] r IH ]; intros pre R Hwf Hpre.
  - simpl. now rewrite !app_nil_r.
  - apply wf_dir_inv in Hwf. destruct Hwf as (Hn & Hwx & Hwr).
    assert (Hpre' : forall y m, In m (map fst r) ->
                                find_entry m (pre ++ [(n, y)]) = None).
    { intros y m Hm. rewrite find_app_last.
      rewrite (Hpre m (or_intror Hm)).
      assert (Hne := fresh_in _ _ _ Hn Hm).
      apply String.eqb_neq in Hne. now rewrite Hne. }
    assert (Hskip :
      removable denied exclude (root ++ [n]) x = false ->
      fold_left (remove_if_empty denied exclude root) (dir_names r)
        (pre ++ (n, cleaned denied exclude (root ++ [n]) x)
             :: map (clean root) r, R)
      = (pre ++ flat_map (kept root) ((n, x) :: r),
         R ++ flat_map (gone root) ((n, x) :: r))).
    { intro Hno. cbn [flat_map]. rewrite Hno. cbn [app].
      assert (Hc : forall l,
                 pre ++ (n, cleaned denied exclude (root ++ [n]) x) :: l
                 = (pre ++ [(n, cleaned denied exclude (root ++ [n]) x)]) ++ l)
        by (intro l; now rewrite <- app_assoc).
      rewrite (Hc (map (clean root) r)), (Hc (flat_map (kept root) r)).
      apply IH; [ exact Hwr | apply Hpre' ]. }
    change (map (clean root) ((n, x) :: r))
      with ((n, cleaned denied exclude (root ++ [n]) x) :: map (clean root) r).
    destruct x as [ d | es' ].
    + apply Hskip. reflexivity.
    + change (dir_names ((n, Dir es') :: r)) with (n :: dir_names r).
      cbn [fold_left].
      rewrite (remove_if_empty_dir root n es' pre _ R
                 (Hpre n (or_introl eq_refl))).
      destruct (removable denied exclude (root ++ [n]) (Dir es')) eqn:Ego.
      * rewrite (IH pre (R ++ [root ++ [n]]) Hwr
                   (fun m Hm => Hpre m (or_intror Hm))).
        cbn [flat_map]. rewrite Ego. cbn [app]. now rewrite <- app_assoc.
      * apply Hskip. reflexivity.
Qed.

(** The Cleaner computes [cleaned] and [removals]. *)
Lemma cleanup_walk_spec (t : node) :
  forall (root : path),
    wf t = true ->
    cleanup_walk denied exclude root t
    = (cleaned denied exclude root t, removals denied exclude root t).
Proof.
  induction t as [ d | es IH ] using node_induction; intros root Hwf;
    [ reflexivity | ].
  assert (Hbelow :
    (fix walk (l : entries) : entries * list path :=
       match l with
       | [] => ([], [])
       | (n, x) :: r =>
           let (x', removed_x) := cleanup_walk denied exclude (root ++ [n]) x in
           let (r', removed_r) := walk r in
           ((n, x') :: r', removed_x ++ removed_r)
       end) es
    = (map (clean root) es, flat_map (deeper root) es)).
  { clear - IH Hwf. induction es as [ | [ n x ] r IHr ]; [ reflexivity | ].
    apply Forall_cons_iff in IH. destruct IH as [ IHx IHrest ].
    apply wf_dir_inv in Hwf. destruct Hwf as (_ & Hwx & Hwr).
    simpl in IHx. rewrite (IHx (root ++ [n]) Hwx), (IHr IHrest Hwr).
    reflexivity. }
  cbn [cleanup_walk]. rewrite Hbelow.
  assert (Hsweep := sweep_spec root es [] (flat_map (deeper root) es) Hwf
                      (fun m _ => eq_refl)).
  cbn [app] in Hsweep. rewrite Hsweep. reflexivity.
Qed.

Lemma find_in_pair (n : string) (es : entries) (x : node) :
  find_entry n es = Some x -> In (n, x) es.
Proof.
  induction es as [ | [ k y ] r IH ]; simpl; [ discriminate | ].
  destruct (String.eqb_spec k n) as [ -> | _ ].
  - intro H. injection H as ->. now left.
  - intro H. right. now apply IH.
Qed.

Lemma in_find (n : string) (es : entries) (x : node) :
  wf (Dir es) = true -> In (n, x) es -> find_entry n es = Some x.
Proof.
  induction es as [ | [ k y ] r IH ]; simpl In; [ intros _ [] | ].
  intros Hwf Hin. apply wf_dir_inv in Hwf. destruct Hwf as (Hk & _ & Hr).
  simpl. destruct Hin as [ E | Hin ].
  - injection E as -> ->. now rewrite String.eqb_refl.
  - assert (Hne : k <> n).
    { apply (fresh_in _ _ _ Hk). apply in_map_iff. exists (n, x). auto. }
    apply String.eqb_neq in Hne. rewrite Hne. now apply IH.
Qed.

Lemma wf_in (n : string) (es : entries) (x : node) :
  wf (Dir es) = true -> In (n, x) es -> wf x = true.
Proof.
  intros Hwf Hin. exact (find_wf n es x Hwf (in_find n es x Hwf Hin)).
Qed.

(** Everything below a removable directory is removable. *)
Lemma removable_below (q : path) :
  forall (x y : node) (p : path),
    removable denied exclude p x = true -> lookup q x = Some y ->
    removable denied exclude (p ++ q) y = true.
Proof.
  induction q as [ | n q IH ]; intros x y p Hx Hq.
  - simpl in Hq. injection Hq as <-. now rewrite app_nil_r.
  - destruct x as [ d | es ]; [ discriminate Hx | ].
    simpl in Hq. destruct (find_entry n es) as [ z | ] eqn:Ef; [ | discriminate ].
    rewrite removable_dir in Hx. apply andb_prop in Hx. destruct Hx as [ _ Hx ].
    rewrite forallb_forall in Hx.
    specialize (Hx (n, z) (find_in_pair _ _ _ Ef)). simpl in Hx.
    change (p ++ n :: q) with (p ++ [n] ++ q). rewrite app_assoc.
    now apply (IH z).
Qed.

Lemma removable_no_file (q : path) (x : node) (p : path) (c : string) :
  removable denied exclude p x = true -> lookup q x <> Some (File c).
Proof.
  intros Hx Hq. assert (H := removable_below q x (File c) p Hx Hq).
  discriminate H.
Qed.

(** One level of [cleaned]: the entries that stay. *)
Lemma find_kept (root : path) (n : string) (es : entries) :
  wf (Dir es) = true ->
  find_entry n (flat_map (kept root) es)
  = match find_entry n es with
    | Some x =>
        if removable denied exclude (root ++ [n]) x then None
        else Some (cleaned denied exclude (root ++ [n]) x)
    | None => None
    end.
Proof.
  induction es as [ | [ k y ] r IH ]; intro Hwf; [ reflexivity | ].
  apply wf_dir_inv in Hwf. destruct Hwf as (Hk & _ & Hr).
  cbn [flat_map find_entry].
  destruct (String.eqb_spec k n) as [ -> | Hne ].
  - destruct (removable denied exclude (root ++ [n]) y).
    + cbn [app]. rewrite (IH Hr).
      apply find_fresh in Hk. now rewrite Hk.
    + cbn [app find_entry]. now rewrite String.eqb_refl.
  - apply String.eqb_neq in Hne.
    destruct (removable denied exclude (root ++ [k]) y).
    + cbn [app]. apply (IH Hr).
    + cbn [app find_entry]. rewrite Hne. apply (IH Hr).
Qed.

Lemma lookup_cleaned_cons (root : path) (n : string) (q : path)
    (es : entries) :
  wf (Dir es) = true ->
  lookup (n :: q) (cleaned denied exclude root (Dir es))
  = match find_entry n es with
    | Some x =>
        if removable denied exclude (root ++ [n]) x then None
        else lookup q (cleaned denied exclude (root ++ [n]) x)
    | None => None
    end.
Proof.
  intro Hwf. rewrite cleaned_dir. cbn [lookup]. rewrite (find_kept root n es Hwf).
  destruct (find_entry n es) as [ x | ]; [ | reflexivity ].
  destruct (removable denied exclude (root ++ [n]) x); reflexivity.
Qed.

(** What is not removable stays where it is ... *)
Lemma cleaned_lookup_keep (p : path) :
  forall (t : node) (root : path) (x : node),
    wf t = true -> p <> [] -> lookup p t = Some x ->
    removable denied exclude (root ++ p) x = false ->
    lookup p (cleaned denied exclude root t)
    = Some (cleaned denied exclude (root ++ p) x).
Proof.
  induction p as [ | n q IH ]; intros t root x Hwf Hp Hl Hx; [ congruence | ].
  destruct t as [ d | es ]; [ discriminate Hl | ].
  rewrite (lookup_cleaned_cons root n q es Hwf).
  simpl in Hl. destruct (find_entry n es) as [ z | ] eqn:Ef; [ | discriminate ].
  assert (Hz : wf z = true) by (eapply find_wf; eassumption).
  change (root ++ n :: q) with (root ++ [n] ++ q) in *.
  rewrite app_assoc in *.
  destruct (removable denied exclude (root ++ [n]) z) eqn:Ez.
  - rewrite (removable_below q z x _ Ez Hl) in Hx. discriminate.
  - destruct q as [ | m q ].
    + simpl in Hl. injection Hl as <-. now rewrite app_nil_r.
    + apply IH; [ exact Hz | discriminate | exact Hl | exact Hx ].
Qed.

(** ... what is removable is gone ... *)
Lemma cleaned_lookup_gone (p : path) :
  forall (t : node) (root : path) (x : node),
    wf t = true -> p <> [] -> lookup p t = Some x ->
    removable denied exclude (root ++ p) x = true ->
    lookup p (cleaned denied exclude root t) = None.
Proof.
  induction p as [ | n q IH ]; intros t root x Hwf Hp Hl Hx; [ congruence | ].
  destruct t as [ d | es ]; [ discriminate Hl | ].
  rewrite (lookup_cleaned_cons root n q es Hwf).
  simpl in Hl. destruct (find_entry n es) as [ z | ] eqn:Ef; [ | discriminate ].
  assert (Hz : wf z = true) by (eapply find_wf; eassumption).
  change (root ++ n :: q) with (root ++ [n] ++ q) in *.
  rewrite app_assoc in *.
  destruct (removable denied exclude (root ++ [n]) z) eqn:Ez; [ reflexivity | ].
  destruct q as [ | m q ].
  - simpl in Hl. injection Hl as <-. rewrite app_nil_r in Hx. congruence.
  - apply (IH z (root ++ [n]) x); [ exact Hz | discriminate | exact Hl | exact Hx ].
Qed.

(** ... and nothing else appears. *)
Lemma cleaned_lookup_inv (p : path) :
  forall (t : node) (root : path) (y : node),
    wf t = true -> p <> [] ->
    lookup p (cleaned denied exclude root t) = Some y ->
    exists x,
      lookup p t = Some x /\ y = cleaned denied exclude (root ++ p) x
      /\ removable denied exclude (root ++ p) x = false.
Proof.
  induction p as [ | n q IH ]; intros t root y Hwf Hp Hl; [ congruence | ].
  destruct t as [ d | es ]; [ discriminate Hl | ].
  rewrite (lookup_cleaned_cons root n q es Hwf) in Hl.
  cbn [lookup].
  destruct (find_entry n es) as [ z | ] eqn:Ef; [ | discriminate ].
  assert (Hz : wf z = true) by (eapply find_wf; eassumption).
  change (root ++ n :: q) with (root ++ [n] ++ q).
  rewrite app_assoc.
  destruct (removable denied exclude (root ++ [n]) z) eqn:Ez; [ discriminate | ].
  destruct q as [ | m q ].
  - simpl in Hl. injection Hl as <-. exists z. rewrite app_nil_r. auto.
  - apply (IH z (root ++ [n]) y Hz); [ discriminate | exact Hl ].
Qed.

Lemma cleaned_kind (root : path) (t : node) :
  kind (cleaned denied exclude root t) = kind t.
Proof. destruct t; reflexivity. Qed.

(** The Cleaner leaves every file where it is, and brings none. *)
Lemma cleaned_stat_file (t : node) (root q : path) (c : string) :
  wf t = true ->
  (stat q (cleaned denied exclude root t) = Some (Some c)
   <-> stat q t = Some (Some c)).
Proof.
  intro Hwf. rewrite !stat_file.
  destruct q as [ | n q ].
  - simpl. destruct t; simpl; split; intro H; congruence.
  - split; intro H.
    + apply cleaned_lookup_inv in H; [ | exact Hwf | discriminate ].
      destruct H as (x & Hx & E & _).
      destruct x; [ simpl in E; congruence | discriminate E ].
    + rewrite (cleaned_lookup_keep (n :: q) t root (File c) Hwf);
        [ reflexivity | discriminate | exact H | reflexivity ].
Qed.

(** A directory that is not removable stays a directory. *)
Lemma cleaned_is_dir (t : node) (root p : path) (x : node) :
  wf t = true -> lookup p t = Some x -> kind x = None ->
  p = [] \/ removable denied exclude (root ++ p) x = false ->
  is_dir p (cleaned denied exclude root t) = true.
Proof.
  intros Hwf Hl Hx Hp. apply stat_dir. unfold stat.
  destruct p as [ | n q ].
  - simpl in *. injection Hl as ->. now rewrite cleaned_kind, Hx.
  - destruct Hp as [ Hp | Hp ]; [ discriminate | ].
    rewrite (cleaned_lookup_keep (n :: q) t root x Hwf);
      [ | discriminate | exact Hl | exact Hp ].
    simpl. now rewrite cleaned_kind, Hx.
Qed.

Lemma removable_contents (x : node) :
  forall p, removable denied exclude p x = true -> contents x = [].
Proof.
  induction x as [ d | es IH ] using node_induction; intros p Hx;
    [ discriminate Hx | ].
  rewrite removable_dir in Hx. apply andb_prop in Hx. destruct Hx as [ _ Hx ].
  induction es as [ | [ n y ] r IHr ]; [ reflexivity | ].
  apply Forall_cons_iff in IH. destruct IH as [ IHy IHrest ]. simpl in IHy.
  cbn [forallb] in Hx. apply andb_prop in Hx. destruct Hx as [ Hy Hr ].
  rewrite contents_cons, (IHy _ Hy), (IHr IHrest Hr). reflexivity.
Qed.

(** The Cleaner keeps the data of every file. *)
Lemma cleaned_contents (t : node) :
  forall root, contents (cleaned denied exclude root t) = contents t.
Proof.
  induction t as [ d | es IH ] using node_induction; intro root;
    [ reflexivity | ].
  rewrite cleaned_dir.
  induction es as [ | [ n x ] r IHr ]; [ reflexivity | ].
  apply Forall_cons_iff in IH. destruct IH as [ IHx IHrest ]. simpl in IHx.
  cbn [flat_map]. rewrite contents_cons, <- (IHr IHrest).
  destruct (removable denied exclude (root ++ [n]) x) eqn:Ex.
  - now rewrite (removable_contents x _ Ex).
  - cbn [app]. rewrite contents_cons. f_equal. apply IHx.
Qed.

Lemma cleaned_wf (t : node) :
  forall root, wf t = true -> wf (cleaned denied exclude root t) = true.
Proof.
  induction t as [ d | es IH ] using node_induction; intros root Hwf;
    [ reflexivity | ].
  rewrite cleaned_dir.
  induction es as [ | [ n x ] r IHr ]; [ reflexivity | ].
  apply Forall_cons_iff in IH. destruct IH as [ IHx IHrest ]. simpl in IHx.
  apply wf_dir_inv in Hwf. destruct Hwf as (Hn & Hwx & Hwr).
  cbn [flat_map].
  destruct (removable denied exclude (root ++ [n]) x); cbn [app];
    [ now apply IHr | ].
  rewrite wf_dir_cons, (IHx _ Hwx), (IHr IHrest Hwr), !andb_true_r.
  apply find_fresh. rewrite (find_kept root n r Hwr).
  apply find_fresh in Hn. now rewrite Hn.
Qed.

(** Every removable directory is on the list of removals ... *)
Lemma removals_in (p : path) :
  forall (t : node) (root : path) (x : node),
    p <> [] -> lookup p t = Some x ->
    removable denied exclude (root ++ p) x = true ->
    In (root ++ p) (removals denied exclude root t).
Proof.
  induction p as [ | n q IH ]; intros t root x Hp Hl Hx; [ congruence | ].
  destruct t as [ d | es ]; [ discriminate Hl | ].
  simpl in Hl. destruct (find_entry n es) as [ z | ] eqn:Ef; [ | discriminate ].
  apply find_in_pair in Ef.
  rewrite removals_dir. apply in_or_app.
  destruct q as [ | m q ].
  - simpl in Hl. injection Hl as <-. right.
    apply in_flat_map. exists (n, z). split; [ exact Ef | ].
    rewrite Hx. now left.
  - left. apply in_flat_map. exists (n, z). split; [ exact Ef | ].
    change (root ++ n :: m :: q) with (root ++ [n] ++ m :: q) in *.
    rewrite app_assoc in *.
    apply (IH z (root ++ [n]) x); [ discriminate | exact Hl | exact Hx ].
Qed.

(** ... and only removable directories are. *)
Lemma removals_inv (t : node) :
  forall (root p' : path),
    wf t = true -> In p' (removals denied exclude root t) ->
    exists p x,
      p <> [] /\ p' = root ++ p /\ lookup p t = Some x
      /\ removable denied exclude p' x = true.
Proof.
  induction t as [ d | es IH ] using node_induction; intros root p' Hwf Hin;
    [ destruct Hin | ].
  rewrite removals_dir in Hin. rewrite Forall_forall in IH.
  apply in_app_or in Hin. destruct Hin as [ Hin | Hin ];
    apply in_flat_map in Hin; destruct Hin as ([ n z ] & Hnz & Hin).
  - assert (Hz := wf_in _ _ _ Hwf Hnz).
    destruct (IH (n, z) Hnz (root ++ [n]) p' Hz Hin)
      as (p & x & Hp & -> & Hl & Hx).
    exists (n :: p), x. split; [ discriminate | ].
    split; [ now rewrite <- app_assoc | ]. split; [ | exact Hx ].
    simpl. now rewrite (in_find _ _ _ Hwf Hnz).
  - destruct (removable denied exclude (root ++ [n]) z) eqn:Ez;
      [ | destruct Hin ].
    destruct Hin as [ <- | [] ].
    exists [n], z. split; [ discriminate | ]. split; [ reflexivity | ].
    split; [ | exact Ez ].
    simpl. now rewrite (in_find _ _ _ Hwf Hnz).
Qed.

Lemma ordered_app {A : Type} (R : A -> A -> Prop) (l1 l2 : list A) :
  ForallOrdPairs R l1 -> ForallOrdPairs R l2 ->
  (forall a b, In a l1 -> In b l2 -> R a b) ->
  ForallOrdPairs R (l1 ++ l2).
Proof.
  intros H1 H2 H12. induction H1 as [ | a l Ha Hl IH ]; [ exact H2 | ].
  simpl. constructor.
  - apply Forall_app. split; [ exact Ha | ].
    apply Forall_forall. intros b Hb. apply H12; [ now left | exact Hb ].
  - apply IH. intros x y Hx Hy. apply H12; [ now right | exact Hy ].
Qed.

Lemma ordered_split {A : Type} (R : A -> A -> Prop) (l1 l2 : list A) (a : A) :
  ForallOrdPairs R (l1 ++ a :: l2) -> forall b, In b l2 -> R a b.
Proof.
  induction l1 as [ | x l1 IH ]; simpl; intro H; inversion H; subst.
  - intros b Hb. rewrite Forall_forall in *. auto.
  - now apply IH.
Qed.

(** Of two nested directories that are removed, the inner goes first: no
    removal comes after the removal of an ancestor. *)
Lemma removals_ordered (t : node) :
  forall root,
    wf t = true ->
    ForallOrdPairs (fun p q => forall n rest, q <> p ++ n :: rest)
      (removals denied exclude root t).
Proof.
  induction t as [ d | es IH ] using node_induction; intros root Hwf;
    [ constructor | ].
  rewrite removals_dir. rewrite Forall_forall in IH.
  assert (Hshape : forall n z p', In (n, z) es ->
            In p' (removals denied exclude (root ++ [n]) z) ->
            exists m q, p' = root ++ n :: m :: q).
  { intros n z p' Hnz Hin.
    destruct (removals_inv z (root ++ [n]) p' (wf_in _ _ _ Hwf Hnz) Hin)
      as (p & x & Hp & -> & _).
    destruct p as [ | m q ]; [ congruence | ].
    exists m, q. now rewrite <- app_assoc. }
  apply ordered_app.
  - clear Hshape.
    induction es as [ | [ n z ] r IHr ]; [ constructor | ].
    apply wf_dir_inv in Hwf. destruct Hwf as (Hn & Hwz & Hwr).
    cbn [flat_map]. apply ordered_app.
    + apply (IH (n, z)); [ now left | exact Hwz ].
    + apply IHr; [ | exact Hwr ]. intros e He. apply IH. now right.
    + intros a b Ha Hb k rest E.
      destruct (removals_inv z (root ++ [n]) a Hwz Ha)
        as (pa & xa & Hpa & -> & _).
      apply in_flat_map in Hb. destruct Hb as ([ m w ] & Hmw & Hb).
      destruct (removals_inv w (root ++ [m]) b (wf_in _ _ _ Hwr Hmw) Hb)
        as (pb & xb & Hpb & -> & _).
      rewrite <- !app_assoc in E. apply app_inv_head in E.
      simpl in E. injection E as E _.
      apply (fresh_in _ _ _ Hn (in_map fst _ _ Hmw)). auto.
  - clear IH Hshape Hwf.
    induction es as [ | [ n z ] r IHr ]; [ constructor | ].
    cbn [flat_map].
    destruct (removable denied exclude (root ++ [n]) z); [ | exact IHr ].
    cbn [app]. constructor; [ | exact IHr ].
    apply Forall_forall. intros b Hb k rest E.
    apply in_flat_map in Hb. destruct Hb as ([ m w ] & _ & Hb).
    destruct (removable denied exclude (root ++ [m]) w); [ | destruct Hb ].
    destruct Hb as [ <- | [] ].
    apply (f_equal (@List.length string)) in E.
    rewrite !length_app in E. simpl in E. lia.
  - intros a b Ha Hb k rest E.
    apply in_flat_map in Ha. destruct Ha as ([ n z ] & Hnz & Ha).
    destruct (Hshape n z a Hnz Ha) as (m & q & ->).
    apply in_flat_map in Hb. destruct Hb as ([ n' w ] & _ & Hb).
    destruct (removable denied exclude (root ++ [n']) w); [ | destruct Hb ].
    destruct Hb as [ <- | [] ].
    apply (f_equal (@List.length string)) in E.
    rewrite !length_app in E. simpl in E. lia.
Qed.

Lemma cleanup_empty_dirs_spec (t : node) :
  wf t = true ->
  cleanup_empty_dirs denied exclude t
  = (cleaned denied exclude [] t, removals denied exclude [] t).
Proof. intro Hwf. apply (cleanup_walk_spec t [] Hwf). Qed.

(** C8, amended: in one pass the Cleaner removes every directory that is
    [removable] (its name is not excluded, the host does not refuse, and all
    its entries are removable in turn, so that it is empty or becomes empty
    once they are gone) and only those; of two nested removed directories the
    inner goes first; a directory that is not on the list of removals, the
    root among them, is still a directory afterwards, and no directory with a
    file below it is removed. *)
Theorem cleaner_removes_bottom_up (t : node) :
  wf t = true ->
  let t' := fst (cleanup_empty_dirs denied exclude t) in
  let rm := snd (cleanup_empty_dirs denied exclude t) in
  (forall p x,
      p <> [] -> lookup p t = Some x ->
      removable denied exclude p x = true ->
      lookup p t' = None /\ In p rm)
  /\ (forall p,
        In p rm ->
        p <> [] /\ exists x,
          lookup p t = Some x /\ removable denied exclude p x = true)
  /\ (forall l1 p l2,
        rm = l1 ++ p :: l2 ->
        forall q, In q l2 -> forall n rest, q <> p ++ n :: rest)
  /\ (forall p, is_dir p t = true -> ~ In p rm -> is_dir p t' = true)
  /\ (forall p q c, In p rm -> lookup (p ++ q) t <> Some (File c))
  /\ ~ In [] rm.
Proof.
  intros Hwf t' rm. subst t' rm. rewrite (cleanup_empty_dirs_spec t Hwf).
  cbn [fst snd].
  assert (Hinv : forall p,
            In p (removals denied exclude [] t) ->
            p <> [] /\ exists x,
              lookup p t = Some x /\ removable denied exclude p x = true).
  { intros p Hin.
    destruct (removals_inv t [] p Hwf Hin) as (p0 & x & Hp0 & E & Hl & Hx).
    simpl in E. subst p0. eauto. }
  split; [ | split; [ exact Hinv | split; [ | split; [ | split ] ] ] ].
  - intros p x Hp Hl Hx. split.
    + apply (cleaned_lookup_gone p t [] x Hwf Hp Hl Hx).
    + apply (removals_in p t [] x Hp Hl Hx).
  - intros l1 p l2 E.
    assert (Hord := removals_ordered t [] Hwf). rewrite E in Hord.
    apply (ordered_split _ _ _ _ Hord).
  - intros p Hdir Hnot. unfold is_dir in Hdir.
    destruct (lookup p t) as [ [ d | es ] | ] eqn:Hl; try discriminate.
    apply (cleaned_is_dir t [] p (Dir es) Hwf Hl eq_refl).
    destruct p as [ | n q ]; [ now left | right ].
    destruct (removable denied exclude ([] ++ n :: q) (Dir es)) eqn:Ex;
      [ | reflexivity ].
    exfalso. apply Hnot.
    apply (removals_in (n :: q) t [] (Dir es)); [ discriminate | exact Hl | exact Ex ].
  - intros p q c Hin Hl.
    destruct (Hinv p Hin) as (_ & x & Hx & Hgo).
    rewrite lookup_app, Hx in Hl.
    apply (removable_no_file q x p c Hgo Hl).
  - intro Hin. now destruct (Hinv [] Hin) as [ H _ ].
Qed.

End CleanerFacts.

Lemma cleaner_removes_bottom_up_witness :
  let t := Dir [("a", Dir [("b", Dir [("c", Dir [])])]);
                ("keep", Dir [("f.txt", File "F")])] in
  fst (cleanup_empty_dirs permissive ["TXT"] t)
  = Dir [("keep", Dir [("f.txt", File "F")])]
  /\ snd (cleanup_empty_dirs permissive ["TXT"] t)
     = [["a"; "b"; "c"]; ["a"; "b"]; ["a"]]
  /\ FS.lookup ["a"; "b"] (fst (cleanup_empty_dirs permissive ["TXT"] t)) = None
  /\ In ["a"; "b"] (snd (cleanup_empty_dirs permissive ["TXT"] t)).
Proof.
  intro t. split; [ reflexivity | ]. split; [ reflexivity | ].
  apply (proj1 (cleaner_removes_bottom_up permissive ["TXT"] t eq_refl)
           ["a"; "b"] (Dir [("c", Dir [])]));
    [ discriminate | reflexivity | reflexivity ].
Defined.

(** The claim of C8 as it is written fails: the empty directory [sub/PDF],
    and [sub] which holds nothing else, survive a run that scanned a [.pdf]
    file, because the Cleaner skips every directory named like a key. *)
Lemma cleaner_keeps_empty_key_named_chain :
  exists r t',
    organize_files permissive
      (Present (Dir [("x.pdf", File "X"); ("sub", Dir [("PDF", Dir [])])]))
    = Some r
    /\ after r = Some t'
    /\ FS.lookup ["sub"] t' = Some (Dir [("PDF", Dir [])])
    /\ FS.lookup ["sub"; "PDF"] t' = Some (Dir [])
    /\ removed r = [].
Proof.
  eexists. eexists. split; [ vm_compute; reflexivity | ].
  repeat split.
Qed.

(** ** The Mover *)

Section MoverFacts.

Import FS FSFacts.

Variable denied : path -> bool.
Variable t0 : node.
Variable all : list path.
Hypothesis all_files_of_t0 :
  forall p, In p all -> exists c, stat p t0 = Some (Some c).

Lemma moves_app (a b : list line) : moves (a ++ b) = moves a ++ moves b.
Proof.
  induction a as [ | l a IH ]; simpl; [ reflexivity | ].
  destruct l; simpl; now rewrite ?IH.
Qed.

Lemma path_eq_dec (p q : path) : {p = q} + {p <> q}.
Proof. apply (list_eq_dec string_dec). Qed.

(** Files that are skipped, or whose move fails with nothing changed, leave
    the tree and the moves alone. *)
Lemma inv_drop (cs : list (path * path)) (st st' : progress)
    (files todo : list path) :
  mover_inv t0 all cs st (files ++ todo) ->
  tree st' = tree st ->
  (forall l, In l (printed st) -> In l (printed st')) ->
  moves (printed st') = moves (printed st) ->
  total_moved st' = total_moved st ->
  total_errors st <= total_errors st' ->
  (total_errors st' = 0 ->
   total_errors st = 0 /\ forall p, In p files -> in_place p) ->
  mover_inv t0 all cs st' todo.
Proof.
  intros I Ht Hin Hm Hc Hle He. destruct I.
  constructor; rewrite ?Ht, ?Hm, ?Hc; auto.
  - eapply NoDup_app_remove_l; eassumption.
  - intros p Hp. apply mi_todo_all0, in_or_app. now right.
  - intros p Hp. apply mi_todo_fresh0, in_or_app. now right.
  - intros s d Hs. destruct (mi_copies0 s d Hs) as (H1 & H2 & H3).
    split; [ auto | ]. split; [ exact H2 | ].
    intro H. apply H3, in_or_app. now right.
  - lia.
  - intros Hz q Hq Hnot. destruct (He Hz) as [ Hz0 Hplace ].
    destruct (in_dec path_eq_dec q files) as [ Hq' | Hout ].
    + right. now apply Hplace.
    + apply (mi_done0 Hz0 q Hq). intro Hq'.
      apply in_app_or in Hq'. tauto.
Qed.

(** A new folder changes no file, no move and no count. *)
Lemma inv_tree (cs : list (path * path)) (st st' : progress)
    (todo : list path) :
  mover_inv t0 all cs st todo ->
  wf (tree st') = true ->
  (forall q c, stat q (tree st') = Some (Some c)
               <-> stat q (tree st) = Some (Some c)) ->
  (forall q, is_dir q (tree st) = true -> is_dir q (tree st') = true) ->
  (forall q, is_dir q (tree st') = true ->
             is_dir q (tree st) = true \/ List.length q = 1) ->
  Permutation (contents (tree st')) (contents (tree st)) ->
  (forall l, In l (printed st) -> In l (printed st')) ->
  moves (printed st') = moves (printed st) ->
  total_moved st' = total_moved st ->
  total_errors st' = total_errors st ->
  mover_inv t0 all cs st' todo.
Proof.
  intros I Hwf Hf Hd Hb Hp Hin Hm Hc He. destruct I.
  constructor; rewrite ?Hm, ?Hc, ?He; auto.
  - intros q c. rewrite Hf. apply mi_files0.
  - destruct mi_contents0 as (copied & HF & HP). exists copied.
    split; [ exact HF | ]. etransitivity; eassumption.
  - intros s d Hs. destruct (mi_copies0 s d Hs) as (H1 & H2 & H3). auto.
  - intros q Hq. destruct (Hb q Hq) as [ H | H ]; auto.
Qed.

Lemma taken_more (arrived arrived' : list path) (q : path) :
  (forall x, In x arrived -> In x arrived') ->
  taken t0 arrived q -> taken t0 arrived' q.
Proof. intros H [ T | T ]; [ now left | right; auto ]. Qed.

Lemma named_more (arrived arrived' : list path) (s d : path) :
  (forall x, In x arrived -> In x arrived') ->
  named t0 arrived s d -> named t0 arrived' s d.
Proof.
  intros H [ E | (T & N & HN & E & Hk) ]; [ now left | right ].
  split; [ exact (taken_more _ _ _ H T) | ].
  exists N. split; [ exact HN | ]. split; [ exact E | ].
  intros k Hk'. exact (taken_more _ _ _ H (Hk k Hk')).
Qed.

(** What occupies a path two levels down was there from the start or
    arrived in the run. *)
Lemma occupied_taken (cs : list (path * path)) (st : progress)
    (todo : list path) (k n : string) :
  mover_inv t0 all cs st todo ->
  lookup ([k] ++ [n]) (tree st) <> None ->
  taken t0 (map snd (cs ++ moves (printed st))) ([k] ++ [n]).
Proof.
  intros I H.
  destruct (lookup ([k] ++ [n]) (tree st)) as [ [ c | es' ] | ] eqn:El;
    [ | | congruence ].
  - apply (proj2 (stat_file _ _ _)) in El.
    apply (mi_files _ _ _ _ _ I) in El.
    destruct El as [ (El & _) | (s & Hs & _) ].
    + left. apply (proj1 (stat_file _ _ _)) in El. congruence.
    + right. apply in_map_iff. exists (s, [k] ++ [n]). auto.
  - assert (Hd : is_dir ([k] ++ [n]) (tree st) = true)
      by (unfold is_dir; now rewrite El).
    destruct (mi_dirs_back _ _ _ _ _ I _ Hd) as [ H0 | H0 ];
      [ | discriminate H0 ].
    left. unfold is_dir in H0.
    destruct (lookup ([k] ++ [n]) t0); [ discriminate | discriminate H0 ].
Qed.

(** What is known of the file the loop turns to, and of a free path. *)
Lemma inv_head (cs : list (path * path)) (st : progress) (p d : path)
    (c : string) (todo : list path) :
  mover_inv t0 all cs st (p :: todo) ->
  stat d (tree st) = None ->
  stat p (tree st) = Some (Some c) ->
  stat p t0 = Some (Some c)
  /\ (forall s q, In (s, q) (cs ++ moves (printed st)) -> q <> d)
  /\ (forall q c', stat q t0 = Some (Some c') ->
                   ~ In q (map fst (moves (printed st))) -> d <> q).
Proof.
  intros I Hd Hp.
  assert (Hp_all : In p all) by (apply (mi_todo_all _ _ _ _ _ I); now left).
  assert (Hp_fresh : ~ In p (map fst (moves (printed st))))
    by (apply (mi_todo_fresh _ _ _ _ _ I); now left).
  split; [ | split ].
  - apply (mi_files _ _ _ _ _ I) in Hp.
    destruct Hp as [ [ H _ ] | (s & Hs & _) ]; [ exact H | ].
    destruct (all_files_of_t0 p Hp_all) as (c' & Hc').
    exfalso. apply (mi_apart _ _ _ _ _ I s p p c' Hs Hc' Hp_fresh).
    reflexivity.
  - intros s q Hs ->.
    destruct (all_files_of_t0 s (mi_srcs _ _ _ _ _ I s d Hs)) as (c0 & Hc0).
    assert (H : stat d (tree st) = Some (Some c0))
      by (apply (mi_files _ _ _ _ _ I); right; eauto).
    congruence.
  - intros q c' Hq Hnot <-.
    assert (H : stat d (tree st) = Some (Some c'))
      by (apply (mi_files _ _ _ _ _ I); left; auto).
    congruence.
Qed.

(** A move to a free path. *)
Lemma inv_move (cs : list (path * path)) (st st' : progress) (p d : path)
    (c : string) (todo : list path) :
  mover_inv t0 all cs st (p :: todo) ->
  stat d (tree st) = None ->
  stat p (tree st) = Some (Some c) ->
  wf (tree st') = true ->
  (forall q,
      stat q (tree st')
      = if path_eqb q d then Some (Some c)
        else if path_eqb q p then None else stat q (tree st)) ->
  Permutation (contents (tree st')) (contents (tree st)) ->
  destination_of p d ->
  named t0 (map snd (cs ++ moves (printed st))) p d ->
  (forall l, In l (printed st) -> In l (printed st')) ->
  moves (printed st') = moves (printed st) ++ [(p, d)] ->
  total_moved st' = total_moved st + 1 ->
  total_errors st' = total_errors st ->
  mover_inv t0 all cs st' todo.
Proof.
  intros I Hd Hp Hwf HS Hperm Hshape Hname Hin Hm Hc He.
  destruct (inv_head cs st p d c todo I Hd Hp) as (Hp0 & Hold_dst & Hfree).
  destruct I.
  assert (Hnd := mi_todo_nodup0). apply NoDup_cons_iff in Hnd.
  destruct Hnd as [ Hp_todo Hnd ].
  assert (Hp_all : In p all) by (apply mi_todo_all0; now left).
  assert (Hp_fresh : ~ In p (map fst (moves (printed st))))
    by (apply mi_todo_fresh0; now left).
  assert (Hsrc : forall q,
            In q (map fst (moves (printed st) ++ [(p, d)]))
            <-> In q (map fst (moves (printed st))) \/ q = p).
  { intro q. rewrite map_app, in_app_iff. simpl. intuition. }
  assert (Hmv : forall s q,
            In (s, q) (cs ++ moves (printed st) ++ [(p, d)])
            <-> In (s, q) (cs ++ moves (printed st)) \/ (s = p /\ q = d)).
  { intros s q. rewrite app_assoc, in_app_iff. simpl. split.
    - intros [ H | [ H | [] ] ]; [ auto | ]. injection H as <- <-. auto.
    - intros [ H | [ -> -> ] ]; auto. }
  constructor; rewrite ?Hm, ?Hc, ?He.
  - exact Hwf.
  - exact Hnd.
  - intros q Hq. apply mi_todo_all0. now right.
  - intros q Hq Hq'. apply Hsrc in Hq'. destruct Hq' as [ Hq' | -> ].
    + apply (mi_todo_fresh0 q); [ now right | exact Hq' ].
    + contradiction.
  - intros q c'. rewrite HS.
    destruct (path_eqb_spec q d) as [ -> | Hqd ].
    + split.
      * intro H. injection H as <-. right. exists p. split; [ | exact Hp0 ].
        apply Hmv. auto.
      * intros [ [ H0 Hnot ] | (s & Hs & Hs0) ].
        -- exfalso. apply (Hfree d c' H0); [ | reflexivity ].
           intro Hq'. apply Hnot, Hsrc. auto.
        -- apply Hmv in Hs. destruct Hs as [ Hs | [ -> _ ] ].
           ++ exfalso. now apply (Hold_dst s d Hs).
           ++ congruence.
    + destruct (path_eqb_spec q p) as [ -> | Hqp ].
      * split; [ discriminate | ].
        intros [ [ _ Hnot ] | (s & Hs & Hs0) ].
        -- exfalso. apply Hnot, Hsrc. auto.
        -- apply Hmv in Hs. destruct Hs as [ Hs | [ _ E ] ]; [ | congruence ].
           exfalso. apply (mi_apart0 s p p c Hs Hp0 Hp_fresh). reflexivity.
      * rewrite mi_files0. split.
        -- intros [ [ H0 Hnot ] | (s & Hs & Hs0) ].
           ++ left. split; [ exact H0 | ]. intro Hq'. apply Hsrc in Hq'. tauto.
           ++ right. exists s. split; [ apply Hmv; auto | exact Hs0 ].
        -- intros [ [ H0 Hnot ] | (s & Hs & Hs0) ].
           ++ left. split; [ exact H0 | ]. intro Hq'. apply Hnot, Hsrc. auto.
           ++ apply Hmv in Hs. destruct Hs as [ Hs | [ _ E ] ]; [ | congruence ].
              right. eauto.
  - intros s q Hs. apply Hmv in Hs. destruct Hs as [ Hs | [ -> _ ] ];
      [ eapply mi_srcs0; eassumption | exact Hp_all ].
  - rewrite app_assoc, map_app. simpl. apply NoDup_app; [ exact mi_dsts0 | | ].
    + constructor; [ intros [] | constructor ].
    + intros q Hq [ <- | [] ]. apply in_map_iff in Hq.
      destruct Hq as ([ s q' ] & E & Hs). simpl in E. subst q'.
      now apply (Hold_dst s d Hs).
  - intros s q q' c' Hs Hq0 Hnot. apply Hmv in Hs.
    assert (Hnot' : ~ In q' (map fst (moves (printed st))))
      by (intro Hq'; apply Hnot, Hsrc; auto).
    destruct Hs as [ Hs | [ -> -> ] ].
    + apply (mi_apart0 s q q' c' Hs Hq0 Hnot').
    + apply (Hfree q' c' Hq0 Hnot').
  - intros q Hq. apply mi_dirs0 in Hq. apply stat_dir. apply stat_dir in Hq.
    rewrite HS.
    destruct (path_eqb_spec q d) as [ -> | _ ]; [ congruence | ].
    destruct (path_eqb_spec q p) as [ -> | _ ]; [ congruence | exact Hq ].
  - destruct mi_contents0 as (copied & HF & HP). exists copied.
    split; [ exact HF | ]. etransitivity; eassumption.
  - intros s q Hs. apply Hmv in Hs. destruct Hs as [ Hs | [ -> -> ] ];
      [ now apply mi_shape0 | exact Hshape ].
  - rewrite length_app, mi_count0. reflexivity.
  - intros s q Hs. destruct (mi_copies0 s q Hs) as (H1 & H2 & H3).
    split; [ auto | ]. split.
    + intro Hq'. apply Hsrc in Hq'. destruct Hq' as [ Hq' | -> ];
        [ contradiction | ]. apply H3. now left.
    + intro Hq'. apply H3. now right.
  - exact mi_failed0.
  - intros Hz q Hq Hnot.
    destruct (path_eq_dec q p) as [ -> | Hqp ].
    + left. apply Hsrc. auto.
    + destruct (mi_done0 Hz q Hq) as [ H | H ].
      * intros [ E | Hq' ]; [ congruence | contradiction ].
      * left. apply Hsrc. auto.
      * now right.
  - intros q Hq. apply stat_dir in Hq. rewrite HS in Hq.
    destruct (path_eqb q d); [ discriminate | ].
    destruct (path_eqb q p); [ discriminate | ].
    apply mi_dirs_back0. now apply stat_dir.
  - assert (Hmore : forall x,
              In x (map snd (cs ++ moves (printed st))) ->
              In x (map snd (cs ++ moves (printed st) ++ [(p, d)]))).
    { intros x Hx. rewrite app_assoc, map_app. apply in_or_app. now left. }
    intros s q Hs. apply in_app_or in Hs. destruct Hs as [ Hs | [ E | [] ] ].
    + apply (named_more _ _ s q Hmore). now apply mi_named0.
    + injection E as <- <-. exact (named_more _ _ p d Hmore Hname).
Qed.

(** A failed move that leaves a copy at a free path. *)
Lemma inv_copy (cs : list (path * path)) (st st' : progress) (p d : path)
    (c : string) (todo : list path) :
  mover_inv t0 all cs st (p :: todo) ->
  stat d (tree st) = None ->
  stat p (tree st) = Some (Some c) ->
  wf (tree st') = true ->
  (forall q,
      stat q (tree st')
      = if path_eqb q d then Some (Some c) else stat q (tree st)) ->
  Permutation (contents (tree st')) (c :: contents (tree st)) ->
  destination_of p d ->
  (forall l, In l (printed st) -> In l (printed st')) ->
  In (MoveError p) (printed st') ->
  moves (printed st') = moves (printed st) ->
  total_moved st' = total_moved st ->
  total_errors st' = total_errors st + 1 ->
  mover_inv t0 all ((p, d) :: cs) st' todo.
Proof.
  intros I Hd Hp Hwf HS Hperm Hshape Hin Herr Hm Hc He.
  destruct (inv_head cs st p d c todo I Hd Hp) as (Hp0 & Hold_dst & Hfree).
  destruct I.
  assert (Hnd := mi_todo_nodup0). apply NoDup_cons_iff in Hnd.
  destruct Hnd as [ Hp_todo Hnd ].
  assert (Hp_all : In p all) by (apply mi_todo_all0; now left).
  assert (Hp_fresh : ~ In p (map fst (moves (printed st))))
    by (apply mi_todo_fresh0; now left).
  constructor; rewrite ?Hm, ?Hc, ?He.
  - exact Hwf.
  - exact Hnd.
  - intros q Hq. apply mi_todo_all0. now right.
  - intros q Hq. apply mi_todo_fresh0. now right.
  - intros q c'. rewrite HS.
    destruct (path_eqb_spec q d) as [ -> | Hqd ].
    + split.
      * intro H. injection H as <-. right. exists p.
        split; [ now left | exact Hp0 ].
      * intros [ [ H0 Hnot ] | (s & [ E | Hs ] & Hs0) ].
        -- exfalso. now apply (Hfree d c' H0 Hnot).
        -- injection E as <-. congruence.
        -- exfalso. now apply (Hold_dst s d Hs).
    + rewrite mi_files0. split.
      * intros [ H | (s & Hs & Hs0) ]; [ now left | ].
        right. exists s. split; [ now right | exact Hs0 ].
      * intros [ H | (s & [ E | Hs ] & Hs0) ]; [ now left | | right; eauto ].
        injection E as _ E. congruence.
  - intros s q [ E | Hs ]; [ injection E as <- _; exact Hp_all | ].
    eapply mi_srcs0; eassumption.
  - simpl. constructor; [ | exact mi_dsts0 ].
    intro Hq. apply in_map_iff in Hq.
    destruct Hq as ([ s q' ] & E & Hs). simpl in E. subst q'.
    now apply (Hold_dst s d Hs).
  - intros s q q' c' [ E | Hs ] Hq0 Hnot.
    + injection E as _ <-. apply (Hfree q' c' Hq0 Hnot).
    + apply (mi_apart0 s q q' c' Hs Hq0 Hnot).
  - intros q Hq. apply mi_dirs0 in Hq. apply stat_dir. apply stat_dir in Hq.
    rewrite HS.
    destruct (path_eqb_spec q d) as [ -> | _ ]; [ congruence | exact Hq ].
  - destruct mi_contents0 as (copied & HF & HP). exists (c :: copied).
    split; [ constructor; [ exact Hp0 | exact HF ] | ].
    etransitivity; [ exact Hperm | ]. simpl. now apply perm_skip.
  - intros s q [ E | Hs ]; [ injection E as <- <-; exact Hshape | ].
    now apply mi_shape0.
  - exact mi_count0.
  - intros s q [ E | Hs ].
    + injection E as <- _. auto.
    + destruct (mi_copies0 s q Hs) as (H1 & H2 & H3).
      split; [ auto | ]. split; [ exact H2 | ].
      intro Hq'. apply H3. now right.
  - simpl. lia.
  - intro Hz. lia.
  - intros q Hq. apply stat_dir in Hq. rewrite HS in Hq.
    destruct (path_eqb q d); [ discriminate | ].
    apply mi_dirs_back0. now apply stat_dir.
  - intros s q Hs. apply (named_more (map snd (cs ++ moves (printed st)))).
    + intros x Hx. simpl. now right.
    + now apply mi_named0.
Qed.

Lemma mkdir_not_file (p : path) (t t' : node) (c : string) :
  mkdir denied p t = Some t' -> stat p t <> Some (Some c).
Proof.
  unfold mkdir, stat.
  destruct (lookup p t) as [ [ d | es ] | ]; simpl; intros H E; discriminate.
Qed.

Lemma in_printed (st : progress) (more : list line) :
  forall l, In l (printed st) -> In l (printed st ++ more).
Proof. intros l H. apply in_or_app. now left. Qed.

(** One turn of the loop over the files of a group. *)
Lemma move_file_inv (k : string) (cs : list (path * path)) (st : progress)
    (p : path) (todo : list path) :
  mover_inv t0 all cs st (p :: todo) ->
  extension_key (name p) = k ->
  exists st' cs',
    move_file denied [k] st p = Some st' /\ mover_inv t0 all cs' st' todo.
Proof.
  intros I Hk. unfold move_file.
  destruct (path_eqb_spec (parent p) [k]) as [ Hpar | Hpar ].
  - eexists. exists cs. split; [ reflexivity | ].
    apply (inv_drop cs st _ [p] todo I); simpl; try reflexivity.
    + apply in_printed.
    + rewrite moves_app. simpl. apply app_nil_r.
    + intro Hz. split; [ exact Hz | ].
      intros q [ <- | [] ]. unfold in_place. now rewrite Hk.
  - destruct (ConflictFacts.resolve_conflict_spec (tree st) [k] p)
      as (d & Hd & Hfree & Hform).
    rewrite Hd.
    assert (Hshape : destination_of p d).
    { unfold destination_of. rewrite Hk.
      destruct Hform as [ -> | (_ & N & HN & -> & _) ].
      - rewrite ConflictFacts.parent_last, ConflictFacts.name_last. auto.
      - rewrite ConflictFacts.parent_last, ConflictFacts.name_last.
        split; [ reflexivity | right ]. exists N. auto. }
    assert (Hname : named t0 (map snd (cs ++ moves (printed st))) p d).
    { destruct Hform as [ -> | (Ho & N & HN & -> & Hlow) ].
      - left. apply ConflictFacts.name_last.
      - right. rewrite ConflictFacts.parent_last, ConflictFacts.name_last.
        split; [ exact (occupied_taken cs st _ k _ I Ho) | ].
        exists N. split; [ exact HN | ]. split; [ reflexivity | ].
        intros i Hi. exact (occupied_taken cs st _ k _ I (Hlow i Hi)). }
    destruct (shutil_move denied p d (tree st)) as [ t' | t' ] eqn:Emv.
    + destruct (move_spec denied p d (tree st) t' (mi_wf _ _ _ _ _ I) Hfree Emv)
        as (c & Hl & Hwf' & HS & Hperm).
      eexists. exists cs. split; [ reflexivity | ].
      apply (inv_move cs st _ p d c todo I); simpl; try reflexivity; auto.
      * now apply stat_none.
      * now apply stat_file.
      * apply in_printed.
      * rewrite moves_app. reflexivity.
    + destruct (raise_spec denied p d (tree st) t' (mi_wf _ _ _ _ _ I) Hfree Emv)
        as [ -> | (c & Hl & _ & _ & Hwf' & HS & Hperm) ].
      * eexists. exists cs. split; [ reflexivity | ].
        apply (inv_drop cs st _ [p] todo I); simpl; try reflexivity.
        -- apply in_printed.
        -- rewrite moves_app. simpl. apply app_nil_r.
        -- lia.
        -- intro Hz. lia.
      * eexists. exists ((p, d) :: cs). split; [ reflexivity | ].
        apply (inv_copy cs st _ p d c todo I); simpl; try reflexivity; auto.
        -- now apply stat_none.
        -- now apply stat_file.
        -- apply in_printed.
        -- apply in_or_app. right. now left.
        -- rewrite moves_app. simpl. apply app_nil_r.
Qed.

Lemma files_inv (k : string) (rest : list path) (files : list path) :
  forall cs st,
    (forall p, In p files -> extension_key (name p) = k) ->
    mover_inv t0 all cs st (files ++ rest) ->
    exists st' cs',
      for_each (move_file denied [k]) files st = Some st'
      /\ mover_inv t0 all cs' st' rest.
Proof.
  induction files as [ | p files IH ]; intros cs st Hk I.
  - exists st, cs. split; [ reflexivity | exact I ].
  - destruct (move_file_inv k cs st p (files ++ rest) I
                (Hk p (or_introl eq_refl)))
      as (st1 & cs1 & H1 & I1).
    destruct (IH cs1 st1 (fun q Hq => Hk q (or_intror Hq)) I1)
      as (st' & cs' & H' & I').
    exists st', cs'. split; [ | exact I' ]. simpl. now rewrite H1.
Qed.

(** One turn of the loop over the groups. *)
Lemma process_type_inv (k : string) (files rest : list path)
    (cs : list (path * path)) (st : progress) :
  (forall p, In p files -> extension_key (name p) = k) ->
  mover_inv t0 all cs st (files ++ rest) ->
  exists st' cs',
    process_type denied st (k, files) = Some st'
    /\ mover_inv t0 all cs' st' rest.
Proof.
  intros Hk I. unfold process_type.
  destruct (mkdir denied [k] (tree st)) as [ t' | ] eqn:Emk.
  - destruct (mkdir_spec denied [k] (tree st) t' (mi_wf _ _ _ _ _ I) Emk)
      as (Hwf' & HS & Hperm).
    apply (files_inv k rest files cs _ Hk).
    apply (inv_tree cs st _ (files ++ rest) I); simpl; try reflexivity; auto.
    + intros q c. rewrite HS.
      destruct (path_eqb_spec q [k]) as [ -> | _ ]; [ | tauto ].
      split; [ discriminate | ].
      intro H. exfalso. exact (mkdir_not_file _ _ _ c Emk H).
    + intros q Hq. apply stat_dir. apply stat_dir in Hq. rewrite HS.
      destruct (path_eqb q [k]); [ reflexivity | exact Hq ].
    + intros q Hq. apply stat_dir in Hq. rewrite HS in Hq.
      destruct (path_eqb_spec q [k]) as [ E | _ ];
        [ right; now rewrite E | left ].
      now apply stat_dir.
    + apply in_printed.
    + rewrite moves_app. simpl. apply app_nil_r.
  - eexists. exists cs. split; [ reflexivity | ].
    apply (inv_drop cs st _ files rest I); simpl; try reflexivity.
    + apply in_printed.
    + rewrite moves_app. simpl. apply app_nil_r.
    + lia.
    + intro Hz. split; [ lia | ].
      destruct files as [ | p files ]; [ intros q [] | simpl in Hz; lia ].
Qed.

(** The loop over the groups ends, with nothing left to do. *)
Lemma groups_inv (groups : list (string * list path)) :
  forall cs st,
    (forall k files p, In (k, files) groups -> In p files ->
                       extension_key (name p) = k) ->
    mover_inv t0 all cs st (concat (map snd groups)) ->
    exists st' cs',
      for_each (process_type denied) groups st = Some st'
      /\ mover_inv t0 all cs' st' [].
Proof.
  induction groups as [ | [ k files ] groups IH ]; intros cs st Hk I.
  - exists st, cs. split; [ reflexivity | exact I ].
  - simpl in I.
    destruct (process_type_inv k files _ cs st
                (fun p Hp => Hk k files p (or_introl eq_refl) Hp) I)
      as (st1 & cs1 & H1 & I1).
    destruct (IH cs1 st1 (fun k' f' p H Hp => Hk k' f' p (or_intror H) Hp) I1)
      as (st' & cs' & H' & I').
    exists st', cs'. split; [ | exact I' ].
    cbn [for_each]. now rewrite H1.
Qed.

Lemma inv_start (todo : list path) :
  wf t0 = true -> NoDup todo -> (forall p, In p todo <-> In p all) ->
  mover_inv t0 all []
    {| tree := t0; total_moved := 0; total_errors := 0;
       printed := [Scanning] |}
    todo.
Proof.
  intros Hwf Hnd Hall.
  constructor; simpl.
  - exact Hwf.
  - exact Hnd.
  - intros p Hp. now apply Hall.
  - intros p _ [].
  - intros q c. split; [ auto | ].
    intros [ [ H _ ] | (s & [] & _) ]. exact H.
  - intros s d [].
  - constructor.
  - intros s d q c [].
  - auto.
  - exists []. split; [ constructor | reflexivity ].
  - intros s d [].
  - reflexivity.
  - intros s d [].
  - lia.
  - intros _ q Hq Hnot. exfalso. apply Hnot. now apply Hall.
  - auto.
  - intros s d [].
Qed.

End MoverFacts.

(** ** What the transcript of a run tells *)

Section TraceFacts.

Import FS FSFacts.

Variable denied : path -> bool.
Variable t0 : node.
Variable all : list path.
Hypothesis all_files_of_t0 :
  forall p, In p all -> exists c, stat p t0 = Some (Some c).
Hypothesis t0_is_a_directory : is_dir [] t0 = true.

Lemma parent_is_dir (p : path) (k : string) (t : node) (c : string) :
  parent p = [k] -> lookup p t = Some (File c) -> is_dir [k] t = true.
Proof.
  intros Hpar Hl.
  assert (Hp : p <> []) by (intros ->; discriminate Hpar).
  rewrite (app_removelast_last EmptyString Hp) in Hl.
  fold (parent p) in Hl. rewrite Hpar, lookup_app in Hl.
  unfold is_dir.
  destruct (lookup [k] t) as [ [ d | es' ] | ]; [ | reflexivity | discriminate ].
  discriminate Hl.
Qed.

Lemma todo_is_a_file (cs : list (path * path)) (st : progress) (p : path)
    (todo : list path) :
  mover_inv t0 all cs st todo -> In p todo ->
  exists c, lookup p (tree st) = Some (File c).
Proof.
  intros I Hp.
  destruct (all_files_of_t0 p (mi_todo_all _ _ _ _ _ I p Hp)) as (c & Hc).
  exists c. apply stat_file. apply (mi_files _ _ _ _ _ I). left.
  split; [ exact Hc | ]. now apply (mi_todo_fresh _ _ _ _ _ I).
Qed.

Lemma reported_app (p : path) (l1 l2 : list line) :
  reported p l1 \/ reported p l2 -> reported p (l1 ++ l2).
Proof.
  unfold reported.
  intros [ [ H | [ (d & H) | H ] ] | [ H | [ (d & H) | H ] ] ];
    [ left | right; left; exists d | right; right
    | left | right; left; exists d | right; right ];
    apply in_or_app; auto.
Qed.

(** The lines the loop over the files prints. *)
Let of_a_file (l : line) : Prop :=
  match l with
  | Skipping _ | Moved _ _ | MoveError _ => True
  | _ => False
  end.

(** One file: skipped when in the folder, moved unless the host refuses. *)
Lemma move_file_step (k : string) (cs : list (path * path)) (st : progress)
    (p : path) (todo : list path) :
  mover_inv t0 all cs st (p :: todo) ->
  extension_key (name p) = k ->
  is_dir [k] (tree st) = true ->
  exists st' cs' more,
    move_file denied [k] st p = Some st'
    /\ mover_inv t0 all cs' st' todo
    /\ printed st' = printed st ++ more
    /\ Forall (justified denied) more
    /\ Forall of_a_file more
    /\ reported p more
    /\ (forall q, is_dir q (tree st) = true -> is_dir q (tree st') = true).
Proof.
  intros I Hk Hdir.
  destruct (move_file_inv denied t0 all all_files_of_t0 k cs st p todo I Hk)
    as (st' & cs' & Hstep & I').
  exists st', cs'. revert Hstep. unfold move_file.
  destruct (path_eqb_spec (parent p) [k]) as [ Hpar | Hpar ].
  - intro H. injection H as <-. exists [Skipping p]. simpl in *.
    split; [ reflexivity | ]. split; [ exact I' | ].
    split; [ reflexivity | ].
    split; [ constructor; [ | constructor ] | ].
    + simpl. unfold in_place. now rewrite Hk.
    + split; [ repeat constructor | ]. split; [ left; now left | auto ].
  - destruct (ConflictFacts.resolve_conflict_spec (tree st) [k] p)
      as (d & Hd & Hfree & Hform).
    rewrite Hd.
    assert (Hpd : parent d = [k]).
    { destruct Hform as [ -> | (_ & N & _ & -> & _) ];
        apply ConflictFacts.parent_last. }
    destruct (todo_is_a_file cs st p (p :: todo) I (or_introl eq_refl))
      as (c & Hc).
    assert (Hnot : ~ in_place p) by (unfold in_place; now rewrite Hk).
    destruct (shutil_move denied p d (tree st)) as [ t' | t' ] eqn:Emv.
    + intro H. injection H as <-. exists [Moved p d]. simpl in *.
      split; [ reflexivity | ]. split; [ exact I' | ].
      split; [ reflexivity | ].
      split; [ repeat constructor; exact Hnot | ].
      split; [ repeat constructor | ].
      split; [ right; left; exists d; now left | ].
      destruct (move_spec denied p d (tree st) t' (mi_wf _ _ _ _ _ I) Hfree Emv)
        as (c' & Hc' & _ & HS & _).
      intros q Hq. apply stat_dir. apply stat_dir in Hq. rewrite HS.
      apply stat_none in Hfree. apply stat_file in Hc'.
      destruct (path_eqb_spec q d) as [ -> | _ ]; [ congruence | ].
      destruct (path_eqb_spec q p) as [ -> | _ ]; [ congruence | exact Hq ].
    + intro H. injection H as <-. exists [MoveError p]. simpl in *.
      split; [ reflexivity | ]. split; [ exact I' | ].
      split; [ reflexivity | ].
      split; [ | split; [ repeat constructor | ] ].
      * constructor; [ | constructor ]. simpl.
        split; [ exact Hnot | ]. exists d.
        split; [ now rewrite Hk | ].
        apply (raise_refused denied p d (tree st) t' c
                 (mi_wf _ _ _ _ _ I) Hc Hfree); [ | exact Emv ].
        now rewrite Hpd.
      * split; [ right; right; now left | ].
        destruct (raise_spec denied p d (tree st) t' (mi_wf _ _ _ _ _ I)
                    Hfree Emv)
          as [ -> | (c' & _ & _ & _ & _ & HS & _) ]; [ auto | ].
        intros q Hq. apply stat_dir. apply stat_dir in Hq. rewrite HS.
        apply stat_none in Hfree.
        destruct (path_eqb_spec q d) as [ -> | _ ]; [ congruence | exact Hq ].
Qed.

Lemma files_step (k : string) (rest : list path) (files : list path) :
  forall cs st,
    (forall p, In p files -> extension_key (name p) = k) ->
    mover_inv t0 all cs st (files ++ rest) ->
    is_dir [k] (tree st) = true ->
    exists st' cs' more,
      for_each (move_file denied [k]) files st = Some st'
      /\ mover_inv t0 all cs' st' rest
      /\ printed st' = printed st ++ more
      /\ Forall (justified denied) more
      /\ Forall of_a_file more
      /\ (forall p, In p files -> reported p more)
      /\ (forall q, is_dir q (tree st) = true -> is_dir q (tree st') = true).
Proof.
  induction files as [ | p files IH ]; intros cs st Hk I Hdir.
  - exists st, cs, []. simpl. rewrite app_nil_r.
    split; [ reflexivity | ]. split; [ exact I | ].
    split; [ reflexivity | ]. split; [ constructor | ].
    split; [ constructor | ].
    split; [ intros p [] | auto ].
  - destruct (move_file_step k cs st p (files ++ rest) I
                (Hk p (or_introl eq_refl)) Hdir)
      as (st1 & cs1 & more1 & H1 & I1 & P1 & F1 & G1 & S1 & D1).
    destruct (IH cs1 st1 (fun q Hq => Hk q (or_intror Hq)) I1 (D1 _ Hdir))
      as (st' & cs' & more2 & H2 & I2 & P2 & F2 & G2 & S2 & D2).
    exists st', cs', (more1 ++ more2). cbn [for_each]. rewrite H1.
    split; [ exact H2 | ]. split; [ exact I2 | ].
    split; [ now rewrite P2, P1, app_assoc | ].
    split; [ apply Forall_app; auto | ].
    split; [ apply Forall_app; auto | ]. split; [ | auto ].
    intros q [ <- | Hq ]; apply reported_app; [ left | right ]; auto.
Qed.

(** Why a folder is not made: a file has its name, or the host refuses. *)
Let no_folder (k : string) : Prop :=
  (exists c, lookup [k] t0 = Some (File c)) \/ denied [k] = true.

(** One group: its folder is made or reported, and then its files. *)
Lemma process_type_step (k : string) (files rest : list path)
    (cs : list (path * path)) (st : progress) :
  (forall p, In p files -> extension_key (name p) = k) ->
  mover_inv t0 all cs st (files ++ rest) ->
  exists st' cs' more,
    process_type denied st (k, files) = Some st'
    /\ mover_inv t0 all cs' st' rest
    /\ printed st' = printed st ++ more
    /\ Forall (justified denied) more
    /\ (forall q, is_dir q (tree st) = true -> is_dir q (tree st') = true)
    /\ (forall k', In (FolderError k') more -> k' = k /\ no_folder k)
    /\ (In (FolderError k) more
        /\ (forall p, In p files -> parent p <> [k])
        \/ is_dir [k] (tree st') = true
           /\ forall p, In p files -> reported p more).
Proof.
  intros Hk I.
  destruct (process_type_inv denied t0 all all_files_of_t0 k files rest cs st
              Hk I)
    as (st' & cs' & Hstep & I').
  revert Hstep. unfold process_type.
  destruct (mkdir denied [k] (tree st)) as [ t' | ] eqn:Emk.
  - intros _. clear I'.
    destruct (mkdir_spec denied [k] (tree st) t' (mi_wf _ _ _ _ _ I) Emk)
      as (Hwf' & HS & Hperm).
    assert (Hmono : forall q, is_dir q (tree st) = true -> is_dir q t' = true).
    { intros q Hq. apply stat_dir. apply stat_dir in Hq. rewrite HS.
      destruct (path_eqb q [k]); [ reflexivity | exact Hq ]. }
    assert (Hnew : is_dir [k] t' = true).
    { apply stat_dir. rewrite HS.
      destruct (path_eqb_spec [k] [k]); [ reflexivity | congruence ]. }
    set (st1 := {| tree := t';
                   total_moved := total_moved st;
                   total_errors := total_errors st;
                   printed := printed st
                              ++ [Processing k (List.length files)] |}).
    assert (I1 : mover_inv t0 all cs st1 (files ++ rest)).
    { apply (inv_tree t0 all cs st st1 (files ++ rest) I); simpl;
        try reflexivity; auto.
      - intros q c. rewrite HS.
        destruct (path_eqb_spec q [k]) as [ -> | _ ]; [ | tauto ].
        split; [ discriminate | ].
        intro H. exfalso. exact (mkdir_not_file denied _ _ _ c Emk H).
      - intros q Hq. apply stat_dir in Hq. rewrite HS in Hq.
        destruct (path_eqb_spec q [k]) as [ E | _ ];
          [ right; now rewrite E | left ].
        now apply stat_dir.
      - apply in_printed.
      - rewrite moves_app. simpl. apply app_nil_r. }
    destruct (files_step k rest files cs st1 Hk I1 Hnew)
      as (st2 & cs2 & more & H2 & I2 & P2 & F2 & G2 & S2 & D2).
    exists st2, cs2, (Processing k (List.length files) :: more).
    split; [ exact H2 | ]. split; [ exact I2 | ].
    split; [ rewrite P2; simpl; now rewrite <- app_assoc | ].
    split; [ constructor; [ exact Logic.I | exact F2 ] | ].
    split; [ intros q Hq; apply D2; simpl; auto | ].
    split.
    + intros k' [ H | H ]; [ discriminate | exfalso ].
      exact (proj1 (Forall_forall _ _) G2 _ H).
    + right. split; [ apply D2; exact Hnew | ].
      intros p Hp.
      apply (reported_app p [Processing k (List.length files)] more).
      right. auto.
  - intro H. injection H as <-. eexists. exists cs', [FolderError k]. simpl.
    split; [ reflexivity | ]. split; [ exact I' | ].
    split; [ reflexivity | ].
    split; [ constructor; [ exact Logic.I | constructor ] | ].
    split; [ auto | ].
    assert (Hcause : no_folder k).
    { assert (Hroot := mi_dirs _ _ _ _ _ I [] t0_is_a_directory).
      revert Emk. unfold mkdir, no_folder.
      destruct (lookup [k] (tree st)) as [ [ d | es' ] | ] eqn:El;
        [ intros _ | discriminate | ].
      * left. exists d. apply (proj1 (stat_file [k] t0 d)).
        apply (proj2 (stat_file _ _ _)) in El.
        apply (mi_files _ _ _ _ _ I) in El.
        destruct El as [ (El & _) | (s0 & Hs0 & _) ]; [ exact El | exfalso ].
        destruct (mi_shape _ _ _ _ _ I s0 [k] Hs0) as (Hp0 & _).
        discriminate Hp0.
      * destruct (denied [k]); [ auto | ].
        change (parent [k]) with (@nil string). rewrite Hroot. discriminate. }
    split; [ intros k' [ E | [] ]; injection E as <-; auto | ].
    left. split; [ now left | ].
    intros p Hp Hpar.
    destruct (todo_is_a_file cs st p (files ++ rest) I
                (in_or_app _ _ _ (or_introl Hp))) as (c & Hc).
    assert (Hdir := parent_is_dir p k (tree st) c Hpar Hc).
    revert Emk. unfold mkdir. unfold is_dir in Hdir.
    destruct (lookup [k] (tree st)) as [ [ d | es' ] | ]; discriminate.
Qed.

(** All the groups. *)
Lemma groups_step (groups : list (string * list path)) :
  forall cs st,
    (forall k files p, In (k, files) groups -> In p files ->
                       extension_key (name p) = k) ->
    mover_inv t0 all cs st (concat (map snd groups)) ->
    exists st' cs' more,
      for_each (process_type denied) groups st = Some st'
      /\ mover_inv t0 all cs' st' []
      /\ printed st' = printed st ++ more
      /\ Forall (justified denied) more
      /\ (forall q, is_dir q (tree st) = true -> is_dir q (tree st') = true)
      /\ (forall k, In (FolderError k) more -> no_folder k)
      /\ (forall k files, In (k, files) groups ->
            In (FolderError k) more
            /\ (forall p, In p files -> parent p <> [k])
            \/ is_dir [k] (tree st') = true
               /\ forall p, In p files -> reported p more).
Proof.
  induction groups as [ | [ k files ] groups IH ]; intros cs st Hk I.
  - exists st, cs, []. simpl. rewrite app_nil_r.
    split; [ reflexivity | ]. split; [ exact I | ].
    split; [ reflexivity | ]. split; [ constructor | ].
    split; [ auto | ]. split; [ intros k [] | intros k files [] ].
  - simpl in I.
    destruct (process_type_step k files _ cs st
                (fun p Hp => Hk k files p (or_introl eq_refl) Hp) I)
      as (st1 & cs1 & more1 & H1 & I1 & P1 & F1 & D1 & C1 & K1).
    destruct (IH cs1 st1 (fun k' f' p H Hp => Hk k' f' p (or_intror H) Hp) I1)
      as (st' & cs' & more2 & H2 & I2 & P2 & F2 & D2 & C2 & K2).
    exists st', cs', (more1 ++ more2). cbn [for_each]. rewrite H1.
    split; [ exact H2 | ]. split; [ exact I2 | ].
    split; [ now rewrite P2, P1, app_assoc | ].
    split; [ apply Forall_app; auto | ].
    split; [ auto | ]. split.
    + intros k' H. apply in_app_or in H. destruct H as [ H | H ]; [ | auto ].
      destruct (C1 k' H) as (-> & Hc). exact Hc.
    + intros k' f' [ E | Hin ].
      * injection E as <- <-.
        destruct K1 as [ (K & N) | (K & R) ]; [ left | right ].
        -- split; [ apply in_or_app; now left | exact N ].
        -- split; [ auto | ]. intros p Hp. apply reported_app. left. auto.
      * destruct (K2 k' f' Hin) as [ (K & N) | (K & R) ]; [ left | right ].
        -- split; [ apply in_or_app; now right | exact N ].
        -- split; [ exact K | ]. intros p Hp. apply reported_app. right. auto.
Qed.

End TraceFacts.

(** ** A whole run *)

Section RunFacts.

Import FS FSFacts.

Variable denied : path -> bool.

Lemma in_moves (s d : path) (out : list line) :
  In (Moved s d) out <-> In (s, d) (moves out).
Proof.
  induction out as [ | l out IH ]; simpl; [ tauto | ].
  destruct l; simpl; rewrite <- IH;
    try (split; [ intros [ H | H ]; [ discriminate | exact H ] | auto ]).
  split.
  - intros [ H | H ]; [ injection H as <- <-; auto | auto ].
  - intros [ H | H ]; [ injection H as <- <-; auto | auto ].
Qed.

Lemma in_group (l : list path) (p : path) :
  In p l ->
  exists files,
    In (extension_key (name p), files) (group_files l) /\ In p files.
Proof.
  intro Hp.
  apply (Permutation_in _ (Permutation_sym (GroupFacts.group_files_perm l)))
    in Hp.
  apply in_concat in Hp. destruct Hp as (files & Hf & Hp).
  apply in_map_iff in Hf. destruct Hf as ([ k f ] & E & Hin).
  simpl in E. subst f. exists files.
  now rewrite (GroupFacts.group_files_keyed l k files p Hin Hp).
Qed.

Lemma justified_in (l : line) (out : list line) :
  Forall (justified denied) out -> In l out -> justified denied l.
Proof. intros F H. exact (proj1 (Forall_forall _ _) F l H). Qed.

(** The lines that close a transcript, after the Mover's. *)
Let closing (l : line) : Prop :=
  match l with
  | RemovedDirectory _ | RemovedTotal _ | Complete _ _ => True
  | _ => False
  end.

Lemma closing_lines (removed_dirs : list path) (m e : nat) (l : line) :
  In l (map RemovedDirectory removed_dirs
        ++ (if (0 <? List.length removed_dirs)%nat
            then [RemovedTotal (List.length removed_dirs)] else [])
        ++ [Complete m e]) ->
  closing l.
Proof.
  intro H. apply in_app_or in H. destruct H as [ H | H ].
  - apply in_map_iff in H. destruct H as (x & <- & _). exact Logic.I.
  - apply in_app_or in H. destruct H as [ H | [ <- | [] ] ];
      [ | exact Logic.I ].
    destruct (0 <? _)%nat; [ destruct H as [ <- | [] ]; exact Logic.I | ].
    destruct H.
Qed.

(** The run on a directory that holds files: the Mover's loops end in a
    state that satisfies the invariant with nothing left to do, the Cleaner
    then works on the tree of that state, and the transcript is the Mover's
    lines followed by the closing lines. *)
Lemma run_spec (es : entries) :
  wf (Dir es) = true ->
  get_all_files [] (Dir es) <> [] ->
  let all := get_all_files [] (Dir es) in
  let groups := group_files all in
  let keys := map fst groups in
  exists st cs r,
    organize_files denied (Present (Dir es)) = Some r
    /\ mover_inv (Dir es) all cs st []
    /\ after r = Some (cleaned denied keys [] (tree st))
    /\ removed r = removals denied keys [] (tree st)
    /\ moved r = total_moved st
    /\ errors r = total_errors st
    /\ (forall l, In l (printed st) -> In l (output r))
    /\ (forall l, In l (output r) -> In l (printed st) \/ closing l)
    /\ Forall (justified denied) (printed st)
    /\ (forall k, In (FolderError k) (printed st) ->
          (exists c, lookup [k] (Dir es) = Some (File c))
          \/ denied [k] = true)
    /\ (forall k files, In (k, files) groups ->
          In (FolderError k) (printed st)
          /\ (forall p, In p files -> parent p <> [k])
          \/ is_dir [k] (tree st) = true
             /\ forall p, In p files -> reported p (printed st)).
Proof.
  intros Hwf Hne all groups keys.
  assert (Hall : forall p, In p all -> exists c, stat p (Dir es) = Some (Some c)).
  { intros p Hp. apply (ScanFacts.scan_top (Dir es) p Hwf) in Hp.
    destruct Hp as (_ & c & Hc). exists c. now apply stat_file. }
  assert (Hperm := GroupFacts.group_files_perm all).
  assert (I0 : mover_inv (Dir es) all []
                 {| tree := Dir es; total_moved := 0; total_errors := 0;
                    printed := [Scanning] |}
                 (concat (map snd (group_files all)))).
  { apply inv_start; [ exact Hwf | | ].
    - apply (Permutation_NoDup (Permutation_sym Hperm)).
      now apply ScanFacts.scan_NoDup.
    - intro p. split; intro H.
      + now apply (Permutation_in _ Hperm).
      + now apply (Permutation_in _ (Permutation_sym Hperm)). }
  destruct (groups_step denied (Dir es) all Hall eq_refl (group_files all) _ _
              (GroupFacts.group_files_keyed all) I0)
    as (st & cs & more & Hrun & I & P & F & _ & C & K).
  simpl in P.
  exists st, cs. unfold organize_files. fold all. subst keys groups.
  assert (Hne' : all <> []) by exact Hne.
  clearbody all. clear Hne.
  destruct all as [ | a l ]; [ congruence | ].
  rewrite Hrun.
  rewrite (cleanup_empty_dirs_spec denied _ (tree st) (mi_wf _ _ _ _ _ I)).
  eexists. split; [ reflexivity | ]. cbn [after removed moved errors output].
  split; [ exact I | ]. do 4 (split; [ reflexivity | ]).
  split; [ intros x Hx; apply in_or_app; now left | ].
  split.
  { intros x Hx. apply in_app_or in Hx. destruct Hx as [ Hx | Hx ];
      [ now left | right ].
    exact (closing_lines _ _ _ _ Hx). }
  split; [ rewrite P; constructor; [ exact Logic.I | exact F ] | ].
  split.
  - intros k Hk. rewrite P in Hk. destruct Hk as [ Hk | Hk ];
      [ discriminate | ]. exact (C k Hk).
  - intros k files Hin.
    destruct (K k files Hin) as [ (E & N) | (D & R) ]; [ left | right ].
    + split; [ rewrite P; now right | exact N ].
    + split; [ exact D | ]. intros p Hp. rewrite P.
      apply (reported_app p [Scanning] more). right. auto.
Qed.

Lemma excluded_dir_stays (exclude : list string) (t : node) (k : string) :
  wf t = true -> is_dir [k] t = true -> In k exclude ->
  is_dir [k] (cleaned denied exclude [] t) = true.
Proof.
  intros Hwf Hdir Hin. unfold is_dir in Hdir.
  destruct (lookup [k] t) as [ [ d | es' ] | ] eqn:El; try discriminate.
  apply (cleaned_is_dir denied exclude t [] [k] (Dir es') Hwf El eq_refl).
  right. rewrite removable_dir.
  assert (E : existsb (String.eqb (name ([] ++ [k]))) exclude = true).
  { apply existsb_exists. exists k. split; [ exact Hin | ].
    apply String.eqb_refl. }
  now rewrite E.
Qed.


Lemma not_moved (q : path) (out : list line) :
  (forall d, ~ In (Moved q d) out) <-> ~ In q (map fst (moves out)).
Proof.
  split.
  - intros H Hin. apply in_map_iff in Hin.
    destruct Hin as ([ s d ] & E & Hin). simpl in E. subst s.
    apply (H d). now apply in_moves.
  - intros H d Hin. apply H. apply in_map_iff. exists (q, d).
    split; [ reflexivity | now apply in_moves ].
Qed.

(** C2: a run on a valid directory loses no file: every file is found
    afterwards with its data, where it was or where the transcript says it
    was moved, and every file found afterwards is a file of before that
    stayed, was moved there, or is the copy that a failed move left of it.
    The file data after the run are those before it and those of such
    copies, no more of them than errors were counted; when no move is
    reported as failed, the data and the number of files are unchanged. *)
Theorem run_keeps_every_file (es : entries) :
  wf (Dir es) = true ->
  exists r t',
    organize_files denied (Present (Dir es)) = Some r
    /\ after r = Some t'
    /\ (forall q c,
          lookup q (Dir es) = Some (File c) ->
          exists q',
            lookup q' t' = Some (File c)
            /\ (q' = q \/ In (Moved q q') (output r)))
    /\ (forall q c,
          lookup q t' = Some (File c) ->
          lookup q (Dir es) = Some (File c)
          \/ exists s,
               lookup s (Dir es) = Some (File c)
               /\ (In (Moved s q) (output r) \/ In (MoveError s) (output r)))
    /\ (exists copied,
          Permutation (contents t') (copied ++ contents (Dir es))
          /\ List.length copied <= errors r)
    /\ count_files (Dir es) <= count_files t' <= count_files (Dir es) + errors r
    /\ ((forall p, ~ In (MoveError p) (output r)) ->
        Permutation (contents t') (contents (Dir es))
        /\ count_files t' = count_files (Dir es)).
Proof.
  intro Hwf.
  destruct (get_all_files [] (Dir es)) as [ | a l ] eqn:Eall.
  - rewrite (organize_files_empty_scan denied es Eall).
    eexists. exists (Dir es). split; [ reflexivity | ].
    split; [ reflexivity | ]. split; [ eauto | ]. split; [ auto | ].
    split; [ exists []; split; [ reflexivity | simpl; lia ] | ].
    split; [ simpl; lia | ]. intros _. split; reflexivity.
  - destruct (run_spec es Hwf)
      as (st & cs & r & Hr & I & Ha & _ & _ & He & Hsub & _);
      [ congruence | ].
    exists r. eexists. split; [ exact Hr | ]. split; [ exact Ha | ].
    assert (Hwfst := mi_wf _ _ _ _ _ I).
    destruct (mi_contents _ _ _ _ _ I) as (copied & HF & HP).
    assert (Hlen : List.length copied <= errors r).
    { rewrite He, <- (Forall2_length HF). apply (mi_failed _ _ _ _ _ I). }
    rewrite <- (cleaned_contents denied
                  (map fst (group_files (get_all_files [] (Dir es)))) (tree st) [])
      in HP.
    assert (Hcount := Permutation_length HP). rewrite length_app in Hcount.
    split; [ | split; [ | split; [ | split ] ] ].
    + intros q c Hq. apply stat_file in Hq.
      destruct (in_dec path_eq_dec q (map fst (moves (printed st))))
        as [ Hin | Hout' ].
      * apply in_map_iff in Hin. destruct Hin as ([ s d ] & E & Hin).
        simpl in E. subst s.
        exists d. split; [ | right; apply Hsub; now apply in_moves ].
        apply stat_file, cleaned_stat_file; [ exact Hwfst | ].
        apply (mi_files _ _ _ _ _ I). right. exists q.
        split; [ apply in_or_app; now right | exact Hq ].
      * exists q. split; [ | now left ].
        apply stat_file, cleaned_stat_file; [ exact Hwfst | ].
        apply (mi_files _ _ _ _ _ I). left. auto.
    + intros q c Hq. apply stat_file in Hq.
      apply cleaned_stat_file in Hq; [ | exact Hwfst ].
      apply (mi_files _ _ _ _ _ I) in Hq.
      destruct Hq as [ (Hq & _) | (s & Hs & Hs0) ];
        [ left; now apply stat_file | right ].
      exists s. split; [ now apply stat_file | ].
      apply in_app_or in Hs. destruct Hs as [ Hs | Hs ].
      * right. apply Hsub. apply (mi_copies _ _ _ _ _ I s q Hs).
      * left. apply Hsub. now apply in_moves.
    + exists copied. split; [ exact HP | exact Hlen ].
    + unfold count_files. lia.
    + intro Hno.
      assert (Hcs : cs = []).
      { destruct cs as [ | [ s d ] cs' ]; [ reflexivity | exfalso ].
        apply (Hno s). apply Hsub.
        apply (mi_copies _ _ _ _ _ I s d). now left. }
      subst cs. inversion HF. subst copied.
      split; [ exact HP | ]. unfold count_files. simpl in Hcount. exact Hcount.
Qed.


(** C9: the Cleaner excludes by name.  A directory anywhere in the tree
    whose name is in the excluded set stays a directory and is not on the list
    of removals, empty or not; so in a run, every directory of the tree whose
    name is the key of some scanned file is still there afterwards. *)
Theorem cleaner_skips_key_named_dirs (es : entries) :
  wf (Dir es) = true ->
  (forall exclude t p,
      wf t = true -> p <> [] -> is_dir p t = true ->
      In (name p) exclude ->
      is_dir p (fst (cleanup_empty_dirs denied exclude t)) = true
      /\ ~ In p (snd (cleanup_empty_dirs denied exclude t)))
  /\ exists r t',
       organize_files denied (Present (Dir es)) = Some r
       /\ after r = Some t'
       /\ forall p f,
            p <> [] -> is_dir p (Dir es) = true ->
            In f (get_all_files [] (Dir es)) ->
            name p = extension_key (name f) ->
            is_dir p t' = true /\ ~ In p (removed r).
Proof.
  intro Hwf.
  assert (Hclean : forall exclude t p,
            wf t = true -> p <> [] -> is_dir p t = true ->
            In (name p) exclude ->
            is_dir p (cleaned denied exclude [] t) = true
            /\ ~ In p (removals denied exclude [] t)).
  { intros exclude t p Hwt Hp Hdir Hname.
    unfold is_dir in Hdir.
    destruct (lookup p t) as [ [ d | es' ] | ] eqn:Hl; try discriminate.
    assert (Hstay : removable denied exclude p (Dir es') = false).
    { rewrite removable_dir.
      assert (Hex : existsb (String.eqb (name p)) exclude = true).
      { apply existsb_exists. exists (name p).
        split; [ exact Hname | apply String.eqb_refl ]. }
      now rewrite Hex. }
    split.
    - apply (cleaned_is_dir denied exclude t [] p (Dir es') Hwt Hl eq_refl).
      now right.
    - intro Hin.
      destruct (removals_inv denied exclude t [] p Hwt Hin)
        as (p0 & x & _ & E & Hx & Hgo).
      simpl in E. subst p0. congruence. }
  split.
  - intros exclude t p Hwt Hp Hdir Hname.
    rewrite (cleanup_empty_dirs_spec denied exclude t Hwt). cbn [fst snd].
    now apply Hclean.
  - destruct (get_all_files [] (Dir es)) as [ | a l ] eqn:Eall.
    + rewrite (organize_files_empty_scan denied es Eall).
      eexists. exists (Dir es). split; [ reflexivity | ].
      split; [ reflexivity | ]. intros p f _ _ [].
    + destruct (run_spec es Hwf) as (st & cs & r & Hr & I & Ha & Hrm & _);
        [ congruence | ].
      exists r. eexists. split; [ exact Hr | ]. split; [ exact Ha | ].
      intros p f Hp Hdir Hf Hname. rewrite Hrm.
      apply Hclean; [ apply (mi_wf _ _ _ _ _ I) | exact Hp | | ].
      * now apply (mi_dirs _ _ _ _ _ I).
      * rewrite Hname. apply GroupFacts.group_files_keys.
        rewrite Eall. exact Hf.
Qed.

(** Whatever the tree, the loops of the Mover end. *)
Lemma move_file_total (dest_folder : path) (st : progress) (p : path) :
  exists st', move_file denied dest_folder st p = Some st'.
Proof.
  unfold move_file.
  destruct (path_eqb (parent p) dest_folder); [ eauto | ].
  destruct (ConflictFacts.resolve_conflict_spec (tree st) dest_folder p)
    as (d & Hd & _).
  rewrite Hd. destruct (shutil_move denied p d (tree st)); eauto.
Qed.

Lemma files_total (dest_folder : path) (files : list path) :
  forall st, exists st', for_each (move_file denied dest_folder) files st = Some st'.
Proof.
  induction files as [ | p files IH ]; intro st; simpl; [ eauto | ].
  destruct (move_file_total dest_folder st p) as (st1 & H1).
  rewrite H1. apply IH.
Qed.

Lemma process_type_total (st : progress) (group : string * list path) :
  exists st', process_type denied st group = Some st'.
Proof.
  destruct group as [ k files ]. unfold process_type.
  destruct (mkdir denied [k] (tree st)); [ apply files_total | eauto ].
Qed.

Lemma groups_total (groups : list (string * list path)) :
  forall st, exists st', for_each (process_type denied) groups st = Some st'.
Proof.
  induction groups as [ | g groups IH ]; intro st; simpl; [ eauto | ].
  destruct (process_type_total st g) as (st1 & H1).
  rewrite H1. apply IH.
Qed.

(** C7: when the folder of a group cannot be created, the group costs one
    error per file and nothing else: the tree, the count of moves and the
    moves on record are as before, and the loop goes on with the remaining
    groups from there, to its end. *)
Theorem folder_failure_skips_group (st : progress) (file_type : string)
    (files : list path) (rest : list (string * list path)) :
  mkdir denied [file_type] (tree st) = None ->
  exists st' final,
    process_type denied st (file_type, files) = Some st'
    /\ tree st' = tree st
    /\ total_moved st' = total_moved st
    /\ total_errors st' = total_errors st + List.length files
    /\ printed st' = printed st ++ [FolderError file_type]
    /\ for_each (process_type denied) rest st' = Some final
    /\ for_each (process_type denied) ((file_type, files) :: rest) st
       = Some final.
Proof.
  intro Hmk.
  set (st' := {| tree := tree st;
                 total_moved := total_moved st;
                 total_errors := total_errors st + List.length files;
                 printed := printed st ++ [FolderError file_type] |}).
  assert (Hstep : process_type denied st (file_type, files) = Some st').
  { unfold process_type. now rewrite Hmk. }
  destruct (groups_total rest st') as (final & Hfinal).
  exists st', final. split; [ exact Hstep | ].
  do 4 (split; [ reflexivity | ]). split; [ exact Hfinal | ].
  cbn [for_each]. now rewrite Hstep.
Qed.

End RunFacts.

Lemma run_keeps_every_file_witness :
  let host := fun p => FS.path_eqb p ["sub"; "b.txt"] in
  exists r t',
    organize_files host (Present (Dir (scenario "0" "1" "2"))) = Some r
    /\ after r = Some t'
    /\ (forall q c,
          FS.lookup q (Dir (scenario "0" "1" "2")) = Some (File c) ->
          exists q',
            FS.lookup q' t' = Some (File c)
            /\ (q' = q \/ In (Moved q q') (output r)))
    /\ FS.count_files (Dir (scenario "0" "1" "2")) <= FS.count_files t'
       <= FS.count_files (Dir (scenario "0" "1" "2")) + errors r
    /\ ((forall p, ~ In (MoveError p) (output r)) ->
        FS.count_files t' = FS.count_files (Dir (scenario "0" "1" "2"))).
Proof.
  intro host.
  destruct (run_keeps_every_file host (scenario "0" "1" "2") eq_refl)
    as (r & t' & Hr & Ha & Hkept & _ & _ & Hcount & Hsame).
  exists r, t'. split; [ exact Hr | ]. split; [ exact Ha | ].
  split; [ exact Hkept | ]. split; [ exact Hcount | ].
  intro Hno. exact (proj2 (Hsame Hno)).
Defined.

(** The claim of C2 as it is written fails.  On a host that does not let
    [sub/a.txt] leave its directory (a directory that may not be written),
    [os.rename] raises, [shutil.move] copies the file into [TXT] and then
    cannot unlink the source: the move is reported as failed, and the file is
    at both places, two files where there was one. *)
Lemma failed_move_leaves_a_copy :
  let host := fun p => FS.path_eqb p ["sub"; "a.txt"] in
  let es := [("sub", Dir [("a.txt", File "A")])] in
  FS.wf (Dir es) = true
  /\ exists r t',
       organize_files host (Present (Dir es)) = Some r
       /\ after r = Some t'
       /\ output r = [Scanning; Processing "TXT" 1; MoveError ["sub"; "a.txt"];
                      Complete 0 1]
       /\ t' = Dir [("sub", Dir [("a.txt", File "A")]);
                    ("TXT", Dir [("a.txt", File "A")])]
       /\ FS.count_files (Dir es) = 1
       /\ FS.count_files t' = 2.
Proof.
  split; [ reflexivity | ].
  eexists. eexists. split; [ vm_compute; reflexivity | ].
  repeat split.
Qed.


Lemma cleaner_skips_key_named_dirs_witness :
  let es := [("x.pdf", File "X"); ("sub", Dir [("PDF", Dir [])])] in
  exists r t',
    organize_files permissive (Present (Dir es)) = Some r
    /\ after r = Some t'
    /\ forall p f,
         p <> [] -> FS.is_dir p (Dir es) = true ->
         In f (get_all_files [] (Dir es)) ->
         FS.name p = extension_key (FS.name f) ->
         FS.is_dir p t' = true /\ ~ In p (removed r).
Proof.
  intro es. apply (proj2 (cleaner_skips_key_named_dirs permissive es eq_refl)).
Defined.

Lemma folder_failure_skips_group_witness :
  let st := {| tree := Dir [("a.txt", File "A"); ("TXT", File "T");
                            ("b.pdf", File "P")];
               total_moved := 0; total_errors := 0; printed := [Scanning] |} in
  exists st' final,
    process_type permissive st ("TXT", [["a.txt"]]) = Some st'
    /\ tree st' = tree st
    /\ total_moved st' = total_moved st
    /\ total_errors st' = total_errors st + 1
    /\ printed st' = printed st ++ [FolderError "TXT"]
    /\ for_each (process_type permissive)
         [("NO_EXTENSION", [["TXT"]]); ("PDF", [["b.pdf"]])] st' = Some final
    /\ for_each (process_type permissive)
         [("TXT", [["a.txt"]]); ("NO_EXTENSION", [["TXT"]]);
          ("PDF", [["b.pdf"]])] st = Some final.
Proof.
  intro st.
  apply (folder_failure_skips_group permissive st "TXT" [["a.txt"]]
           [("NO_EXTENSION", [["TXT"]]); ("PDF", [["b.pdf"]])]).
  reflexivity.
Defined.

(** The same failure in a whole run: [a.txt] stays where it is and counts
    as the one error, the other two groups are processed. *)
Example folder_failure_run :
  organize_files permissive
    (Present (Dir [("a.txt", File "A"); ("TXT", File "T"); ("b.pdf", File "P")]))
  = Some {| after := Some (Dir [("a.txt", File "A");
                                ("NO_EXTENSION", Dir [("TXT", File "T")]);
                                ("PDF", Dir [("b.pdf", File "P")])]);
            moved := 2; errors := 1; removed := [];
            output := [Scanning; FolderError "TXT";
                       Processing "NO_EXTENSION" 1;
                       Moved ["TXT"] ["NO_EXTENSION"; "TXT"];
                       Processing "PDF" 1;
                       Moved ["b.pdf"] ["PDF"; "b.pdf"];
                       Complete 2 1] |}.
Proof. reflexivity. Qed.

(** ** A second run *)

Section SecondRun.

Import FS FSFacts.

Variable denied : path -> bool.

Lemma skip_files (k : string) (files : list path) :
  forall st,
    (forall p, In p files -> parent p = [k]) ->
    exists st',
      for_each (move_file denied [k]) files st = Some st'
      /\ tree st' = tree st
      /\ total_moved st' = total_moved st
      /\ total_errors st' = total_errors st.
Proof.
  induction files as [ | p files IH ]; intros st Hk; simpl; [ eauto | ].
  unfold move_file at 1.
  destruct (path_eqb_spec (parent p) [k]) as [ _ | Hne ];
    [ | exfalso; apply Hne, Hk; now left ].
  destruct (IH {| tree := tree st;
                  total_moved := total_moved st;
                  total_errors := total_errors st;
                  printed := printed st ++ [Skipping p] |}
              (fun q Hq => Hk q (or_intror Hq)))
    as (st' & H' & Ht & Hm & He).
  exists st'. simpl in *. auto.
Qed.

(** A group whose files are all in its folder already. *)
Lemma organized_group (st : progress) (k : string) (files : list path) :
  files <> [] ->
  (forall p, In p files ->
             parent p = [k] /\ exists c, lookup p (tree st) = Some (File c)) ->
  exists st',
    process_type denied st (k, files) = Some st'
    /\ tree st' = tree st
    /\ total_moved st' = total_moved st
    /\ total_errors st' = total_errors st.
Proof.
  intros Hne Hfiles. unfold process_type.
  destruct files as [ | p files ]; [ congruence | ].
  destruct (Hfiles p (or_introl eq_refl)) as (Hpar & c & Hc).
  assert (Hdir := parent_is_dir p k (tree st) c Hpar Hc).
  unfold mkdir. unfold is_dir in Hdir.
  destruct (lookup [k] (tree st)) as [ [ d | es' ] | ]; try discriminate.
  destruct (skip_files k (p :: files)
              {| tree := tree st;
                 total_moved := total_moved st;
                 total_errors := total_errors st;
                 printed := printed st
                            ++ [Processing k (List.length (p :: files))] |})
    as (st' & H' & Ht & Hm & He).
  { intros q Hq. now apply Hfiles. }
  exists st'. simpl in *. auto.
Qed.

Lemma organized_groups (groups : list (string * list path)) :
  forall st,
    (forall k files, In (k, files) groups ->
       files <> []
       /\ forall p, In p files ->
            parent p = [k] /\ exists c, lookup p (tree st) = Some (File c)) ->
    exists st',
      for_each (process_type denied) groups st = Some st'
      /\ tree st' = tree st
      /\ total_moved st' = total_moved st
      /\ total_errors st' = total_errors st.
Proof.
  induction groups as [ | [ k files ] groups IH ]; intros st Hg;
    [ simpl; eauto | ].
  destruct (Hg k files (or_introl eq_refl)) as [ Hne Hfiles ].
  destruct (organized_group st k files Hne Hfiles) as (st1 & H1 & Ht & Hm & He).
  destruct (IH st1) as (st' & H' & Ht' & Hm' & He').
  { intros k' files' Hin. rewrite Ht. apply Hg. now right. }
  exists st'. cbn [for_each]. rewrite H1.
  split; [ exact H' | ]. repeat split; congruence.
Qed.

(** On a tree whose files are all in place, a run moves nothing and counts
    no error. *)
Lemma organized_run (es : entries) :
  wf (Dir es) = true ->
  (forall q, In q (get_all_files [] (Dir es)) -> in_place q) ->
  exists r,
    organize_files denied (Present (Dir es)) = Some r
    /\ moved r = 0 /\ errors r = 0.
Proof.
  intros Hwf Hplace.
  destruct (get_all_files [] (Dir es)) as [ | a l ] eqn:Eall.
  - rewrite (organize_files_empty_scan denied es Eall). eauto.
  - unfold organize_files. rewrite Eall. rewrite <- Eall.
    destruct (organized_groups (group_files (get_all_files [] (Dir es)))
                {| tree := Dir es; total_moved := 0; total_errors := 0;
                   printed := [Scanning] |})
      as (st & Hrun & _ & Hm & He).
    { intros k files Hin. split.
      - eapply GroupFacts.group_files_nonempty; eassumption.
      - intros p Hp.
        assert (Hall : In p (get_all_files [] (Dir es))).
        { apply (Permutation_in _ (GroupFacts.group_files_perm _)).
          apply in_concat. exists files. split; [ | exact Hp ].
          apply in_map_iff. exists (k, files). auto. }
        split.
        + rewrite <- (GroupFacts.group_files_keyed _ k files p Hin Hp).
          apply Hplace. rewrite <- Eall. exact Hall.
        + apply (ScanFacts.scan_top (Dir es) p Hwf) in Hall. tauto. }
    rewrite Hrun.
    destruct (cleanup_empty_dirs denied _ (tree st)) as [ t' rm ].
    eexists. split; [ reflexivity | ]. simpl in *. auto.
Qed.

End SecondRun.

(** ** Renamings and keys *)

Module RenameFacts.

Import Name NameFacts.

Lemma key_of_extension (pre e : string) :
  pre <> EmptyString -> e <> EmptyString -> rfind "." e = None ->
  extension_key (pre ++ String "." e) = upper e.
Proof.
  intros Hpre He Hdot. unfold extension_key.
  destruct (suffix_stem_split pre e Hpre He Hdot) as [ Hs _ ].
  rewrite Hs. simpl lstrip. rewrite (lstrip_no_head _ e Hdot).
  destruct e as [ | a e ]; [ contradiction | reflexivity ].
Qed.

Lemma key_without_suffix (name : string) :
  suffix name = EmptyString -> extension_key name = NO_EXTENSION.
Proof. intro H. unfold extension_key. now rewrite H. Qed.

(** A name either has no suffix, or splits at its last dot. *)
Lemma suffix_cases (name : string) :
  (suffix name = EmptyString /\ stem name = name)
  \/ (exists pre e,
        name = (pre ++ String "." e)%string
        /\ pre <> EmptyString /\ e <> EmptyString /\ rfind "." e = None
        /\ suffix name = String "." e /\ stem name = pre).
Proof.
  destruct (rfind "." name) as [ i | ] eqn:E.
  - destruct (rfind_split _ _ _ E) as (pre & e & -> & _ & He).
    destruct pre as [ | a pre ].
    + left. apply suffix_stem_whole. intros pre' e' H' He'.
      assert (H1 := rfind_append "." pre' e' He'). rewrite <- H' in H1.
      rewrite E in H1. simpl in E. rewrite He in E. simpl in E.
      rewrite <- E in H1. injection H1 as H1.
      destruct pre'; [ now left | discriminate ].
    + destruct e as [ | b e ].
      * left. apply suffix_stem_whole. intros pre' e' H' He'.
        assert (H1 := rfind_append "." pre' e' He'). rewrite <- H' in H1.
        rewrite (rfind_append "." (String a pre) EmptyString eq_refl) in H1.
        injection H1 as H1.
        destruct (append_same_length (String a pre) pre' _ _ H1 H')
          as [ _ H2 ].
        injection H2 as <-. now right.
      * right. exists (String a pre), (String b e).
        destruct (suffix_stem_split (String a pre) (String b e)) as [ Hs Ht ];
          try discriminate; [ exact He | ].
        repeat split; try discriminate; auto.
  - left. unfold suffix, stem. now rewrite E.
Qed.

Lemma rfind_app_nodot (c : ascii) (a w : string) :
  rfind c w = None -> rfind c (a ++ w) = rfind c a.
Proof.
  intro Hw. induction a as [ | x a IH ]; simpl; [ exact Hw | now rewrite IH ].
Qed.

Lemma uint_nodot (d : Decimal.uint) :
  rfind "." (NilEmpty.string_of_uint d) = None.
Proof. induction d; simpl; rewrite ?IHd; reflexivity. Qed.

Lemma tail_nodot (N : nat) (sfx : string) :
  rfind "." sfx = None ->
  rfind "." ("_" ++ decimal N ++ sfx) = None.
Proof.
  intro H. change ("_" ++ decimal N ++ sfx)%string
    with (String "_" (decimal N ++ sfx)).
  cbn [rfind]. rewrite (rfind_app_nodot _ _ _ H).
  unfold decimal. now rewrite uint_nodot.
Qed.

(** The renaming of a name that does not end in a dot has the key of the
    name. *)
Lemma renamed_keeps_key (name : string) (N : nat) :
  (forall pre, name <> (pre ++ ".")%string) ->
  extension_key (renamed (stem name) N (suffix name)) = extension_key name.
Proof.
  intro Htame. unfold renamed.
  destruct (suffix_cases name)
    as [ [ Hs Ht ] | (pre & e & -> & Hpre & He & Hdot & Hs & Ht) ].
  - rewrite Hs, Ht. rewrite (key_without_suffix name Hs).
    apply key_without_suffix.
    set (w := ("_" ++ decimal N ++ EmptyString)%string).
    assert (Hw : rfind "." w = None) by (apply tail_nodot; reflexivity).
    apply suffix_stem_whole. intros pre e H He.
    assert (H1 := rfind_append "." pre e He). rewrite <- H in H1.
    rewrite (rfind_app_nodot _ name w Hw) in H1.
    destruct (rfind_split _ _ _ H1) as (pre2 & e2 & E & Hlen & He2).
    left.
    destruct pre2 as [ | a pre2 ];
      [ destruct pre; [ reflexivity | discriminate Hlen ] | exfalso ].
    destruct e2 as [ | b e2 ]; [ now apply (Htame (String a pre2)) | ].
    destruct (suffix_stem_split (String a pre2) (String b e2)) as [ Hs' _ ];
      try discriminate; [ exact He2 | ].
    rewrite <- E in Hs'. rewrite Hs in Hs'. discriminate.
  - rewrite Hs, Ht.
    rewrite (key_of_extension pre e Hpre He Hdot).
    assert (E : (pre ++ "_" ++ decimal N ++ String "." e)%string
                = ((pre ++ "_" ++ decimal N) ++ String "." e)%string).
    { now rewrite !append_assoc. }
    rewrite E. apply key_of_extension; [ | exact He | exact Hdot ].
    destruct pre; [ contradiction | discriminate ].
Qed.

Lemma renamed_differs (name : string) (N : nat) :
  renamed (stem name) N (suffix name) <> name.
Proof.
  intro E. apply (f_equal String.length) in E. unfold renamed in E.
  destruct (suffix_cases name)
    as [ [ Hs Ht ] | (pre & e & Hn & _ & _ & _ & Hs & Ht) ];
    rewrite Hs, Ht in E.
  - rewrite !length_append in E. simpl in E. lia.
  - rewrite Hn in E. rewrite !length_append in E. simpl in E. lia.
Qed.

End RenameFacts.

(** ** Two runs in a row *)

Section TwoRuns.

Import FS FSFacts.

Variable denied : path -> bool.

(** After a run without errors whose renamings kept the keys, every file is
    in place, and the next run moves nothing. *)
Lemma second_run_when_keys_kept (es : entries) (r1 : result) (t1 : node) :
  wf (Dir es) = true ->
  organize_files denied (Present (Dir es)) = Some r1 ->
  after r1 = Some t1 ->
  errors r1 = 0 ->
  (forall s d, In (Moved s d) (output r1) ->
               extension_key (name d) = extension_key (name s)) ->
  (forall q c, lookup q t1 = Some (File c) -> in_place q)
  /\ exists r2,
       organize_files denied (Present t1) = Some r2
       /\ moved r2 = 0 /\ errors r2 = 0.
Proof.
  intros Hwf Hr1 Ha He Hkeys.
  assert (Hplace_wf :
    wf t1 = true /\ is_dir [] t1 = true
    /\ forall q c, lookup q t1 = Some (File c) -> in_place q).
  { destruct (get_all_files [] (Dir es)) as [ | a l ] eqn:Eall.
    - rewrite (organize_files_empty_scan denied es Eall) in Hr1.
      injection Hr1 as <-. simpl in Ha. injection Ha as <-.
      split; [ exact Hwf | ]. split; [ reflexivity | ].
      intros q c Hq. exfalso.
      assert (Hin : In q (get_all_files [] (Dir es))).
      { apply (ScanFacts.scan_top (Dir es) q Hwf). split; [ | eauto ].
        intros ->. discriminate Hq. }
      rewrite Eall in Hin. destruct Hin.
    - destruct (run_spec denied es Hwf)
        as (st & cs & r & Hr & I & Ha' & _ & _ & He' & Hsub & _);
        [ congruence | ].
      rewrite Hr in Hr1. injection Hr1 as <-.
      rewrite Ha' in Ha. injection Ha as <-.
      assert (Hwfst := mi_wf _ _ _ _ _ I).
      rewrite He' in He.
      assert (Hcs : cs = []).
      { assert (H := mi_failed _ _ _ _ _ I). rewrite He in H.
        destruct cs; [ reflexivity | simpl in H; lia ]. }
      subst cs.
      split; [ now apply cleaned_wf | ]. split.
      + assert (Hd : is_dir [] (tree st) = true)
          by (apply (mi_dirs _ _ _ _ _ I); reflexivity).
        unfold is_dir in *. simpl in *.
        destruct (tree st); [ discriminate | reflexivity ].
      + intros q c Hq. apply stat_file in Hq.
        apply cleaned_stat_file in Hq; [ | exact Hwfst ].
        apply (mi_files _ _ _ _ _ I) in Hq.
        destruct Hq as [ [ Hq0 Hnot ] | (s & Hs & _) ].
        * assert (Hin : In q (get_all_files [] (Dir es))).
          { apply (ScanFacts.scan_top (Dir es) q Hwf). apply stat_file in Hq0.
            split; [ | eauto ]. intros ->. discriminate Hq0. }
          destruct (mi_done _ _ _ _ _ I He q Hin) as [ H | H ];
            [ intros [] | contradiction | exact H ].
        * destruct (mi_shape _ _ _ _ _ I s q Hs) as [ Hpar _ ].
          unfold in_place. rewrite Hpar.
          simpl in Hs. apply (in_moves denied) in Hs.
          now rewrite (Hkeys s q (Hsub _ Hs)). }
  destruct Hplace_wf as (Hwf1 & Hdir1 & Hplace).
  split; [ exact Hplace | ].
  destruct t1 as [ d | es1 ]; [ discriminate Hdir1 | ].
  apply (organized_run denied es1 Hwf1).
  intros q Hq. apply (ScanFacts.scan_top (Dir es1) q Hwf1) in Hq.
  destruct Hq as (_ & c & Hc). now apply (Hplace q c).
Qed.

(** C3, amended: after a first run that reported no errors and renamed no
    file whose name ends in a dot, every file is directly in the folder of
    its key, and a second run on the directory moves no file and counts no
    error. *)
Theorem second_run_moves_nothing (es : entries) (r1 : result) (t1 : node) :
  wf (Dir es) = true ->
  organize_files denied (Present (Dir es)) = Some r1 ->
  after r1 = Some t1 ->
  errors r1 = 0 ->
  (forall s d, In (Moved s d) (output r1) -> name d <> name s ->
               forall pre, name s <> (pre ++ ".")%string) ->
  (forall q c, lookup q t1 = Some (File c) -> in_place q)
  /\ exists r2,
       organize_files denied (Present t1) = Some r2
       /\ moved r2 = 0 /\ errors r2 = 0.
Proof.
  intros Hwf Hr1 Ha He Htame.
  apply (second_run_when_keys_kept es r1 t1 Hwf Hr1 Ha He).
  intros s d Hin.
  destruct (get_all_files [] (Dir es)) as [ | a l ] eqn:Eall.
  - rewrite (organize_files_empty_scan denied es Eall) in Hr1.
    injection Hr1 as <-. simpl in Hin.
    destruct Hin as [ H | [ H | [] ] ]; discriminate.
  - destruct (run_spec denied es Hwf)
      as (st & cs & r & Hr & I & _ & _ & _ & _ & _ & Hback & _);
      [ congruence | ].
    rewrite Hr in Hr1. injection Hr1 as <-.
    assert (Hs : In (s, d) (cs ++ moves (printed st))).
    { apply in_or_app. right. apply (in_moves denied).
      destruct (Hback _ Hin) as [ H | [] ]. exact H. }
    destruct (mi_shape _ _ _ _ _ I s d Hs)
      as [ _ [ Hn | (N & _ & Hn) ] ].
    + now rewrite Hn.
    + rewrite Hn. apply RenameFacts.renamed_keeps_key.
      apply (Htame s d Hin).
      rewrite Hn. apply RenameFacts.renamed_differs.
Qed.

End TwoRuns.

Lemma second_run_moves_nothing_witness :
  let t1 := Dir [("TXT", Dir [("a.txt", File "0"); ("b.txt", File "1");
                              ("b_1.txt", File "2")])] in
  (forall q c, FS.lookup q t1 = Some (File c) -> in_place q)
  /\ exists r2,
       organize_files permissive (Present t1) = Some r2
       /\ moved r2 = 0 /\ errors r2 = 0.
Proof.
  intro t1.
  eapply (second_run_moves_nothing permissive (scenario "0" "1" "2"));
    [ reflexivity | vm_compute; reflexivity | reflexivity | reflexivity | ].
  intros s d Hin _ pre E.
  assert (Hdot : Name.rfind "." (FS.name s) = Some (String.length pre)).
  { rewrite E. apply NameFacts.rfind_append. reflexivity. }
  assert (Hlen := f_equal String.length E).
  rewrite NameFacts.length_append in Hlen.
  simpl in Hin.
  destruct Hin as [ H | [ H | [ H | [ H | [ H | [ H | [ H | [ H | [] ] ] ] ] ] ] ] ];
    try discriminate H; injection H as <- <-;
    simpl in Hdot, Hlen; injection Hdot as Hdot;
    rewrite <- Hdot in Hlen; discriminate Hlen.
Defined.

(** The claim of C3 as it is written fails.  With a file named [TXT] next
    to [a.txt], the folder [TXT] cannot be made in the first run, [a.txt]
    stays, and the second run moves it.  And after a first run without any
    error, a renaming of a name that ends in a dot, [a._1], has a key of its
    own, so the second run moves that file again. *)
Lemma second_run_moves_a_file :
  (exists r1 t1 r2,
      organize_files permissive
        (Present (Dir [("a.txt", File "A"); ("TXT", File "T")])) = Some r1
      /\ errors r1 = 1
      /\ after r1 = Some t1
      /\ organize_files permissive (Present t1) = Some r2
      /\ moved r2 = 1
      /\ In (Moved ["a.txt"] ["TXT"; "a.txt"]) (output r2))
  /\ (exists r1 t1 r2,
        organize_files permissive
          (Present (Dir [("a.", File "A"); ("sub", Dir [("a.", File "B")])]))
        = Some r1
        /\ errors r1 = 0
        /\ after r1 = Some t1
        /\ organize_files permissive (Present t1) = Some r2
        /\ moved r2 = 1
        /\ In (Moved ["NO_EXTENSION"; "a._1"] ["_1"; "a._1"]) (output r2)).
Proof.
  split.
  - eexists. eexists. eexists.
    split; [ vm_compute; reflexivity | ].
    split; [ reflexivity | ]. split; [ reflexivity | ].
    split; [ vm_compute; reflexivity | ].
    split; [ reflexivity | ]. simpl. auto.
  - eexists. eexists. eexists.
    split; [ vm_compute; reflexivity | ].
    split; [ reflexivity | ]. split; [ reflexivity | ].
    split; [ vm_compute; reflexivity | ].
    split; [ reflexivity | ]. simpl. auto 7.
Qed.

(** ** The loops end *)

Lemma organize_files_total (denied : path -> bool) (source : probe) :
  source <> Inaccessible ->
  exists r, organize_files denied source = Some r.
Proof.
  intro Hsrc.
  destruct source as [ | | [ d | es ] ];
    [ congruence | simpl; eauto | simpl; eauto | ].
  unfold organize_files.
  destruct (get_all_files [] (Dir es)) as [ | a l ] eqn:Eall; [ eauto | ].
  destruct (groups_total denied (group_files (a :: l))
              {| tree := Dir es; total_moved := 0; total_errors := 0;
                 printed := [Scanning] |}) as (st & Hst).
  rewrite Hst.
  destruct (cleanup_empty_dirs denied _ (tree st)). eauto.
Qed.

(** * Further properties of the code *)

(** ** The Scanner, [get_all_files] *)

Lemma scan_length (t : node) :
  forall root es, t = Dir es ->
    List.length (get_all_files root t) = List.length (FS.contents t).
Proof.
  induction t as [ d | es0 IH ] using FS.node_induction; intros root es E;
    [ discriminate | ].
  clear E es. revert root.
  induction es0 as [ | [ n x ] r IHr ]; intro root; [ reflexivity | ].
  apply Forall_cons_iff in IH. destruct IH as [ IHx IHrest ]. simpl in IHx.
  specialize (IHr IHrest).
  rewrite FSFacts.contents_cons, length_app.
  destruct x as [ d | es' ].
  - rewrite ScanFacts.scan_cons_file.
    change (List.length (FS.contents (File d))) with 1.
    cbn [List.length]. now rewrite IHr.
  - rewrite (Permutation_length (ScanFacts.scan_cons_dir root n es' r)).
    rewrite length_app, IHr. f_equal. now apply (IHx (root ++ [n]) es').
Qed.

Module WalkFacts.

Import FS FSFacts.

Section Walk.

Variable unlistable : path -> bool.

#[local] Abbreviation seen root :=
  (map (fun '(n, x) => (n, visible unlistable (root ++ [n]) x))).

Lemma listed_cons (root : path) (n : string) (rel : path) :
  listed unlistable root (n :: rel)
  <-> unlistable root = false
      /\ (rel <> [] -> listed unlistable (root ++ [n]) rel).
Proof.
  unfold listed. split.
  - intro H. split.
    + rewrite <- (app_nil_r root). apply (H [] (n :: rel)); [ reflexivity | ].
      discriminate.
    + intros Hrel q r E Hr. rewrite <- app_assoc. simpl.
      apply (H (n :: q) r); [ simpl; now rewrite E | exact Hr ].
  - intros [ H0 H ] q r E Hr. destruct q as [ | m q ].
    + now rewrite app_nil_r.
    + simpl in E. injection E as <- E.
      assert (Hrel : rel <> []).
      { rewrite E. destruct q; [ exact Hr | discriminate ]. }
      specialize (H Hrel q r E Hr). now rewrite <- app_assoc in H.
Qed.

Lemma walk_dir (root : path) (es : entries) :
  os_walk unlistable root (Dir es)
  = if unlistable root then []
    else map (fun filename => root ++ [filename]) (file_names es)
         ++ flat_map (fun e => os_walk unlistable (root ++ [fst e]) (snd e)) es.
Proof.
  simpl. destruct (unlistable root); [ reflexivity | ]. f_equal.
  induction es as [ | [ n x ] r IH ]; simpl; [ reflexivity | now rewrite IH ].
Qed.

Lemma visible_dir (root : path) (es : entries) :
  visible unlistable root (Dir es)
  = if unlistable root then Dir [] else Dir (seen root es).
Proof. reflexivity. Qed.

Lemma visible_kind (root : path) (x : node) :
  kind (visible unlistable root x) = kind x.
Proof.
  destruct x as [ d | es ]; [ reflexivity | ].
  rewrite visible_dir. now destruct (unlistable root).
Qed.

Lemma seen_file_names (root : path) (es : entries) :
  file_names (seen root es) = file_names es.
Proof.
  induction es as [ | [ n x ] r IH ]; [ reflexivity | ].
  cbn [map]. assert (K := visible_kind (root ++ [n]) x).
  destruct x as [ d | es' ], (visible unlistable (root ++ [n]) _);
    simpl in K; try discriminate; simpl; now rewrite IH.
Qed.

Lemma seen_fresh (root : path) (n : string) (es : entries) :
  fresh n (seen root es) = fresh n es.
Proof.
  induction es as [ | [ m x ] r IH ]; [ reflexivity | ].
  simpl. now rewrite IH.
Qed.

(** The walk is the scan of what can be seen. *)
Lemma walk_visible (t : node) :
  forall root,
    os_walk unlistable root t
    = get_all_files root (visible unlistable root t).
Proof.
  induction t as [ d | es IH ] using node_induction; intro root;
    [ reflexivity | ].
  rewrite walk_dir, visible_dir.
  destruct (unlistable root); [ reflexivity | ].
  rewrite ScanFacts.scan_dir, seen_file_names. f_equal.
  induction es as [ | [ n x ] r IHr ]; [ reflexivity | ].
  apply Forall_cons_iff in IH. destruct IH as [ IHx IHrest ]. simpl in IHx.
  cbn [map flat_map fst snd]. now rewrite IHx, (IHr IHrest).
Qed.

Lemma visible_wf (t : node) :
  forall root, wf t = true -> wf (visible unlistable root t) = true.
Proof.
  induction t as [ d | es IH ] using node_induction; intros root Hwf;
    [ reflexivity | ].
  rewrite visible_dir. destruct (unlistable root); [ reflexivity | ].
  induction es as [ | [ n x ] r IHr ]; [ reflexivity | ].
  apply Forall_cons_iff in IH. destruct IH as [ IHx IHrest ]. simpl in IHx.
  apply wf_dir_inv in Hwf. destruct Hwf as (Hn & Hwx & Hwr).
  cbn [map]. rewrite wf_dir_cons, seen_fresh, Hn, (IHx _ Hwx), (IHr IHrest Hwr).
  reflexivity.
Qed.

Lemma visible_count (t : node) :
  forall root,
    List.length (contents (visible unlistable root t))
    <= List.length (contents t).
Proof.
  induction t as [ d | es IH ] using node_induction; intro root;
    [ simpl; lia | ].
  rewrite visible_dir. destruct (unlistable root); [ simpl; lia | ].
  induction es as [ | [ n x ] r IHr ]; [ simpl; lia | ].
  apply Forall_cons_iff in IH. destruct IH as [ IHx IHrest ]. simpl in IHx.
  cbn [map]. rewrite !contents_cons, !length_app.
  specialize (IHx (root ++ [n])). specialize (IHr IHrest). lia.
Qed.

Lemma visible_all (t : node) :
  (forall q, unlistable q = false) ->
  forall root, visible unlistable root t = t.
Proof.
  intro Hall.
  induction t as [ d | es IH ] using node_induction; intro root;
    [ reflexivity | ].
  rewrite visible_dir, Hall. f_equal.
  induction es as [ | [ n x ] r IHr ]; [ reflexivity | ].
  apply Forall_cons_iff in IH. destruct IH as [ IHx IHrest ]. simpl in IHx.
  cbn [map]. now rewrite IHx, (IHr IHrest).
Qed.

(** What the walk finds below a directory it can list. *)
Lemma walk_listed (es : entries) :
  Forall (fun e =>
            forall root p,
              wf (snd e) = true ->
              (In p (os_walk unlistable root (snd e))
               <-> exists rel c,
                     rel <> [] /\ p = root ++ rel
                     /\ lookup rel (snd e) = Some (File c)
                     /\ listed unlistable root rel)) es ->
  forall root p,
    wf (Dir es) = true -> unlistable root = false ->
    (In p (map (fun filename => root ++ [filename]) (file_names es)
           ++ flat_map (fun e => os_walk unlistable (root ++ [fst e]) (snd e)) es)
     <-> exists rel c,
           rel <> [] /\ p = root ++ rel /\ lookup rel (Dir es) = Some (File c)
           /\ listed unlistable root rel).
Proof.
  induction es as [ | [ n x ] r IHr ]; intros IH root p Hwf Hroot.
  - split; [ intros [] | ].
    intros (rel & c & Hrel & _ & Hl & _).
    destruct rel; [ congruence | discriminate ].
  - apply Forall_cons_iff in IH. destruct IH as [ IHx IHrest ].
    simpl in IHx.
    apply wf_dir_inv in Hwf. destruct Hwf as (Hn & Hwx & Hwr).
    specialize (IHr IHrest root p Hwr Hroot).
    assert (K := fun rel c => ScanFacts.lookup_file_cons n x r rel c Hn).
    assert (Hone : listed unlistable root [n]).
    { apply listed_cons. split; [ exact Hroot | congruence ]. }
    destruct x as [ d | es' ].
    + simpl. split.
      * intros [ <- | Hin ].
        -- exists [n], d. split; [ discriminate | ]. split; [ reflexivity | ].
           split; [ | exact Hone ]. simpl. now rewrite String.eqb_refl.
        -- apply IHr in Hin. destruct Hin as (rel & c & Hrel & -> & Hl & HL).
           exists rel, c. split; [ exact Hrel | ]. split; [ reflexivity | ].
           split; [ | exact HL ]. apply K; auto.
      * intros (rel & c & Hrel & -> & Hl & HL).
        apply K in Hl; [ | exact Hrel ].
        destruct Hl as [ (q & -> & Hq) | Hl ].
        -- left. destruct q; [ reflexivity | discriminate Hq ].
        -- right. apply IHr. eauto 6.
    + simpl file_names. simpl flat_map. rewrite in_app_iff. rewrite in_app_iff.
      rewrite in_app_iff in IHr. split.
      * intros [ Hin | [ Hin | Hin ] ].
        -- destruct (proj1 IHr (or_introl Hin))
             as (rel & c & Hrel & -> & Hl & HL).
           exists rel, c. split; [ exact Hrel | ]. split; [ reflexivity | ].
           split; [ | exact HL ]. apply K; auto.
        -- apply (IHx (root ++ [n]) p Hwx) in Hin.
           destruct Hin as (rel & c & Hrel & -> & Hl & HL).
           exists (n :: rel), c. split; [ discriminate | ].
           split; [ now rewrite <- app_assoc | ].
           split; [ apply K; [ discriminate | ]; left; eauto | ].
           apply listed_cons. auto.
        -- destruct (proj1 IHr (or_intror Hin))
             as (rel & c & Hrel & -> & Hl & HL).
           exists rel, c. split; [ exact Hrel | ]. split; [ reflexivity | ].
           split; [ | exact HL ]. apply K; auto.
      * intros (rel & c & Hrel & -> & Hl & HL).
        apply K in Hl; [ | exact Hrel ].
        destruct Hl as [ (q & -> & Hq) | Hl ].
        -- right. left. apply (IHx (root ++ [n]) _ Hwx).
           assert (Hq' : q <> []) by (intros ->; discriminate Hq).
           exists q, c. split; [ exact Hq' | ].
           split; [ now rewrite <- app_assoc | ]. split; [ exact Hq | ].
           apply listed_cons in HL. now apply HL.
        -- assert (H : In (root ++ rel)
                          (map (fun filename => root ++ [filename]) (file_names r))
                        \/ In (root ++ rel)
                             (flat_map
                                (fun e => os_walk unlistable (root ++ [fst e]) (snd e))
                                r))
             by (apply IHr; eauto 6).
           destruct H as [ H | H ]; auto.
Qed.

(** The walk finds the files that only listable directories lead to. *)
Lemma walk_iff (t : node) :
  forall (root p : path),
    wf t = true ->
    (In p (os_walk unlistable root t)
     <-> exists rel c,
           rel <> [] /\ p = root ++ rel /\ lookup rel t = Some (File c)
           /\ listed unlistable root rel).
Proof.
  induction t as [ d | es IH ] using node_induction; intros root p Hwf.
  - split; [ intros [] | ].
    intros (rel & c & Hrel & _ & Hl & _).
    rewrite (lookup_file_below _ _ Hrel) in Hl. discriminate.
  - rewrite walk_dir. destruct (unlistable root) eqn:Hroot.
    + split; [ intros [] | ].
      intros (rel & c & Hrel & _ & _ & HL). exfalso.
      destruct rel as [ | n rel ]; [ congruence | ].
      apply listed_cons in HL. destruct HL as [ HL _ ]. congruence.
    + apply walk_listed; assumption.
Qed.

End Walk.

End WalkFacts.

(** X1: on a host that cannot list some directories, the scan finds a path
    exactly when a regular file is at it, at any depth, and every directory
    on the way down to it, the scanned one included, can be listed; it never
    lists a directory, nor the scanned directory itself.  Where every
    directory can be listed, as in the run, it finds every file. *)
Theorem scan_finds_exactly_the_files (unlistable : path -> bool) (t : node)
    (p : path) :
  FS.wf t = true ->
  (In p (os_walk unlistable [] t)
   <-> p <> []
       /\ (exists c, FS.lookup p t = Some (File c))
       /\ forall q r, p = q ++ r -> r <> [] -> unlistable q = false)
  /\ (In p (get_all_files [] t)
      <-> p <> [] /\ exists c, FS.lookup p t = Some (File c))
  /\ get_all_files [] t = os_walk (fun _ => false) [] t.
Proof.
  intro Hwf. split; [ | split ].
  - rewrite (WalkFacts.walk_iff unlistable t [] p Hwf). split.
    + intros (rel & c & Hrel & -> & Hl & HL). simpl. eauto.
    + intros (Hp & (c & Hc) & HL). exists p, c. auto.
  - apply (ScanFacts.scan_top t p Hwf).
  - rewrite WalkFacts.walk_visible.
    now rewrite (WalkFacts.visible_all (fun _ => false) t).
Qed.

Lemma scan_finds_exactly_the_files_witness :
  let host := fun q => FS.path_eqb q ["sub"] in
  In ["a.txt"] (os_walk host [] (Dir (scenario "0" "1" "2")))
  /\ ~ In ["sub"; "b.txt"] (os_walk host [] (Dir (scenario "0" "1" "2")))
  /\ In ["sub"; "b.txt"] (get_all_files [] (Dir (scenario "0" "1" "2")))
  /\ ~ In ["sub"] (get_all_files [] (Dir (scenario "0" "1" "2"))).
Proof.
  intro host.
  assert (H := fun p =>
            scan_finds_exactly_the_files host (Dir (scenario "0" "1" "2")) p
              eq_refl).
  split; [ | split; [ | split ] ].
  - apply (proj1 (H ["a.txt"])). split; [ discriminate | ].
    split; [ exists "0"; reflexivity | ].
    intros [ | n [ | m q ] ] r E Hr; [ reflexivity | | ].
    + injection E as <- E. congruence.
    + discriminate E.
  - intro Hin. apply (proj1 (H ["sub"; "b.txt"])) in Hin.
    destruct Hin as (_ & _ & HL).
    specialize (HL ["sub"] ["b.txt"] eq_refl). discriminate HL. discriminate.
  - apply (proj1 (proj2 (H ["sub"; "b.txt"]))).
    split; [ discriminate | ]. exists "2". reflexivity.
  - intro Hin. apply (proj1 (proj2 (H ["sub"]))) in Hin.
    destruct Hin as (_ & c & Hc). discriminate Hc.
Defined.

(** X2: the scan lists no file twice, lists only what the scan of a host
    that lists every directory does, and never more paths than the directory
    holds files; where every directory can be listed it lists as many paths
    as there are files, and it is empty exactly when the directory holds no
    file, empty subdirectories or not. *)
Theorem scan_lists_each_file_once (unlistable : path -> bool) (es : entries) :
  FS.wf (Dir es) = true ->
  NoDup (os_walk unlistable [] (Dir es))
  /\ (forall p, In p (os_walk unlistable [] (Dir es)) ->
                In p (get_all_files [] (Dir es)))
  /\ List.length (os_walk unlistable [] (Dir es)) <= FS.count_files (Dir es)
  /\ ((forall q, unlistable q = false) ->
      os_walk unlistable [] (Dir es) = get_all_files [] (Dir es)
      /\ List.length (os_walk unlistable [] (Dir es)) = FS.count_files (Dir es)
      /\ (os_walk unlistable [] (Dir es) = [] <-> FS.contents (Dir es) = [])).
Proof.
  intro Hwf.
  assert (Hv := WalkFacts.walk_visible unlistable (Dir es) []).
  assert (Hwv := WalkFacts.visible_wf unlistable (Dir es) [] Hwf).
  split; [ | split; [ | split ] ].
  - rewrite Hv. now apply ScanFacts.scan_NoDup.
  - intros p Hp.
    apply (WalkFacts.walk_iff unlistable (Dir es) [] p Hwf) in Hp.
    destruct Hp as (rel & c & Hrel & -> & Hl & _).
    apply (ScanFacts.scan_top (Dir es) rel Hwf). eauto.
  - rewrite Hv. unfold FS.count_files.
    assert (Hc := WalkFacts.visible_count unlistable (Dir es) []).
    rewrite WalkFacts.visible_dir in Hc |- *.
    destruct (unlistable []); [ simpl; lia | ].
    now rewrite (scan_length _ [] _ eq_refl).
  - intro Hall. rewrite Hv, (WalkFacts.visible_all unlistable (Dir es) Hall).
    assert (Hlen := scan_length (Dir es) [] es eq_refl).
    split; [ reflexivity | ]. split; [ exact Hlen | ].
    split; intro H; rewrite H in Hlen; apply length_zero_iff_nil.
    + symmetry. exact Hlen.
    + exact Hlen.
Qed.

Lemma scan_lists_each_file_once_witness :
  let host := fun q => FS.path_eqb q ["sub"] in
  NoDup (os_walk host [] (Dir (scenario "0" "1" "2")))
  /\ List.length (os_walk host [] (Dir (scenario "0" "1" "2"))) <= 3
  /\ List.length (os_walk permissive [] (Dir (scenario "0" "1" "2"))) = 3.
Proof.
  intro host.
  destruct (scan_lists_each_file_once host (scenario "0" "1" "2") eq_refl)
    as (Hnd & _ & Hlen & _).
  destruct (scan_lists_each_file_once permissive (scenario "0" "1" "2") eq_refl)
    as (_ & _ & _ & Hall).
  split; [ exact Hnd | ]. split; [ exact Hlen | ].
  exact (proj1 (proj2 (Hall (fun q => eq_refl)))).
Defined.

(** ** The grouping by key, lines 55 to 64 *)

Module GroupExtras.

Lemma group_add_fst (k : string) (p : path) (g : list (string * list path)) :
  (In k (map fst g) -> map fst (group_add k p g) = map fst g)
  /\ (~ In k (map fst g) -> map fst (group_add k p g) = map fst g ++ [k]).
Proof.
  induction g as [ | [ k0 f0 ] r [ IH1 IH2 ] ]; simpl.
  - split; [ intros [] | reflexivity ].
  - destruct (String.eqb_spec k0 k) as [ -> | Hne ]; simpl.
    + split; [ reflexivity | ]. intro H. exfalso. auto.
    + split.
      * intros [ E | H ]; [ congruence | ]. now rewrite IH1.
      * intro H. rewrite IH2; [ reflexivity | ]. intro Hin. auto.
Qed.

Lemma group_add_nodup (k : string) (p : path) (g : list (string * list path)) :
  NoDup (map fst g) -> NoDup (map fst (group_add k p g)).
Proof.
  intro Hnd. destruct (group_add_fst k p g) as [ H1 H2 ].
  destruct (in_dec string_dec k (map fst g)) as [ Hin | Hout ].
  - now rewrite H1.
  - rewrite (H2 Hout). apply NoDup_app; [ exact Hnd | | ].
    + constructor; [ intros [] | constructor ].
    + intros a Ha [ <- | [] ]. contradiction.
Qed.

(** Where an entry of the grown dictionary comes from. *)
Lemma group_add_entry (k : string) (p : path) (g : list (string * list path))
    (k' : string) (files' : list path) :
  NoDup (map fst g) ->
  In (k', files') (group_add k p g) ->
  (k' <> k /\ In (k', files') g)
  \/ (k' = k
      /\ ((exists f0, In (k, f0) g /\ files' = f0 ++ [p])
          \/ (~ In k (map fst g) /\ files' = [p]))).
Proof.
  induction g as [ | [ k0 f0 ] r IH ]; simpl; intros Hnd Hin.
  - destruct Hin as [ E | [] ]. injection E as <- <-. right. auto.
  - apply NoDup_cons_iff in Hnd. destruct Hnd as [ Hk0 Hnd ].
    assert (Hfst : forall x f, In (x, f) r -> In x (map fst r)).
    { intros x f H. apply in_map_iff. exists (x, f). auto. }
    destruct (String.eqb_spec k0 k) as [ -> | Hne ].
    + destruct Hin as [ E | Hin ].
      * injection E as <- <-. right. split; [ reflexivity | left ].
        exists f0. auto.
      * left. split; [ | auto ]. intros ->. eauto.
    + destruct Hin as [ E | Hin ].
      * injection E as <- <-. left. auto.
      * destruct (IH Hnd Hin)
          as [ [ H1 H2 ] | [ -> [ (f1 & H1 & H2) | [ H1 H2 ] ] ] ].
        -- left. auto.
        -- right. split; [ reflexivity | left ]. exists f1. auto.
        -- right. split; [ reflexivity | right ]. split; [ | exact H2 ].
           intros [ E | H ]; [ congruence | contradiction ].
Qed.

Lemma filter_none {A : Type} (f : A -> bool) (l : list A) :
  (forall x, In x l -> f x = false) -> filter f l = [].
Proof.
  induction l as [ | a l IH ]; simpl; intro H; [ reflexivity | ].
  rewrite (H a (or_introl eq_refl)). apply IH. auto.
Qed.

Section Dictionary.

Let has (k : string) (p : path) : bool :=
  String.eqb (extension_key (FS.name p)) k.

Let good (g : list (string * list path)) (seen : list path) : Prop :=
  NoDup (map fst g)
  /\ (forall k files, In (k, files) g ->
        files <> [] /\ files = filter (has k) seen)
  /\ (forall p, In p seen -> In (extension_key (FS.name p)) (map fst g)).

Lemma good_step (g : list (string * list path)) (seen : list path)
    (p : path) :
  good g seen ->
  good (group_add (extension_key (FS.name p)) p g) (seen ++ [p]).
Proof.
  intros (Hnd & Hfiles & Hkeys).
  destruct (GroupFacts.group_add_keys (extension_key (FS.name p)) p g) as [ K1 K2 ].
  split; [ now apply group_add_nodup | ]. split.
  - intros k files Hin. rewrite filter_app. simpl. unfold has at 2.
    apply (group_add_entry _ _ _ _ _ Hnd) in Hin.
    destruct Hin as [ [ Hne Hin ] | [ -> [ (f0 & Hin & ->) | [ Hout -> ] ] ] ].
    + destruct (Hfiles k files Hin) as [ H1 H2 ].
      apply not_eq_sym, String.eqb_neq in Hne. rewrite Hne.
      rewrite app_nil_r. auto.
    + destruct (Hfiles _ f0 Hin) as [ H1 H2 ].
      rewrite String.eqb_refl. split; [ | now rewrite <- H2 ].
      intro E. apply app_eq_nil in E. destruct E as [ _ E ]. discriminate.
    + rewrite String.eqb_refl. split; [ discriminate | ].
      rewrite filter_none; [ reflexivity | ].
      intros x Hx. unfold has. apply String.eqb_neq. intro E.
      apply Hout. rewrite <- E. now apply Hkeys.
  - intros q Hq. apply in_app_or in Hq. destruct Hq as [ Hq | [ <- | [] ] ].
    + apply K2. now apply Hkeys.
    + exact K1.
Qed.

Lemma good_fold (l : list path) :
  forall g seen,
    good g seen ->
    good (fold_left
            (fun files_by_type file_path =>
               group_add (extension_key (FS.name file_path)) file_path
                 files_by_type) l g)
         (seen ++ l).
Proof.
  induction l as [ | p l IH ]; intros g seen H; simpl.
  - now rewrite app_nil_r.
  - change (p :: l) with ([p] ++ l). rewrite app_assoc.
    apply IH. now apply good_step.
Qed.

Lemma good_group_files (l : list path) : good (group_files l) l.
Proof.
  apply (good_fold l [] []). split; [ constructor | ].
  split; [ intros k files [] | intros p [] ].
Qed.

End Dictionary.

End GroupExtras.

(** X3: the groups have distinct keys, none is empty, and the group of a
    key holds exactly the scanned files of that key, in scan order. *)
Theorem groups_are_the_files_by_key (all_files : list path) :
  NoDup (map fst (group_files all_files))
  /\ forall k files,
       In (k, files) (group_files all_files) ->
       files <> []
       /\ files
          = filter (fun p => String.eqb (extension_key (FS.name p)) k)
              all_files.
Proof.
  destruct (GroupExtras.good_group_files all_files) as (H1 & H2 & _).
  split; [ exact H1 | exact H2 ].
Qed.

(** X4: every scanned file is in one group and one only, the group of the
    key of its name: the groups taken together are the scanned files, and a
    file is in the group of [k] exactly when [k] is its key. *)
Theorem groups_partition_the_scan (all_files : list path) :
  Permutation (concat (map snd (group_files all_files))) all_files
  /\ (forall p, In p all_files ->
        exists files,
          In (extension_key (FS.name p), files) (group_files all_files)
          /\ In p files)
  /\ (forall k files p,
        In (k, files) (group_files all_files) -> In p files ->
        extension_key (FS.name p) = k).
Proof.
  split; [ apply GroupFacts.group_files_perm | ].
  split; [ | apply GroupFacts.group_files_keyed ].
  intros p Hp.
  destruct (GroupExtras.good_group_files all_files) as (_ & H2 & H3).
  specialize (H3 p Hp). apply in_map_iff in H3.
  destruct H3 as ([ k files ] & E & Hin). simpl in E. subst k.
  exists files. split; [ exact Hin | ].
  destruct (H2 _ files Hin) as [ _ -> ].
  apply filter_In. split; [ exact Hp | apply String.eqb_refl ].
Qed.

(** ** Keys as folder names *)

Module KeyExtras.

Import Name NameFacts.

Lemma upper_char_keeps (a c : ascii) :
  nat_of_ascii c < 65 \/ 90 < nat_of_ascii c ->
  upper_char a = c -> a = c.
Proof.
  intros Hc. unfold upper_char.
  destruct ((97 <=? nat_of_ascii a)%nat && (nat_of_ascii a <=? 122)%nat) eqn:E;
    [ | auto ].
  apply andb_prop in E. destruct E as [ E1 E2 ].
  apply Nat.leb_le in E1. apply Nat.leb_le in E2.
  intros <-. rewrite nat_ascii_embedding in Hc by lia. lia.
Qed.

Lemma upper_char_idem (a : ascii) : upper_char (upper_char a) = upper_char a.
Proof.
  destruct a as [ b0 b1 b2 b3 b4 b5 b6 b7 ].
  destruct b0, b1, b2, b3, b4, b5, b6, b7; reflexivity.
Qed.

Lemma upper_idem (s : string) : upper (upper s) = upper s.
Proof.
  induction s as [ | a s IH ]; simpl; [ reflexivity | ].
  now rewrite upper_char_idem, IH.
Qed.

Lemma rfind_upper (c : ascii) (s : string) :
  nat_of_ascii c < 65 \/ 90 < nat_of_ascii c ->
  rfind c s = None -> rfind c (upper s) = None.
Proof.
  intro Hc. induction s as [ | a s IH ]; [ reflexivity | ].
  intro H. apply rfind_none_head in H. destruct H as [ Ha Hs ].
  simpl. rewrite (IH Hs).
  destruct (Ascii.eqb_spec (upper_char a) c) as [ E | _ ]; [ | reflexivity ].
  exfalso. apply Ha. now apply (upper_char_keeps a c Hc).
Qed.

Lemma rfind_app_none (c : ascii) (a b : string) :
  rfind c (a ++ b) = None -> rfind c b = None.
Proof.
  induction a as [ | x a IH ]; simpl; [ auto | ].
  destruct (rfind c (a ++ b)); [ discriminate | ]. intros _. now apply IH.
Qed.

Lemma upper_uint (d : Decimal.uint) :
  upper (NilEmpty.string_of_uint d) = NilEmpty.string_of_uint d.
Proof. induction d; simpl; rewrite ?IHd; reflexivity. Qed.

End KeyExtras.

(** X5: the key of a name whose suffix is of ASCII characters is never
    empty, holds no dot (so it is neither [.] nor [..]), is in upper case
    already, and holds no slash when the name holds none: it can name a folder
    directly under the root. *)
Theorem key_is_a_folder_name (name : string) :
  Name.is_ascii (Name.suffix name) = true ->
  extension_key name <> EmptyString
  /\ Name.rfind "." (extension_key name) = None
  /\ Name.upper (extension_key name) = extension_key name
  /\ (Name.rfind "/" name = None ->
      Name.rfind "/" (extension_key name) = None).
Proof.
  intros _.
  destruct (RenameFacts.suffix_cases name)
    as [ [ Hs _ ] | (pre & e & -> & Hpre & He & Hdot & _) ].
  - rewrite (RenameFacts.key_without_suffix name Hs).
    repeat split. discriminate.
  - rewrite (RenameFacts.key_of_extension pre e Hpre He Hdot).
    split; [ | split; [ | split ] ].
    + destruct e; [ contradiction | discriminate ].
    + apply KeyExtras.rfind_upper; [ left; apply Nat.ltb_lt; reflexivity | exact Hdot ].
    + apply KeyExtras.upper_idem.
    + intro H. apply KeyExtras.rfind_app_none in H.
      apply NameFacts.rfind_none_head in H. destruct H as [ _ H ].
      apply KeyExtras.rfind_upper; [ left; apply Nat.ltb_lt; reflexivity | exact H ].
Qed.

Lemma key_is_a_folder_name_witness :
  Name.rfind "/" (extension_key "notes.final.Pdf") = None.
Proof.
  apply (proj2 (proj2 (proj2 (key_is_a_folder_name "notes.final.Pdf"
                                  eq_refl)))).
  reflexivity.
Defined.

(** X6: the name a collision gives, [stem_N] followed by the suffix, has
    the key of the original name whenever that name does not end in a dot;
    for a name that ends in a dot the new name has the key [_N], not
    [NO_EXTENSION] as the original. *)
Theorem renaming_and_the_key (name : string) (N : nat) :
  ((forall pre, name <> (pre ++ ".")%string) ->
   extension_key (Name.renamed (Name.stem name) N (Name.suffix name))
   = extension_key name)
  /\ (forall pre,
        pre <> EmptyString -> name = (pre ++ ".")%string ->
        extension_key name = NO_EXTENSION
        /\ extension_key (Name.renamed (Name.stem name) N (Name.suffix name))
           = ("_" ++ Name.decimal N)%string).
Proof.
  split; [ apply RenameFacts.renamed_keeps_key | ].
  intros pre Hpre ->.
  assert (Hfind := NameFacts.rfind_append "." pre EmptyString eq_refl).
  assert (Hsplit := NameFacts.splits_false pre EmptyString (or_intror eq_refl)).
  assert (Hs : Name.suffix (pre ++ ".") = EmptyString).
  { unfold Name.suffix.
    change (pre ++ ".")%string with (pre ++ String "." EmptyString)%string.
    now rewrite Hfind, Hsplit. }
  assert (Ht : Name.stem (pre ++ ".") = (pre ++ ".")%string).
  { unfold Name.stem.
    change (pre ++ ".")%string with (pre ++ String "." EmptyString)%string.
    now rewrite Hfind, Hsplit. }
  split; [ now apply RenameFacts.key_without_suffix | ].
  rewrite Hs, Ht. unfold Name.renamed.
  rewrite NameFacts.append_empty_r, NameFacts.append_assoc.
  change ("." ++ "_" ++ Name.decimal N)%string
    with (String "." ("_" ++ Name.decimal N)).
  rewrite RenameFacts.key_of_extension.
  - change ("_" ++ Name.decimal N)%string with (String "_" (Name.decimal N)).
    cbn [Name.upper]. unfold Name.decimal. now rewrite KeyExtras.upper_uint.
  - exact Hpre.
  - discriminate.
  - rewrite <- (NameFacts.append_empty_r (Name.decimal N)).
    apply (RenameFacts.tail_nodot N EmptyString). reflexivity.
Qed.

Lemma renaming_and_the_key_witness :
  extension_key (Name.renamed (Name.stem "a.") 1 (Name.suffix "a.")) = "_1"
  /\ extension_key "a." = NO_EXTENSION.
Proof.
  destruct (proj2 (renaming_and_the_key "a." 1) "a") as [ H1 H2 ];
    [ discriminate | reflexivity | ].
  split; [ exact H2 | exact H1 ].
Defined.

(** ** The statistics of a run *)

Section Accounting.

Variable denied : path -> bool.

Lemma skipped_app (a b : list line) : skipped (a ++ b) = skipped a + skipped b.
Proof.
  induction a as [ | l a IH ]; simpl; [ reflexivity | ].
  destruct l; simpl; rewrite ?IH; reflexivity.
Qed.

Lemma skipped_removed (l : list path) : skipped (map RemovedDirectory l) = 0.
Proof. induction l as [ | p l IH ]; simpl; [ reflexivity | exact IH ]. Qed.

Lemma moves_removed (l : list path) : moves (map RemovedDirectory l) = [].
Proof. induction l as [ | p l IH ]; simpl; [ reflexivity | exact IH ]. Qed.

(** The files handled so far: moved, failed or skipped. *)
Let handled (st : progress) : nat :=
  total_moved st + total_errors st + skipped (printed st).

Let counted (st : progress) : Prop :=
  total_moved st = List.length (moves (printed st)).

Lemma move_file_handled (dest_folder : path) (st st' : progress) (p : path) :
  move_file denied dest_folder st p = Some st' ->
  handled st' = handled st + 1 /\ (counted st -> counted st').
Proof.
  unfold move_file, handled, counted.
  destruct (FS.path_eqb (FS.parent p) dest_folder).
  - intro H. injection H as <-. simpl.
    rewrite skipped_app, moves_app. simpl. rewrite app_nil_r. lia.
  - destruct (resolve_conflict (tree st) dest_folder p) as [ d | ];
      [ | discriminate ].
    destruct (shutil_move denied p d (tree st)); intro H; injection H as <-;
      simpl; rewrite skipped_app, moves_app; simpl;
      rewrite ?app_nil_r, ?length_app; simpl; lia.
Qed.

Lemma files_handled (dest_folder : path) (files : list path) :
  forall st st',
    for_each (move_file denied dest_folder) files st = Some st' ->
    handled st' = handled st + List.length files
    /\ (counted st -> counted st').
Proof.
  induction files as [ | p files IH ]; intros st st' H; simpl in H.
  - injection H as <-. simpl. split; [ lia | auto ].
  - destruct (move_file denied dest_folder st p) as [ st1 | ] eqn:E1;
      [ | discriminate ].
    destruct (move_file_handled _ _ _ _ E1) as [ H1 C1 ].
    destruct (IH _ _ H) as [ H2 C2 ].
    split; [ simpl; lia | auto ].
Qed.

Lemma process_type_handled (st st' : progress) (k : string)
    (files : list path) :
  process_type denied st (k, files) = Some st' ->
  handled st' = handled st + List.length files
  /\ (counted st -> counted st').
Proof.
  unfold process_type.
  destruct (mkdir denied [k] (tree st)) as [ t' | ].
  - intro H. apply files_handled in H. destruct H as [ H C ].
    unfold handled, counted in *. simpl in *.
    rewrite skipped_app, moves_app in *. simpl in *.
    rewrite app_nil_r in *. split; [ lia | exact C ].
  - intro H. injection H as <-. unfold handled, counted. simpl.
    rewrite skipped_app, moves_app. simpl. rewrite app_nil_r. lia.
Qed.

Lemma groups_handled (groups : list (string * list path)) :
  forall st st',
    for_each (process_type denied) groups st = Some st' ->
    handled st' = handled st + List.length (concat (map snd groups))
    /\ (counted st -> counted st').
Proof.
  induction groups as [ | [ k files ] groups IH ]; intros st st' H.
  - simpl in H. injection H as <-. simpl. split; [ lia | auto ].
  - cbn [for_each] in H.
    destruct (process_type denied st (k, files)) as [ st1 | ] eqn:E1;
      [ | discriminate ].
    destruct (process_type_handled _ _ _ _ E1) as [ H1 C1 ].
    destruct (IH _ _ H) as [ H2 C2 ].
    split; [ | auto ].
    simpl. rewrite length_app. lia.
Qed.

(** X7: the counters of a run account for every scanned file once: files
    moved, errors and files skipped as already in place add up to the number
    of files found, and the count of moved files is the number of moves on
    the transcript. *)
Theorem every_file_is_accounted_for (es : entries) :
  exists r,
    organize_files denied (Present (Dir es)) = Some r
    /\ moved r + errors r + skipped (output r)
       = List.length (get_all_files [] (Dir es))
    /\ moved r = List.length (moves (output r)).
Proof.
  destruct (get_all_files [] (Dir es)) as [ | a l ] eqn:Eall.
  - rewrite (organize_files_empty_scan denied es Eall).
    eexists. split; [ reflexivity | ]. split; reflexivity.
  - unfold organize_files. rewrite Eall.
    destruct (groups_total denied (group_files (a :: l))
                {| tree := Dir es; total_moved := 0; total_errors := 0;
                   printed := [Scanning] |}) as (st & Hst).
    rewrite Hst.
    destruct (groups_handled _ _ _ Hst) as [ H C ].
    unfold handled, counted in H, C. simpl in H, C. specialize (C eq_refl).
    rewrite (Permutation_length (GroupFacts.group_files_perm (a :: l))) in H.
    destruct (cleanup_empty_dirs denied _ (tree st)) as [ t' rm ].
    eexists. split; [ reflexivity | ]. cbn [moved errors output].
    rewrite !skipped_app, !moves_app, skipped_removed, moves_removed.
    split.
    + destruct (0 <? List.length rm)%nat; simpl in *; lia.
    + destruct (0 <? List.length rm)%nat; simpl; rewrite app_nil_r; exact C.
Qed.

End Accounting.

(** ** The Cleaner, [cleanup_empty_dirs], on its own *)

Section CleanerExtras.

Import FS FSFacts.

Variable denied : path -> bool.
Variable exclude : list string.

#[local] Abbreviation goes' root :=
  (fun '(n, x) => removable denied exclude (root ++ [n]) x).
#[local] Abbreviation kept' root :=
  (fun '(n, x) =>
     if removable denied exclude (root ++ [n]) x then []
     else [(n, cleaned denied exclude (root ++ [n]) x)]).
#[local] Abbreviation gone' root :=
  (fun '(n, x) =>
     if removable denied exclude (root ++ [n]) x then [root ++ [n]] else []).
#[local] Abbreviation deeper' root :=
  (fun '(n, x) => removals denied exclude (root ++ [n]) x).

(** What the Cleaner left stays when it comes again. *)
Lemma stays_unremovable (x : node) :
  forall p,
    removable denied exclude p x = false ->
    removable denied exclude p (cleaned denied exclude p x) = false.
Proof.
  induction x as [ d | es IH ] using node_induction; intros p H;
    [ reflexivity | ].
  rewrite cleaned_dir, removable_dir. rewrite removable_dir in H.
  destruct (negb (existsb (String.eqb (name p)) exclude) && negb (denied p));
    [ | reflexivity ].
  simpl in *.
  induction es as [ | [ n y ] r IHr ]; [ discriminate H | ].
  apply Forall_cons_iff in IH. destruct IH as [ IHy IHrest ]. simpl in IHy.
  cbn [forallb flat_map] in *.
  destruct (removable denied exclude (p ++ [n]) y) eqn:Ey.
  - simpl in *. now apply IHr.
  - cbn [app forallb]. now rewrite (IHy _ Ey).
Qed.

Lemma cleaned_idem (t : node) :
  forall root,
    cleaned denied exclude root (cleaned denied exclude root t)
    = cleaned denied exclude root t.
Proof.
  induction t as [ d | es IH ] using node_induction; intro root;
    [ reflexivity | ].
  rewrite !cleaned_dir. f_equal.
  induction es as [ | [ n y ] r IHr ]; [ reflexivity | ].
  apply Forall_cons_iff in IH. destruct IH as [ IHy IHrest ]. simpl in IHy.
  cbn [flat_map].
  destruct (removable denied exclude (root ++ [n]) y) eqn:Ey.
  - cbn [app]. now apply IHr.
  - cbn [app flat_map]. rewrite (stays_unremovable y _ Ey), IHy.
    cbn [app]. f_equal. now apply IHr.
Qed.

Lemma removals_cleaned (t : node) :
  forall root,
    removals denied exclude root (cleaned denied exclude root t) = [].
Proof.
  induction t as [ d | es IH ] using node_induction; intro root;
    [ reflexivity | ].
  rewrite cleaned_dir, removals_dir.
  assert (H : flat_map (deeper' root) (flat_map (kept' root) es) = []
              /\ flat_map (gone' root) (flat_map (kept' root) es) = []).
  { induction es as [ | [ n y ] r IHr ]; [ split; reflexivity | ].
    apply Forall_cons_iff in IH. destruct IH as [ IHy IHrest ]. simpl in IHy.
    destruct (IHr IHrest) as [ H1 H2 ].
    cbn [flat_map].
    destruct (removable denied exclude (root ++ [n]) y) eqn:Ey.
    - cbn [app]. auto.
    - cbn [app flat_map]. rewrite (stays_unremovable y _ Ey), IHy, H1, H2.
      split; reflexivity. }
  destruct H as [ H1 H2 ]. now rewrite H1, H2.
Qed.

Lemma removals_nil (t : node) :
  forall root,
    removals denied exclude root t = [] ->
    cleaned denied exclude root t = t.
Proof.
  induction t as [ d | es IH ] using node_induction; intros root H;
    [ reflexivity | ].
  rewrite removals_dir in H. apply app_eq_nil in H. destruct H as [ H1 H2 ].
  rewrite cleaned_dir. f_equal.
  induction es as [ | [ n y ] r IHr ]; [ reflexivity | ].
  apply Forall_cons_iff in IH. destruct IH as [ IHy IHrest ]. simpl in IHy.
  cbn [flat_map] in *.
  apply app_eq_nil in H1. destruct H1 as [ Hy Hr ].
  destruct (removable denied exclude (root ++ [n]) y) eqn:Ey;
    [ discriminate H2 | ].
  cbn [app] in *. rewrite (IHy _ Hy). f_equal. now apply IHr.
Qed.

(** X8: the Cleaner touches no file and makes no directory: a path holds a
    file with some data afterwards exactly when it did before, every
    directory afterwards was one before, the file data in scan order are
    unchanged, and names stay unique in every directory. *)
Theorem cleaner_touches_no_file (t : node) :
  wf t = true ->
  let t' := fst (cleanup_empty_dirs denied exclude t) in
  (forall q c, lookup q t' = Some (File c) <-> lookup q t = Some (File c))
  /\ (forall q, is_dir q t' = true -> is_dir q t = true)
  /\ contents t' = contents t
  /\ wf t' = true.
Proof.
  intros Hwf t'. subst t'.
  rewrite (cleanup_empty_dirs_spec denied exclude t Hwf). cbn [fst].
  split; [ | split; [ | split ] ].
  - intros q c. rewrite <- !stat_file. now apply cleaned_stat_file.
  - intros q Hq. unfold is_dir in *.
    destruct q as [ | n q ].
    + simpl in *. destruct t; [ discriminate Hq | reflexivity ].
    + destruct (lookup (n :: q) (cleaned denied exclude [] t))
        as [ [ d | es' ] | ] eqn:E; try discriminate.
      apply cleaned_lookup_inv in E; [ | exact Hwf | discriminate ].
      destruct E as (x & -> & E & _).
      destruct x; [ discriminate E | reflexivity ].
  - apply cleaned_contents.
  - now apply cleaned_wf.
Qed.

(** X9: cleaning twice is cleaning once: on the tree the Cleaner leaves,
    a second pass with the same exclusions removes nothing and changes
    nothing. *)
Theorem cleaner_is_idempotent (t : node) :
  wf t = true ->
  cleanup_empty_dirs denied exclude (fst (cleanup_empty_dirs denied exclude t))
  = (fst (cleanup_empty_dirs denied exclude t), []).
Proof.
  intro Hwf.
  rewrite (cleanup_empty_dirs_spec denied exclude t Hwf). cbn [fst].
  rewrite (cleanup_empty_dirs_spec denied exclude _
             (cleaned_wf denied exclude t [] Hwf)).
  now rewrite cleaned_idem, removals_cleaned.
Qed.

(** X10: when the Cleaner reports no removal, it returns the tree it was
    given. *)
Theorem cleaner_without_removals_changes_nothing (t : node) :
  wf t = true ->
  snd (cleanup_empty_dirs denied exclude t) = [] ->
  fst (cleanup_empty_dirs denied exclude t) = t.
Proof.
  intros Hwf. rewrite (cleanup_empty_dirs_spec denied exclude t Hwf).
  cbn [fst snd]. apply removals_nil.
Qed.

End CleanerExtras.

Lemma cleaner_touches_no_file_witness :
  let t := Dir [("old", Dir [("deep", Dir [])]);
                ("docs", Dir [("f.txt", File "F")])] in
  FS.lookup ["docs"; "f.txt"] (fst (cleanup_empty_dirs permissive [] t))
  = Some (File "F").
Proof.
  intro t.
  apply (proj1 (cleaner_touches_no_file permissive [] t eq_refl)).
  reflexivity.
Defined.

Lemma cleaner_is_idempotent_witness :
  let t := Dir [("old", Dir [("deep", Dir [])]);
                ("TXT", Dir []);
                ("docs", Dir [("f.txt", File "F")])] in
  cleanup_empty_dirs permissive ["TXT"]
    (fst (cleanup_empty_dirs permissive ["TXT"] t))
  = (Dir [("TXT", Dir []); ("docs", Dir [("f.txt", File "F")])], []).
Proof.
  intro t. apply (cleaner_is_idempotent permissive ["TXT"] t). reflexivity.
Defined.

Lemma cleaner_without_removals_changes_nothing_witness :
  let t := Dir [("TXT", Dir []); ("docs", Dir [("f.txt", File "F")])] in
  fst (cleanup_empty_dirs permissive ["TXT"] t) = t.
Proof.
  intro t.
  apply (cleaner_without_removals_changes_nothing permissive ["TXT"] t);
    reflexivity.
Defined.


(** ** The run, read from its transcript *)

Section RunExtras.

Import FS FSFacts.

Variable denied : path -> bool.

(** X11: a file that is in the folder of its key when the run starts is
    reported as skipped, is neither moved nor reported as an error, and is
    at its path with its data when the run ends. *)
Theorem in_place_files_are_left_alone (es : entries) (p : path) (c : string) :
  wf (Dir es) = true ->
  lookup p (Dir es) = Some (File c) ->
  in_place p ->
  exists r t',
    organize_files denied (Present (Dir es)) = Some r
    /\ after r = Some t'
    /\ In (Skipping p) (output r)
    /\ (forall d, ~ In (Moved p d) (output r))
    /\ ~ In (MoveError p) (output r)
    /\ lookup p t' = Some (File c).
Proof.
  intros Hwf Hc Hin.
  assert (Hp : In p (get_all_files [] (Dir es))).
  { apply (ScanFacts.scan_top (Dir es) p Hwf). split; [ | eauto ].
    intros ->. discriminate. }
  assert (Hne : get_all_files [] (Dir es) <> []).
  { intro E. rewrite E in Hp. destruct Hp. }
  destruct (run_spec denied es Hwf Hne)
    as (st & cs & r & Hr & I & Ha & _ & _ & _ & Hsub & Hback & F & _ & K).
  destruct (in_group _ p Hp) as (files & Hg & Hf).
  exists r, (cleaned denied (map fst (group_files (get_all_files [] (Dir es))))
               [] (tree st)).
  split; [ exact Hr | ]. split; [ exact Ha | ].
  assert (Hmv : forall d, ~ In (Moved p d) (printed st)).
  { intros d H. exact (justified_in denied _ _ F H Hin). }
  assert (Herr : ~ In (MoveError p) (printed st)).
  { intro H. exact (proj1 (justified_in denied _ _ F H) Hin). }
  split; [ | split; [ | split ] ].
  - destruct (K _ files Hg) as [ (_ & N) | (_ & R) ].
    + exfalso. exact (N p Hf Hin).
    + destruct (R p Hf) as [ H | [ (d & H) | H ] ];
        [ exact (Hsub _ H) | exfalso; exact (Hmv d H) | exfalso; exact (Herr H) ].
  - intros d H. destruct (Hback _ H) as [ H' | [] ]. exact (Hmv d H').
  - intro H. destruct (Hback _ H) as [ H' | [] ]. exact (Herr H').
  - apply stat_file. apply cleaned_stat_file; [ exact (mi_wf _ _ _ _ _ I) | ].
    apply (mi_files _ _ _ _ _ I). left. split; [ now apply stat_file | ].
    intro H. apply in_map_iff in H. destruct H as ([ s d ] & E & H).
    simpl in E. subst s. apply (in_moves denied) in H.
    exact (Hmv d H).
Qed.

(** X12: every line of the transcript has its reason: a file reported as
    skipped is in place, a file reported as moved was not, and a move is
    reported as failed only for a file that was not in place and where the
    host refused the file or a destination in the folder of its key. *)
Theorem transcript_lines_are_justified (es : entries) :
  wf (Dir es) = true ->
  exists r,
    organize_files denied (Present (Dir es)) = Some r
    /\ (forall p, In (Skipping p) (output r) -> in_place p)
    /\ (forall p d, In (Moved p d) (output r) -> ~ in_place p)
    /\ (forall p, In (MoveError p) (output r) ->
          ~ in_place p
          /\ exists d,
               parent d = [extension_key (name p)]
               /\ (denied p = true \/ denied d = true)).
Proof.
  intro Hwf.
  destruct (get_all_files [] (Dir es)) as [ | a l ] eqn:E.
  - rewrite (organize_files_empty_scan denied es E). eexists.
    split; [ reflexivity | ]. simpl.
    repeat split; intros; repeat (destruct H as [ H | H ]; try discriminate);
      destruct H.
  - assert (Hne : get_all_files [] (Dir es) <> []) by (rewrite E; discriminate).
    destruct (run_spec denied es Hwf Hne)
      as (st & cs & r & Hr & _ & _ & _ & _ & _ & _ & Hback & F & _).
    exists r. split; [ exact Hr | ].
    split; [ | split ]; intros;
      (destruct (Hback _ H) as [ H' | [] ]);
      exact (justified_in denied _ _ F H').
Qed.

(** X13: a file the scan finds ends in the folder of its key with its data,
    under the path the transcript reports (its own when it is skipped),
    unless the transcript reports that the folder could not be created or
    that the move failed. *)
Theorem every_file_reaches_its_folder (es : entries) (p : path) (c : string) :
  wf (Dir es) = true ->
  In p (get_all_files [] (Dir es)) ->
  lookup p (Dir es) = Some (File c) ->
  exists r t',
    organize_files denied (Present (Dir es)) = Some r
    /\ after r = Some t'
    /\ (In (FolderError (extension_key (name p))) (output r)
        \/ In (MoveError p) (output r)
        \/ exists d,
             parent d = [extension_key (name p)]
             /\ lookup d t' = Some (File c)
             /\ (d = p /\ In (Skipping p) (output r)
                 \/ In (Moved p d) (output r))).
Proof.
  intros Hwf Hp Hc.
  assert (Hne : get_all_files [] (Dir es) <> []).
  { intro E. rewrite E in Hp. destruct Hp. }
  destruct (run_spec denied es Hwf Hne)
    as (st & cs & r & Hr & I & Ha & _ & _ & _ & Hsub & _ & F & _ & K).
  destruct (in_group _ p Hp) as (files & Hg & Hf).
  exists r, (cleaned denied (map fst (group_files (get_all_files [] (Dir es))))
               [] (tree st)).
  split; [ exact Hr | ]. split; [ exact Ha | ].
  destruct (K _ files Hg) as [ (E & _) | (_ & R) ]; [ left; auto | right ].
  destruct (R p Hf) as [ H | [ (d & H) | H ] ];
    [ right | right | left; exact (Hsub _ H) ].
  - assert (Hin : in_place p) by exact (justified_in denied _ _ F H).
    exists p. split; [ exact Hin | ].
    split; [ | left; auto ].
    apply stat_file. apply cleaned_stat_file; [ exact (mi_wf _ _ _ _ _ I) | ].
    apply (mi_files _ _ _ _ _ I). left. split; [ now apply stat_file | ].
    intro H'. apply in_map_iff in H'. destruct H' as ([ s d ] & E & H').
    simpl in E. subst s. apply (in_moves denied) in H'.
    exact (justified_in denied _ _ F H' Hin).
  - exists d. assert (Hm : In (p, d) (cs ++ moves (printed st))).
    { apply in_or_app. right. apply (in_moves denied). exact H. }
    split; [ exact (proj1 (mi_shape _ _ _ _ _ I p d Hm)) | ].
    split; [ | right; exact (Hsub _ H) ].
    apply stat_file. apply cleaned_stat_file; [ exact (mi_wf _ _ _ _ _ I) | ].
    apply (mi_files _ _ _ _ _ I). right. exists p.
    split; [ exact Hm | now apply stat_file ].
Qed.

(** X14: after the run, the folder of the key of every file the scan found
    is a directory, unless the transcript reports that it could not be
    created; and whenever the transcript reports that for a key, a file of
    the organized directory has the folder's name or the host refuses to
    create the folder. *)
Theorem type_folder_is_made_or_reported (es : entries) :
  wf (Dir es) = true ->
  exists r t',
    organize_files denied (Present (Dir es)) = Some r
    /\ after r = Some t'
    /\ (forall p,
          In p (get_all_files [] (Dir es)) ->
          is_dir [extension_key (name p)] t' = true
          \/ In (FolderError (extension_key (name p))) (output r))
    /\ (forall k,
          In (FolderError k) (output r) ->
          (exists c, lookup [k] (Dir es) = Some (File c))
          \/ denied [k] = true).
Proof.
  intro Hwf.
  destruct (get_all_files [] (Dir es)) as [ | a l ] eqn:E.
  - rewrite (organize_files_empty_scan denied es E).
    eexists. exists (Dir es). split; [ reflexivity | ].
    split; [ reflexivity | ]. split; [ intros p [] | ].
    intros k [ H | [ H | [] ] ]; discriminate.
  - assert (Hne : get_all_files [] (Dir es) <> []) by (rewrite E; discriminate).
    rewrite <- E. clear a l E.
    destruct (run_spec denied es Hwf Hne)
      as (st & cs & r & Hr & I & Ha & _ & _ & _ & Hsub & Hback & _ & C & K).
    exists r. eexists. split; [ exact Hr | ]. split; [ exact Ha | ]. split.
    + intros p Hp. destruct (in_group _ p Hp) as (files & Hg & Hf).
      destruct (K _ files Hg) as [ (H & _) | (D & _) ]; [ right | left ].
      * exact (Hsub _ H).
      * apply excluded_dir_stays; [ exact (mi_wf _ _ _ _ _ I) | exact D | ].
        apply in_map_iff. exists (extension_key (name p), files). auto.
    + intros k H. destruct (Hback _ H) as [ H' | [] ]. exact (C k H').
Qed.

(** X15: what a run leaves of a directory whose listings have unique names
    is again a directory whose listings have unique names. *)
Theorem run_leaves_a_directory (es : entries) :
  wf (Dir es) = true ->
  exists r es',
    organize_files denied (Present (Dir es)) = Some r
    /\ after r = Some (Dir es')
    /\ wf (Dir es') = true.
Proof.
  intro Hwf.
  destruct (get_all_files [] (Dir es)) as [ | a l ] eqn:E.
  - rewrite (organize_files_empty_scan denied es E). eexists. exists es.
    split; [ reflexivity | ]. split; [ reflexivity | exact Hwf ].
  - assert (Hne : get_all_files [] (Dir es) <> []) by (rewrite E; discriminate).
    destruct (run_spec denied es Hwf Hne) as (st & cs & r & Hr & I & Ha & _).
    assert (Hroot := mi_dirs _ _ _ _ _ I [] eq_refl).
    assert (Hwf' := cleaned_wf denied
                      (map fst (group_files (get_all_files [] (Dir es))))
                      (tree st) [] (mi_wf _ _ _ _ _ I)).
    destruct (tree st) as [ d | es1 ]; [ discriminate | ].
    rewrite cleaned_dir in Ha, Hwf'.
    exists r. eexists. split; [ exact Hr | ].
    split; [ exact Ha | exact Hwf' ].
Qed.

(** X16: when every file is already in the folder of its key, the run moves
    nothing and counts no error, reports every file as skipped, and leaves
    every file where it is. *)
Theorem organized_directory_is_left_alone (es : entries) :
  wf (Dir es) = true ->
  (forall q, In q (get_all_files [] (Dir es)) -> in_place q) ->
  exists r t',
    organize_files denied (Present (Dir es)) = Some r
    /\ after r = Some t'
    /\ moved r = 0 /\ errors r = 0
    /\ (forall q, In q (get_all_files [] (Dir es)) ->
                  In (Skipping q) (output r))
    /\ (forall q c, lookup q t' = Some (File c)
                    <-> lookup q (Dir es) = Some (File c)).
Proof.
  intros Hwf Hin.
  destruct (organized_run denied es Hwf Hin) as (r0 & Hr0 & Hm0 & He0).
  destruct (get_all_files [] (Dir es)) as [ | a l ] eqn:E.
  - rewrite (organize_files_empty_scan denied es E). eexists. exists (Dir es).
    split; [ reflexivity | ]. split; [ reflexivity | ]. simpl.
    split; [ reflexivity | ]. split; [ reflexivity | ].
    split; [ intros q [] | tauto ].
  - assert (Hne : get_all_files [] (Dir es) <> []) by (rewrite E; discriminate).
    destruct (run_spec denied es Hwf Hne)
      as (st & cs & r & Hr & I & Ha & _ & Hm & He & Hsub & _ & F & _ & K).
    rewrite E in Ha, K, I.
    assert (Er : r0 = r) by congruence. subst r0.
    assert (Hnone : moves (printed st) = []).
    { apply length_zero_iff_nil. rewrite <- (mi_count _ _ _ _ _ I). congruence. }
    assert (Hcs : cs = []).
    { assert (H := mi_failed _ _ _ _ _ I). rewrite <- He, He0 in H.
      destruct cs; [ reflexivity | simpl in H; lia ]. }
    subst cs.
    exists r. eexists. split; [ exact Hr | ]. split; [ exact Ha | ].
    split; [ exact Hm0 | ]. split; [ exact He0 | ]. split.
    + intros q Hq. assert (Hq' := Hq). rewrite <- E in Hq'.
      destruct (in_group _ q Hq') as (files & Hg & Hf). rewrite E in Hg.
      destruct (K _ files Hg) as [ (_ & N) | (_ & R) ].
      * exfalso. exact (N q Hf (Hin q Hq)).
      * destruct (R q Hf) as [ H | [ (d & H) | H ] ].
        -- exact (Hsub _ H).
        -- exfalso. apply (in_moves denied) in H. rewrite Hnone in H. destruct H.
        -- exfalso.
           exact (proj1 (justified_in denied _ _ F H) (Hin q Hq)).
    + intros q c. rewrite <- !stat_file.
      rewrite (cleaned_stat_file denied _ (tree st) [] q c (mi_wf _ _ _ _ _ I)).
      rewrite (mi_files _ _ _ _ _ I q c). rewrite Hnone. simpl. split.
      * intros [ (H & _) | (s & [] & _) ]. exact H.
      * intro H. left. split; [ exact H | tauto ].
Qed.

End RunExtras.

Lemma in_place_files_are_left_alone_witness :
  let es := [("TXT", Dir [("a.txt", File "0")]); ("a.txt", File "1")] in
  exists r t',
    organize_files permissive (Present (Dir es)) = Some r
    /\ after r = Some t'
    /\ In (Skipping ["TXT"; "a.txt"]) (output r)
    /\ (forall d, ~ In (Moved ["TXT"; "a.txt"] d) (output r))
    /\ ~ In (MoveError ["TXT"; "a.txt"]) (output r)
    /\ FS.lookup ["TXT"; "a.txt"] t' = Some (File "0").
Proof.
  intro es.
  apply (in_place_files_are_left_alone permissive es ["TXT"; "a.txt"] "0");
    reflexivity.
Defined.

Lemma transcript_lines_are_justified_witness :
  let host := fun p => FS.path_eqb p ["a.txt"] in
  exists r,
    organize_files host (Present (Dir (scenario "0" "1" "2"))) = Some r
    /\ (forall p, In (Skipping p) (output r) -> in_place p)
    /\ (forall p d, In (Moved p d) (output r) -> ~ in_place p)
    /\ (forall p, In (MoveError p) (output r) ->
          ~ in_place p
          /\ exists d,
               FS.parent d = [extension_key (FS.name p)]
               /\ (host p = true \/ host d = true)).
Proof.
  intro host.
  apply (transcript_lines_are_justified host (scenario "0" "1" "2")).
  reflexivity.
Defined.

Lemma every_file_reaches_its_folder_witness :
  exists r t',
    organize_files permissive (Present (Dir (scenario "0" "1" "2"))) = Some r
    /\ after r = Some t'
    /\ (In (FolderError (extension_key (FS.name ["sub"; "b.txt"]))) (output r)
        \/ In (MoveError ["sub"; "b.txt"]) (output r)
        \/ exists d,
             FS.parent d = [extension_key (FS.name ["sub"; "b.txt"])]
             /\ FS.lookup d t' = Some (File "2")
             /\ (d = ["sub"; "b.txt"] /\ In (Skipping ["sub"; "b.txt"]) (output r)
                 \/ In (Moved ["sub"; "b.txt"] d) (output r))).
Proof.
  apply (every_file_reaches_its_folder permissive (scenario "0" "1" "2")
           ["sub"; "b.txt"] "2");
    [ reflexivity | vm_compute; auto | reflexivity ].
Defined.

Lemma type_folder_is_made_or_reported_witness :
  let es := [("a.txt", File "0"); ("TXT", File "1")] in
  exists r t',
    organize_files permissive (Present (Dir es)) = Some r
    /\ after r = Some t'
    /\ (forall p,
          In p (get_all_files [] (Dir es)) ->
          FS.is_dir [extension_key (FS.name p)] t' = true
          \/ In (FolderError (extension_key (FS.name p))) (output r))
    /\ (forall k,
          In (FolderError k) (output r) ->
          (exists c, FS.lookup [k] (Dir es) = Some (File c))
          \/ permissive [k] = true).
Proof.
  intro es.
  apply (type_folder_is_made_or_reported permissive es). reflexivity.
Defined.

Lemma run_leaves_a_directory_witness :
  exists r es',
    organize_files permissive (Present (Dir (scenario "0" "1" "2"))) = Some r
    /\ after r = Some (Dir es')
    /\ FS.wf (Dir es') = true.
Proof.
  apply (run_leaves_a_directory permissive (scenario "0" "1" "2")).
  reflexivity.
Defined.

Lemma organized_directory_is_left_alone_witness :
  let es := [("TXT", Dir [("a.txt", File "0"); ("b.txt", File "1")]);
             ("NO_EXTENSION", Dir [("README", File "2")])] in
  exists r t',
    organize_files permissive (Present (Dir es)) = Some r
    /\ after r = Some t'
    /\ moved r = 0 /\ errors r = 0
    /\ (forall q, In q (get_all_files [] (Dir es)) ->
                  In (Skipping q) (output r))
    /\ (forall q c, FS.lookup q t' = Some (File c)
                    <-> FS.lookup q (Dir es) = Some (File c)).
Proof.
  intro es.
  apply (organized_directory_is_left_alone permissive es);
    [ reflexivity | ].
  intros q H. vm_compute in H.
  destruct H as [ <- | [ <- | [ <- | [] ] ] ]; reflexivity.
Defined.

(** ** The console session *)

Module TextFacts.

Import Text.

Lemma is_space_lower (a : ascii) : is_space (lower_char a) = is_space a.
Proof. destruct a as [ [] [] [] [] [] [] [] [] ]; reflexivity. Qed.

Lemma lower_app (s t : string) :
  lower (s ++ t) = (lower s ++ lower t)%string.
Proof. induction s as [ | a s IH ]; simpl; [ | rewrite IH ]; reflexivity. Qed.

Lemma lstrip_cases (s : string) :
  lstrip s = EmptyString
  \/ exists a r, lstrip s = String a r /\ is_space a = false.
Proof.
  induction s as [ | a s IH ]; simpl; [ now left | ].
  destruct (is_space a) eqn:E; [ exact IH | right; eauto ].
Qed.

Lemma lstrip_blank_app (ws s : string) :
  lstrip ws = EmptyString -> lstrip (ws ++ s) = lstrip s.
Proof.
  induction ws as [ | a ws IH ]; simpl; [ reflexivity | ].
  destruct (is_space a); [ exact IH | discriminate ].
Qed.

Lemma lstrip_app (s t : string) :
  lstrip s <> EmptyString -> lstrip (s ++ t) = (lstrip s ++ t)%string.
Proof.
  induction s as [ | a s IH ]; simpl; [ congruence | ].
  destruct (is_space a); [ exact IH | reflexivity ].
Qed.

Lemma blank_iff (s : string) :
  lstrip s = EmptyString <-> rstrip s = EmptyString.
Proof.
  induction s as [ | a s IH ]; simpl; [ tauto | ].
  destruct (is_space a), (rstrip s); split; intro H;
    try discriminate; try reflexivity.
  - now apply IH.
  - apply IH in H. discriminate.
Qed.

Lemma rstrip_app_blank (s ws : string) :
  rstrip ws = EmptyString -> rstrip (s ++ ws) = rstrip s.
Proof.
  intro H. induction s as [ | a s IH ]; simpl; [ exact H | ].
  now rewrite IH.
Qed.

Lemma rstrip_head (a : ascii) (r : string) :
  is_space a = false -> exists r', rstrip (String a r) = String a r'.
Proof.
  intro H. simpl. rewrite H. destruct (rstrip r); eauto.
Qed.

Lemma strip_blank (s : string) :
  strip s = EmptyString <-> lstrip s = EmptyString.
Proof.
  unfold strip. split; intro H; [ | now rewrite H ].
  destruct (lstrip_cases s) as [ E | (a & r & E & Ha) ]; [ exact E | ].
  rewrite E in H. destruct (rstrip_head a r Ha) as (r' & E').
  rewrite E' in H. discriminate.
Qed.

(** Whitespace around a text does not change what [strip] returns. *)
Lemma strip_padded (ws1 core ws2 : string) :
  strip ws1 = EmptyString -> strip ws2 = EmptyString ->
  strip (ws1 ++ core ++ ws2) = strip core.
Proof.
  intros H1 H2. apply strip_blank in H1. apply strip_blank in H2.
  unfold strip. rewrite (lstrip_blank_app ws1 _ H1).
  destruct (lstrip_cases core) as [ E | (a & r & E & Ha) ].
  - rewrite (lstrip_blank_app core ws2 E), H2, E. reflexivity.
  - rewrite lstrip_app by (rewrite E; discriminate).
    apply rstrip_app_blank. now apply blank_iff.
Qed.

Lemma lower_lstrip (s : string) : lower (lstrip s) = lstrip (lower s).
Proof.
  induction s as [ | a s IH ]; simpl; [ reflexivity | ].
  rewrite is_space_lower. destruct (is_space a); [ exact IH | reflexivity ].
Qed.

Lemma lower_rstrip (s : string) : lower (rstrip s) = rstrip (lower s).
Proof.
  induction s as [ | a s IH ]; simpl; [ reflexivity | ].
  rewrite <- IH, is_space_lower.
  destruct (rstrip s); simpl; [ destruct (is_space a) | ]; reflexivity.
Qed.

(** [strip] and [lower] can be applied in either order. *)
Lemma lower_strip (s : string) : lower (strip s) = strip (lower s).
Proof. unfold strip. now rewrite lower_rstrip, lower_lstrip. Qed.

Lemma rstrip_idem (s : string) : rstrip (rstrip s) = rstrip s.
Proof.
  induction s as [ | a s IH ]; simpl; [ reflexivity | ].
  destruct (rstrip s) as [ | b r' ] eqn:E.
  - destruct (is_space a) eqn:Ha; simpl; [ | rewrite Ha ]; reflexivity.
  - change (rstrip (String a (String b r')))
      with (match rstrip (String b r') with
            | EmptyString =>
                if is_space a then EmptyString else String a EmptyString
            | x => String a x
            end).
    rewrite IH. reflexivity.
Qed.

(** What [strip] returns has no whitespace left to strip. *)
Lemma strip_idem (s : string) : strip (strip s) = strip s.
Proof.
  unfold strip.
  destruct (lstrip_cases s) as [ E | (a & r & E & Ha) ]; rewrite E;
    [ reflexivity | ].
  destruct (rstrip_head a r Ha) as (r' & E'). rewrite E'.
  change (lstrip (String a r')) with (if is_space a then lstrip r' else String a r').
  rewrite Ha, <- E'. apply rstrip_idem.
Qed.

End TextFacts.

(** X17: the confirmation is read without regard to surrounding whitespace
    and to letter case: after any first line, an answer that is [yes] or [y]
    in any mix of cases, with any whitespace before and after it, makes
    [main] call [organize_files] on the stripped first line, or on the
    current directory when that line is blank; [main] then returns when the
    call returns, and ends with the exception when the call raises. *)
Theorem main_accepts_padded_answers (denied : path -> bool) (cwd : string)
    (world : string -> probe) (line1 ws1 ans ws2 : string)
    (rest : list string) :
  Text.strip ws1 = EmptyString ->
  Text.strip ws2 = EmptyString ->
  Text.lower ans = "yes" \/ Text.lower ans = "y" ->
  let directory :=
    if String.eqb (Text.strip line1) EmptyString then cwd
    else Text.strip line1 in
  let s := main denied cwd world (line1 :: (ws1 ++ ans ++ ws2)%string :: rest) in
  organized s = Some (directory, organize_files denied (world directory))
  /\ exit s = match organize_files denied (world directory) with
              | Some _ => Returned
              | None => Uncaught
              end.
Proof.
  intros H1 H2 Ha directory s.
  assert (Hc : Text.lower (Text.strip (ws1 ++ ans ++ ws2))
               = Text.strip (Text.lower ans)).
  { now rewrite (TextFacts.strip_padded ws1 ans ws2 H1 H2),
      TextFacts.lower_strip. }
  subst s directory. unfold main. rewrite Hc.
  destruct Ha as [ -> | -> ]; split; reflexivity.
Qed.

(** X18: [main] calls [organize_files] only after two lines were read and
    the second, stripped and lowered, is [yes] or [y]; the directory it
    passes is the current directory or a non-empty text with no whitespace
    around it, the stripped first line. *)
Theorem main_organizes_only_on_consent (denied : path -> bool) (cwd : string)
    (world : string -> probe) (stdin : list string) (d : string)
    (r : option result) :
  organized (main denied cwd world stdin) = Some (d, r) ->
  r = organize_files denied (world d)
  /\ (d = cwd \/ d <> EmptyString /\ Text.strip d = d)
  /\ exists line1 line2 rest,
       stdin = line1 :: line2 :: rest
       /\ d = (if String.eqb (Text.strip line1) EmptyString then cwd
               else Text.strip line1)
       /\ (Text.lower (Text.strip line2) = "yes"
           \/ Text.lower (Text.strip line2) = "y").
Proof.
  unfold main.
  destruct stdin as [ | line1 [ | line2 rest ] ]; try discriminate.
  destruct (String.eqb (Text.lower (Text.strip line2)) "yes") eqn:Ey;
    [ | destruct (String.eqb (Text.lower (Text.strip line2)) "y") eqn:Ey' ];
    cbn [orb organized exit]; try discriminate;
    intro H; injection H as <- <-;
    (split; [ reflexivity | ]);
    (split;
     [ destruct (String.eqb_spec (Text.strip line1) EmptyString) as [ E | E ];
       [ now left | right; split; [ exact E | apply TextFacts.strip_idem ] ]
     | exists line1, line2, rest; split; [ reflexivity | ];
       split; [ reflexivity | ] ]).
  - left. now apply String.eqb_eq.
  - right. now apply String.eqb_eq.
Qed.

Lemma main_accepts_padded_answers_witness :
  let world := fun d => if String.eqb d "/tmp/x"
                        then Present (Dir (scenario "0" "1" "2"))
                        else Inaccessible in
  let s := main permissive "/home/u" world
             ["  /tmp/x " ; (" " ++ "Yes" ++ "  ")%string ] in
  organized s
  = Some ("/tmp/x",
          organize_files permissive (Present (Dir (scenario "0" "1" "2"))))
  /\ exit s = match organize_files permissive
                      (Present (Dir (scenario "0" "1" "2"))) with
              | Some _ => Returned
              | None => Uncaught
              end.
Proof.
  intro world.
  apply (main_accepts_padded_answers permissive "/home/u" world
           "  /tmp/x " " " "Yes" "  " []);
    [ reflexivity | reflexivity | left; reflexivity ].
Defined.

Lemma main_organizes_only_on_consent_witness :
  let world := fun d : string => Absent in
  let r := organize_files permissive (world "/home/u") in
  r = organize_files permissive (world "/home/u")
  /\ ("/home/u" = "/home/u"
      \/ "/home/u" <> EmptyString /\ Text.strip "/home/u" = "/home/u")
  /\ exists line1 line2 rest,
       [" "; "Y"] = line1 :: line2 :: rest
       /\ "/home/u" = (if String.eqb (Text.strip line1) EmptyString
                       then "/home/u" else Text.strip line1)
       /\ (Text.lower (Text.strip line2) = "yes"
           \/ Text.lower (Text.strip line2) = "y").
Proof.
  intros world r.
  apply (main_organizes_only_on_consent permissive "/home/u" world
           [" "; "Y"] "/home/u" r).
  reflexivity.
Defined.
